(** * The reactivity core of Vue: observer/index.js and observer/watcher.js

    A shallow embedding of the Observer / defineReactive / set code of
    [src/core/observer/index.js] and of the [Watcher] class, over an explicit
    store of JavaScript objects, closures, Deps and Watchers.  Mutation and
    exceptions are threaded through a small state-and-exception monad.

    The functions of the program (evaluators, callbacks, accessors) and the
    scheduler are the fields of the class [Host]; [Dep] and the helpers of
    util, which the two files import, are modelled from the specification and
    say so. *)

From Stdlib Require Import Floats.SpecFloat.
From stdpp Require Import gmap strings list sorting.

(** ** JavaScript values *)

(** References into the store.  Every kind of object the code allocates has
    its own table; an id is the identity of the object. *)
Abbreviation loc := nat.     (* plain objects, arrays, VNodes, ... *)
Abbreviation depid := nat.   (* Dep instances: [dep.id] *)
Abbreviation wid := nat.     (* Watcher instances: [watcher.id] *)
Abbreviation obid := nat.    (* Observer instances *)
Abbreviation cid := nat.     (* the closure of one defineReactive call *)
Abbreviation vmid := nat.    (* component instances *)

(** Function values the code can meet: functions of the surrounding program,
    the two accessors [defineReactive] installs (they share one closure), and
    the patched array methods of [arrayMethods]. *)
Inductive fn :=
| FUser (n : nat)
| FReactiveGetter (c : cid)
| FReactiveSetter (c : cid)
| FArrayMethod (m : string).

Inductive value :=
| VUndef
| VNull
| VBool (b : bool)
| VNum (f : spec_float)
| VStr (s : string)
| VFun (f : fn)
| VRef (r : loc)
| VObs (o : obid).

Global Instance fn_eq_dec : EqDecision fn.
Proof. solve_decision. Defined.

Global Instance spec_float_eq_dec : EqDecision spec_float.
Proof. solve_decision. Defined.

Global Instance value_eq_dec : EqDecision value.
Proof. solve_decision. Defined.

(** [a === b].  Numbers are IEEE doubles in the normal form of [SpecFloat]
    and compare as such: NaN differs from itself and the two zeros are equal;
    objects compare by reference. *)
Definition strict_eq (a b : value) : bool :=
  match a, b with
  | VUndef, VUndef => true
  | VNull, VNull => true
  | VBool x, VBool y => bool_decide (x = y)
  | VNum x, VNum y => SFeqb x y
  | VStr x, VStr y => bool_decide (x = y)
  | VFun x, VFun y => bool_decide (x = y)
  | VRef x, VRef y => bool_decide (x = y)
  | VObs x, VObs y => bool_decide (x = y)
  | _, _ => false
  end.

(** [v !== v]: true of NaN only. *)
Definition self_differs (v : value) : bool := negb (strict_eq v v).

(** JavaScript truthiness, for [a && b], [!a] and [if (a)]. *)
Definition truthy (v : value) : bool :=
  match v with
  | VUndef | VNull => false
  | VBool b => b
  | VNum (S754_zero _) | VNum S754_nan => false
  | VNum _ => true
  | VStr s => negb (bool_decide (s = EmptyString))
  | VFun _ | VRef _ | VObs _ => true
  end.

(** Modelled from the spec: the helper [isObject] of util is not in src/; the
    spec calls its argument an object/array-typed value, that is
    [obj !== null && typeof obj === 'object']. *)
Definition isObject (v : value) : bool :=
  match v with
  | VRef _ | VObs _ => true
  | _ => false
  end.

(** Modelled from the spec: [isUndef] of util is not in src/; [set] uses it
    with [isPrimitive] to recognise undefined, null, or primitive value. *)
Definition isUndef (v : value) : bool :=
  match v with VUndef | VNull => true | _ => false end.

(** Modelled from the spec: [isPrimitive] of util is not in src/; see
    [isUndef]. *)
Definition isPrimitive (v : value) : bool :=
  match v with VBool _ | VNum _ | VStr _ => true | _ => false end.

(** Thrown values. *)
Inductive exn :=
| TypeError (msg : string)
| Thrown (v : value).

(** ** Objects *)

(** A property key.  [KIndex n] is a key that is a valid array index,
    [KName s] any other key. *)
Inductive pkey :=
| KName (s : string)
| KIndex (n : nat).

Global Instance pkey_eq_dec : EqDecision pkey.
Proof. solve_decision. Defined.

(** Modelled from the spec: [isValidArrayIndex] of util is not in src/; it
    tells a list index from a key.  Here it returns the index as well. *)
Definition isValidArrayIndex (k : pkey) : option nat :=
  match k with KIndex n => Some n | KName _ => None end.

(** Property descriptors, as [Object.getOwnPropertyDescriptor] returns them. *)
Inductive pdesc :=
| PData (v : value) (writable enumerable configurable : bool)
| PAccessor (get set : option fn) (enumerable configurable : bool).

Definition pd_configurable (p : pdesc) : bool :=
  match p with PData _ _ _ c => c | PAccessor _ _ _ c => c end.
Definition pd_enumerable (p : pdesc) : bool :=
  match p with PData _ _ e _ => e | PAccessor _ _ e _ => e end.
Definition pd_get (p : pdesc) : option fn :=
  match p with PData _ _ _ _ => None | PAccessor g _ _ _ => g end.
Definition pd_set (p : pdesc) : option fn :=
  match p with PData _ _ _ _ => None | PAccessor _ s _ _ => s end.

(** What [Object.prototype.toString] and [instanceof VNode] tell apart. *)
Inductive obj_class := CObject | CArray | CVNode | CHost.

Global Instance obj_class_eq_dec : EqDecision obj_class.
Proof. solve_decision. Defined.

(** An object of the program.  [_isVue] is the flag a component instance
    has. *)
Record Obj := mkObj {
  cls : obj_class;
  props : list (pkey * pdesc);        (* own properties, in creation order *)
  elems : list (option value);        (* array elements; [None] is a hole *)
  extensible : bool;                  (* Object.isExtensible *)
  inherited : list pkey;              (* keys found on the prototype chain *)
  protoArrayMethods : bool;           (* __proto__ === arrayMethods *)
  _isVue : bool
}.

(** Own properties as an association list: first match wins, a new key goes
    to the end, an existing key keeps its place. *)
Fixpoint alookup {A} (k : pkey) (l : list (pkey * A)) : option A :=
  match l with
  | [] => None
  | (k', a) :: l' => if decide (k = k') then Some a else alookup k l'
  end.

Fixpoint ainsert {A} (k : pkey) (a : A) (l : list (pkey * A)) : list (pkey * A) :=
  match l with
  | [] => [(k, a)]
  | (k', a') :: l' =>
      if decide (k = k') then (k, a) :: l' else (k', a') :: ainsert k a l'
  end.

(** The keys [Object.prototype] has; [set] tests [key in Object.prototype]. *)
Definition Object_prototype_keys : list string :=
  ["constructor"; "__defineGetter__"; "__defineSetter__"; "hasOwnProperty";
   "__lookupGetter__"; "__lookupSetter__"; "isPrototypeOf";
   "propertyIsEnumerable"; "toString"; "valueOf"; "__proto__";
   "toLocaleString"]%string.

Definition in_Object_prototype (k : pkey) : bool :=
  match k with
  | KName s => bool_decide (s ∈ Object_prototype_keys)
  | KIndex _ => false
  end.

(** ** Closures, Observers, Watchers *)

(** The variables one call of [defineReactive] closes over; [reactiveGetter]
    and [reactiveSetter] of that call share them. *)
Record Closure := mkClosure {
  c_obj : loc;
  c_key : pkey;
  c_val : value;
  c_childOb : option obid;            (* [!shallow && observe(val)], when truthy *)
  c_getter : option fn;
  c_setter : option fn;
  c_customSetter : option fn;
  c_shallow : bool;
  c_dep : depid
}.

Record Observer := mkObserver {
  ob_value : loc;
  ob_dep : depid;
  vmCount : nat
}.

Record Watcher := mkWatcher {
  w_vm : vmid;
  w_expression : string;
  w_deep : bool;
  w_user : bool;
  w_lazy : bool;
  w_sync : bool;
  w_dirty : bool;
  w_active : bool;
  w_deps : list depid;
  w_newDeps : list depid;
  w_depIds : gset nat;
  w_newDepIds : gset nat;
  w_value : value
}.

(** The part of a component instance the Watcher class touches. *)
Record VM := mkVM {
  _watcher : option wid;
  _watchers : list wid;
  _isBeingDestroyed : bool
}.

(** What reaches the outside: [warn] and [handleError]. *)
Inductive event :=
| Warn (msg : string)
| HandleError (e : exn) (vm : vmid) (info : string).

(** ** The store *)

Record State := mkState {
  heap : gmap nat Obj;
  closures : gmap nat Closure;
  observers : gmap nat Observer;
  subs : gmap nat (list nat);          (* [dep.subs] of every Dep *)
  dep_uid : nat;                       (* the [uid] counter of dep.js *)
  watchers : gmap nat Watcher;
  watcher_uid : nat;                   (* the [uid] counter of watcher.js *)
  targetStack : list wid;              (* top is [Dep.target] *)
  vms : gmap nat VM;
  shouldObserve : bool;
  log : list event
}.

Definition set_heap (f : gmap nat Obj → gmap nat Obj) (s : State) : State :=
  mkState (f (heap s)) (closures s) (observers s) (subs s) (dep_uid s)
    (watchers s) (watcher_uid s) (targetStack s) (vms s) (shouldObserve s) (log s).
Definition set_closures (f : gmap nat Closure → gmap nat Closure) (s : State) : State :=
  mkState (heap s) (f (closures s)) (observers s) (subs s) (dep_uid s)
    (watchers s) (watcher_uid s) (targetStack s) (vms s) (shouldObserve s) (log s).
Definition set_observers (f : gmap nat Observer → gmap nat Observer) (s : State) : State :=
  mkState (heap s) (closures s) (f (observers s)) (subs s) (dep_uid s)
    (watchers s) (watcher_uid s) (targetStack s) (vms s) (shouldObserve s) (log s).
Definition set_subs (f : gmap nat (list nat) → gmap nat (list nat)) (s : State) : State :=
  mkState (heap s) (closures s) (observers s) (f (subs s)) (dep_uid s)
    (watchers s) (watcher_uid s) (targetStack s) (vms s) (shouldObserve s) (log s).
Definition set_dep_uid (f : nat → nat) (s : State) : State :=
  mkState (heap s) (closures s) (observers s) (subs s) (f (dep_uid s))
    (watchers s) (watcher_uid s) (targetStack s) (vms s) (shouldObserve s) (log s).
Definition set_watchers (f : gmap nat Watcher → gmap nat Watcher) (s : State) : State :=
  mkState (heap s) (closures s) (observers s) (subs s) (dep_uid s)
    (f (watchers s)) (watcher_uid s) (targetStack s) (vms s) (shouldObserve s) (log s).
Definition set_watcher_uid (f : nat → nat) (s : State) : State :=
  mkState (heap s) (closures s) (observers s) (subs s) (dep_uid s)
    (watchers s) (f (watcher_uid s)) (targetStack s) (vms s) (shouldObserve s) (log s).
Definition set_targetStack (f : list nat → list nat) (s : State) : State :=
  mkState (heap s) (closures s) (observers s) (subs s) (dep_uid s)
    (watchers s) (watcher_uid s) (f (targetStack s)) (vms s) (shouldObserve s) (log s).
Definition set_vms (f : gmap nat VM → gmap nat VM) (s : State) : State :=
  mkState (heap s) (closures s) (observers s) (subs s) (dep_uid s)
    (watchers s) (watcher_uid s) (targetStack s) (f (vms s)) (shouldObserve s) (log s).
Definition set_shouldObserve (b : bool) (s : State) : State :=
  mkState (heap s) (closures s) (observers s) (subs s) (dep_uid s)
    (watchers s) (watcher_uid s) (targetStack s) (vms s) b (log s).
Definition set_log (f : list event → list event) (s : State) : State :=
  mkState (heap s) (closures s) (observers s) (subs s) (dep_uid s)
    (watchers s) (watcher_uid s) (targetStack s) (vms s) (shouldObserve s) (f (log s)).

(** ** The monad: state, exceptions, and the edge of the model

    [Stuck] is neither a return nor a throw: the run left what is modelled
    (a dangling reference, which the source cannot have; an object of the
    runtime used as data) or ran out of fuel. *)
Inductive outcome (A : Type) :=
| Ok (a : A) (s : State)
| Throw (e : exn) (s : State)
| Stuck.
Arguments Ok {A} a s.
Arguments Throw {A} e s.
Arguments Stuck {A}.

(** The store a run ends in, by return or by throw. *)
Definition final_state {A} (r : outcome A) : option State :=
  match r with Ok _ s | Throw _ s => Some s | Stuck => None end.

Definition M (A : Type) : Type := State → outcome A.

Definition ret {A} (a : A) : M A := fun s => Ok a s.
Definition bind {A B} (m : M A) (k : A → M B) : M B :=
  fun s => match m s with
           | Ok a s' => k a s'
           | Throw e s' => Throw e s'
           | Stuck => Stuck
           end.
Definition throw {A} (e : exn) : M A := fun s => Throw e s.
Definition stuck {A} : M A := fun _ => Stuck.
Definition gets {A} (f : State → A) : M A := fun s => Ok (f s) s.
Definition modify (f : State → State) : M unit := fun s => Ok tt (f s).

Declare Scope js_scope.
Delimit Scope js_scope with js.
Bind Scope js_scope with M.
Notation "x <- c1 ;; c2" := (bind c1 (fun x => c2))
  (at level 100, c1 at next level, c2 at level 200, right associativity) : js_scope.
Notation "c1 ;; c2" := (bind c1 (fun _ => c2))
  (at level 100, c2 at level 200, right associativity) : js_scope.
Open Scope js_scope.

(** [try { body } catch (e) { handler e }]. *)
Definition try_catch {A} (body : M A) (handler : exn → M A) : M A :=
  fun s => match body s with
           | Throw e s' => handler e s'
           | r => r
           end.

(** [let x = init; try { x = body } catch (e) { handler e } finally { fin x };
    return x]: the local [x] is [init] until the try block has assigned it;
    the exit of the try and catch blocks stands unless [fin] throws. *)
Definition try_catch_finally {A} (init : A) (body : M A)
    (handler : exn → M unit) (fin : A → M unit) : M A :=
  fun s => match body s with
           | Ok a s' => (fin a ;; ret a) s'
           | Throw e s' =>
               match handler e s' with
               | Ok _ s'' => (fin init ;; ret init) s''
               | Throw e' s'' => (fin init ;; throw e') s''
               | Stuck => Stuck
               end
           | Stuck => Stuck
           end.

(** [for (x of l) body(x)] over a snapshot [l]. *)
Fixpoint for_each {A} (l : list A) (body : A → M unit) : M unit :=
  match l with
  | [] => ret tt
  | x :: l' => body x ;; for_each l' body
  end.

(** [let i = n; while (i--) body(i)]. *)
Fixpoint while_down (n : nat) (body : nat → M unit) : M unit :=
  match n with
  | 0 => ret tt
  | S i => body i ;; while_down i body
  end.

Definition when (b : bool) (m : M unit) : M unit := if b then m else ret tt.

(** Modelled from the spec: [warn] of util is not in src/; a development-mode
    warning reaches the outside and nothing else happens. *)
Definition warn (msg : string) : M unit :=
  modify (set_log (fun l => l ++ [Warn msg])).

(** Modelled from the spec: [handleError] of util is not in src/; the error
    channel receives the exception, the owner and a label naming the
    computation, and execution continues. *)
Definition handleError (e : exn) (vm : vmid) (info : string) : M unit :=
  modify (set_log (fun l => l ++ [HandleError e vm info])).

Definition dquote : string := String (Ascii.ascii_of_nat 34) EmptyString.

(** [`getter for watcher "${this.expression}"`] and its sibling in [run]. *)
Definition getter_label (expression : string) : string :=
  ("getter for watcher " ++ dquote ++ expression ++ dquote)%string.
Definition callback_label (expression : string) : string :=
  ("callback for watcher " ++ dquote ++ expression ++ dquote)%string.

(** ** Field updates of a Watcher *)

Definition with_dirty (b : bool) (x : Watcher) : Watcher :=
  mkWatcher (w_vm x) (w_expression x) (w_deep x) (w_user x) (w_lazy x) (w_sync x)
    b (w_active x) (w_deps x) (w_newDeps x) (w_depIds x) (w_newDepIds x) (w_value x).
Definition with_active (b : bool) (x : Watcher) : Watcher :=
  mkWatcher (w_vm x) (w_expression x) (w_deep x) (w_user x) (w_lazy x) (w_sync x)
    (w_dirty x) b (w_deps x) (w_newDeps x) (w_depIds x) (w_newDepIds x) (w_value x).
Definition with_deps (l : list depid) (x : Watcher) : Watcher :=
  mkWatcher (w_vm x) (w_expression x) (w_deep x) (w_user x) (w_lazy x) (w_sync x)
    (w_dirty x) (w_active x) l (w_newDeps x) (w_depIds x) (w_newDepIds x) (w_value x).
Definition with_newDeps (l : list depid) (x : Watcher) : Watcher :=
  mkWatcher (w_vm x) (w_expression x) (w_deep x) (w_user x) (w_lazy x) (w_sync x)
    (w_dirty x) (w_active x) (w_deps x) l (w_depIds x) (w_newDepIds x) (w_value x).
Definition with_depIds (i : gset nat) (x : Watcher) : Watcher :=
  mkWatcher (w_vm x) (w_expression x) (w_deep x) (w_user x) (w_lazy x) (w_sync x)
    (w_dirty x) (w_active x) (w_deps x) (w_newDeps x) i (w_newDepIds x) (w_value x).
Definition with_newDepIds (i : gset nat) (x : Watcher) : Watcher :=
  mkWatcher (w_vm x) (w_expression x) (w_deep x) (w_user x) (w_lazy x) (w_sync x)
    (w_dirty x) (w_active x) (w_deps x) (w_newDeps x) (w_depIds x) i (w_value x).
Definition with_value (v : value) (x : Watcher) : Watcher :=
  mkWatcher (w_vm x) (w_expression x) (w_deep x) (w_user x) (w_lazy x) (w_sync x)
    (w_dirty x) (w_active x) (w_deps x) (w_newDeps x) (w_depIds x) (w_newDepIds x) v.

(** [this]: the Watcher a method runs on.  References do not dangle in the
    source, so a missing entry is outside the model. *)
Definition this_watcher (w : wid) : M Watcher :=
  fun s => match watchers s !! w with Some x => Ok x s | None => Stuck end.

Definition update_watcher (w : wid) (f : Watcher → Watcher) : M unit :=
  modify (set_watchers (alter f w)).

Definition the_vm (v : vmid) : M VM :=
  fun s => match vms s !! v with Some x => Ok x s | None => Stuck end.

(** ** Dep

    dep.js is not in src/; the Subject of the spec stands in for it.  A Dep
    is named by its id, which is unique. *)

(** Modelled from the spec: [dep.subs] of dep.js, which is not in src/: the
    ordered set of subscribed computations, empty for a new Subject. *)
Definition dep_subs (d : depid) (s : State) : list wid := default [] (subs s !! d).

(** Modelled from the spec: [new Dep()] of dep.js, which is not in src/: a
    Subject has a unique, monotonically increasing id and starts with no
    subscribers. *)
Definition new_Dep : M depid :=
  fun s => Ok (dep_uid s) (set_subs <[dep_uid s := []]> (set_dep_uid S s)).

(** Modelled from the spec: the subscriber set of dep.js, which is not in
    src/, is kept in insertion order without duplicates, and subscribing is
    an idempotent add. *)
Definition add_sub (w : wid) (l : list wid) : list wid :=
  if decide (w ∈ l) then l else l ++ [w].

(** Modelled from the spec: unsubscribing, in dep.js, which is not in src/,
    is an idempotent remove. *)
Definition remove_sub (w : wid) (l : list wid) : list wid :=
  filter (fun x => x ≠ w) l.

(** Modelled from the spec: [dep.addSub(sub)] of dep.js, which is not in
    src/: subscribe. *)
Definition addSub (d : depid) (w : wid) : M unit :=
  modify (fun s => set_subs <[d := add_sub w (dep_subs d s)]> s).

(** Modelled from the spec: [dep.removeSub(sub)] of dep.js, which is not in
    src/: unsubscribe. *)
Definition removeSub (d : depid) (w : wid) : M unit :=
  modify (fun s => set_subs <[d := remove_sub w (dep_subs d s)]> s).

(** Modelled from the spec: [Dep.target] of dep.js, which is not in src/: the
    active computation is the top of a process-wide stack. *)
Definition Dep_target (s : State) : option wid := head (targetStack s).

(** Modelled from the spec: [pushTarget(target)] of dep.js, which is not in
    src/: evaluating a computation pushes it as the active one. *)
Definition pushTarget (w : wid) : M unit := modify (set_targetStack (cons w)).

(** Modelled from the spec: [popTarget()] of dep.js, which is not in src/:
    on completion the stack pops back to the outer computation. *)
Definition popTarget : M unit := modify (set_targetStack tail).

(** ** The world around the two files

    What the code calls but src/ does not hold: the functions the program
    hands in (evaluators, callbacks, accessors a property already had), the
    scheduler, and three build and platform constants. *)
Class Host := {
  (** [process.env.NODE_ENV === 'production'] *)
  production : bool;
  isServerRendering : bool;
  hasProto : bool;
  (** [this.getter.call(vm, vm)] of a watcher, seen from the dependency
      graph: the Deps whose [depend()] it triggers, in order, and whether it
      returns or throws. *)
  evaluator : wid → State → list depid * (value + exn);
  (** [traverse(value)]: the Deps it touches. *)
  traverse_reads : value → State → list depid;
  (** [this.cb.call(this.vm, value, oldValue)] *)
  cb : wid → value → value → M unit;
  (** [queueWatcher(this)] of the scheduler *)
  queueWatcher : wid → M unit;
  (** [remove(arr, item)] of util *)
  remove : list wid → wid → list wid;
  (** [getter.call(obj)], [setter.call(obj, newVal)] and [customSetter()] *)
  call_getter : fn → loc → M value;
  call_setter : fn → loc → value → M unit;
  call_customSetter : fn → M unit
}.

Section Watcher.
Context `{Host}.

(** *** watcher.js *)

(** [addDep (dep)] *)
Definition addDep (w : wid) (dep : depid) : M unit :=
  this <- this_watcher w ;;
  if bool_decide (dep ∈ w_newDepIds this) then ret tt
  else
    update_watcher w (fun x => with_newDepIds ({[dep]} ∪ w_newDepIds x) x) ;;
    update_watcher w (fun x => with_newDeps (w_newDeps x ++ [dep]) x) ;;
    this <- this_watcher w ;;
    when (negb (bool_decide (dep ∈ w_depIds this))) (addSub dep w).

(** Modelled from the spec: [dep.depend()] of dep.js, which is not in src/,
    records a read with the active computation; nothing happens if none is
    active. *)
Definition dep_depend (d : depid) : M unit :=
  t <- gets Dep_target ;;
  match t with
  | Some w => addDep w d
  | None => ret tt
  end.

(** [cleanupDeps ()] *)
Definition cleanupDeps (w : wid) : M unit :=
  this <- this_watcher w ;;
  while_down (length (w_deps this)) (fun i =>
    this <- this_watcher w ;;
    match w_deps this !! i with
    | Some dep =>
        when (negb (bool_decide (dep ∈ w_newDepIds this))) (removeSub dep w)
    | None => stuck
    end) ;;
  (* tmp = depIds; depIds = newDepIds; newDepIds = tmp; newDepIds.clear() *)
  update_watcher w (fun x =>
    let tmp := w_depIds x in
    with_newDepIds ∅ (with_newDepIds tmp (with_depIds (w_newDepIds x) x))) ;;
  (* tmp = deps; deps = newDeps; newDeps = tmp; newDeps.length = 0 *)
  update_watcher w (fun x =>
    let tmp := w_deps x in
    with_newDeps [] (with_newDeps tmp (with_deps (w_newDeps x) x))).

(** The evaluator runs: each of its reads reaches [dep.depend()]. *)
Definition call_evaluator (w : wid) : M value :=
  fun s =>
    let '(reads, out) := evaluator w s in
    (for_each reads dep_depend ;;
     match out with
     | inl v => ret v
     | inr e => throw e
     end) s.

Definition traverse (v : value) : M unit :=
  fun s => for_each (traverse_reads v s) dep_depend s.

(** The catch block of [get]. *)
Definition get_catch (w : wid) (vm : vmid) (e : exn) : M unit :=
  this <- this_watcher w ;;
  if w_user this then handleError e vm (getter_label (w_expression this))
  else throw e.

(** The finally block of [get]. *)
Definition get_finally (w : wid) (value : value) : M unit :=
  (* "touch" every property so they are all tracked as
     dependencies for deep watching *)
  this <- this_watcher w ;;
  when (w_deep this) (traverse value) ;;
  popTarget ;;
  cleanupDeps w.

(** [get ()] *)
Definition get (w : wid) : M value :=
  pushTarget w ;;
  this <- this_watcher w ;;
  let vm := w_vm this in
  try_catch_finally VUndef
    (* value = this.getter.call(vm, vm) *)
    (call_evaluator w)
    (get_catch w vm)
    (get_finally w).

(** [run ()] *)
Definition run (w : wid) : M unit :=
  this <- this_watcher w ;;
  if w_active this then
    value <- get w ;;
    this <- this_watcher w ;;
    if negb (strict_eq value (w_value this)) || isObject value || w_deep this then
      (* set new value *)
      let oldValue := w_value this in
      update_watcher w (with_value value) ;;
      this <- this_watcher w ;;
      if w_user this then
        try_catch (cb w value oldValue)
          (fun e =>
             this <- this_watcher w ;;
             handleError e (w_vm this) (callback_label (w_expression this)))
      else cb w value oldValue
    else ret tt
  else ret tt.

(** [update ()] *)
Definition update (w : wid) : M unit :=
  this <- this_watcher w ;;
  if w_lazy this then update_watcher w (with_dirty true)
  else if w_sync this then run w
  else queueWatcher w.

(** [evaluate ()] *)
Definition evaluate (w : wid) : M unit :=
  v <- get w ;;
  update_watcher w (with_value v) ;;
  update_watcher w (with_dirty false).

(** [depend ()] *)
Definition depend (w : wid) : M unit :=
  this <- this_watcher w ;;
  while_down (length (w_deps this)) (fun i =>
    this <- this_watcher w ;;
    match w_deps this !! i with
    | Some dep => dep_depend dep
    | None => stuck
    end).

(** [teardown ()] *)
Definition teardown (w : wid) : M unit :=
  this <- this_watcher w ;;
  if w_active this then
    vm <- the_vm (w_vm this) ;;
    when (negb (_isBeingDestroyed vm))
      (modify (set_vms (alter (fun x =>
         mkVM (_watcher x) (remove (_watchers x) w) (_isBeingDestroyed x)) (w_vm this)))) ;;
    this <- this_watcher w ;;
    while_down (length (w_deps this)) (fun i =>
      this <- this_watcher w ;;
      match w_deps this !! i with
      | Some dep => removeSub dep w
      | None => stuck
      end) ;;
    update_watcher w (with_active false)
  else ret tt.

(** Modelled from the spec: [dep.notify()] of dep.js, which is not in src/,
    calls [update()] on every subscriber in registration order, over a
    snapshot of the subscriber list. *)
Definition dep_notify (d : depid) : M unit :=
  l <- gets (dep_subs d) ;;
  for_each l update.

End Watcher.

(** ** Objects in the store *)

Definition with_props (p : list (pkey * pdesc)) (o : Obj) : Obj :=
  mkObj (cls o) p (elems o) (extensible o) (inherited o) (protoArrayMethods o) (_isVue o).
Definition with_elems (e : list (option value)) (o : Obj) : Obj :=
  mkObj (cls o) (props o) e (extensible o) (inherited o) (protoArrayMethods o) (_isVue o).
Definition with_protoArrayMethods (b : bool) (o : Obj) : Obj :=
  mkObj (cls o) (props o) (elems o) (extensible o) (inherited o) b (_isVue o).

Definition with_val (v : value) (c : Closure) : Closure :=
  mkClosure (c_obj c) (c_key c) v (c_childOb c) (c_getter c) (c_setter c)
    (c_customSetter c) (c_shallow c) (c_dep c).
Definition with_childOb (ob : option obid) (c : Closure) : Closure :=
  mkClosure (c_obj c) (c_key c) (c_val c) ob (c_getter c) (c_setter c)
    (c_customSetter c) (c_shallow c) (c_dep c).
Definition with_vmCount (n : nat) (o : Observer) : Observer :=
  mkObserver (ob_value o) (ob_dep o) n.

Definition the_obj (r : loc) : M Obj :=
  fun s => match heap s !! r with Some x => Ok x s | None => Stuck end.
Definition the_closure (c : cid) : M Closure :=
  fun s => match closures s !! c with Some x => Ok x s | None => Stuck end.
Definition the_observer (o : obid) : M Observer :=
  fun s => match observers s !! o with Some x => Ok x s | None => Stuck end.

Definition update_obj (r : loc) (f : Obj → Obj) : M unit :=
  modify (set_heap (alter f r)).
Definition update_closure (c : cid) (f : Closure → Closure) : M unit :=
  modify (set_closures (alter f c)).
Definition update_observer (o : obid) (f : Observer → Observer) : M unit :=
  modify (set_observers (alter f o)).

(** [new]: the next free slot of a table. *)
Definition alloc_closure (c : Closure) : M cid :=
  fun s => let i := fresh (dom (closures s)) in Ok i (set_closures <[i := c]> s).
Definition alloc_observer (o : Observer) : M obid :=
  fun s => let i := fresh (dom (observers s)) in Ok i (set_observers <[i := o]> s).

(** A length as a JavaScript number. *)
Definition number_of_nat (n : nat) : spec_float :=
  binary_normalize 53 1024 (Z.of_nat n) 0 false.

Definition ob_key : pkey := KName "__ob__".
Definition length_key : pkey := KName "length".

Definition isArray (o : Obj) : bool := bool_decide (cls o = CArray).

(** Modelled from the spec: [isPlainObject] of util is not in src/; a plain
    object is what [Object.prototype.toString] reports as an Object. *)
Definition isPlainObject (o : Obj) : bool :=
  match cls o with CObject | CVNode => true | CArray | CHost => false end.

(** [Object.getOwnPropertyDescriptor(obj, key)].  An array holds its index
    keys in [elems] and has [length]; all other keys are in [props]. *)
Definition own_property (o : Obj) (k : pkey) : option pdesc :=
  match cls o, k with
  | CArray, KIndex n =>
      match elems o !! n with
      | Some (Some v) => Some (PData v true true true)
      | _ => None
      end
  | CArray, KName s =>
      if decide (k = length_key)
      then Some (PData (VNum (number_of_nat (length (elems o)))) true false false)
      else alookup k (props o)
  | _, _ => alookup k (props o)
  end.

(** Modelled from the spec: [hasOwn] of util is not in src/; the key is an
    own key of the object. *)
Definition hasOwn (o : Obj) (k : pkey) : bool :=
  bool_decide (is_Some (own_property o k)).

(** [key in obj] *)
Definition has_property (o : Obj) (k : pkey) : bool :=
  hasOwn o k || bool_decide (k ∈ inherited o).

(** [Object.keys(obj)] of an object that is not an array: the enumerable own
    keys, integer keys first in ascending order, then the others in creation
    order.  The descriptor of a key is the one [alookup] finds. *)
Definition enumerable_own (l : list (pkey * pdesc)) (k : pkey) : bool :=
  match alookup k l with
  | Some p => pd_enumerable p
  | None => false
  end.
Definition index_keys (l : list (pkey * pdesc)) : list nat :=
  omap (fun kp => match kp.1 with
                  | KIndex n => if enumerable_own l kp.1 then Some n else None
                  | KName _ => None
                  end) l.
Definition name_keys (l : list (pkey * pdesc)) : list pkey :=
  omap (fun kp => match kp.1 with
                  | KName s => if enumerable_own l kp.1 then Some (KName s) else None
                  | KIndex _ => None
                  end) l.
Definition Object_keys (o : Obj) : list pkey :=
  (KIndex <$> merge_sort le (index_keys (props o))) ++ name_keys (props o).

(** Writing slot [n] of an array: the slots up to [n] come into being as
    holes when the array is shorter. *)
Definition write_elem (n : nat) (v : value) (l : list (option value)) : list (option value) :=
  if decide (n < length l) then <[n := Some v]> l
  else l ++ replicate (n - length l) None ++ [Some v].

(** The own property [k] becomes [d].  Array slots are ordinary data slots in
    this model; anything else on an index of an array is outside it. *)
Definition store_property (r : loc) (k : pkey) (d : pdesc) : M unit :=
  o <- the_obj r ;;
  match cls o, k, d with
  | CArray, KIndex n, PData v true true true =>
      update_obj r (fun o => with_elems (write_elem n v (elems o)) o)
  | CArray, KIndex n, _ => stuck
  | _, _, _ =>
      if decide (cls o = CArray ∧ k = length_key) then stuck
      else update_obj r (fun o => with_props (ainsert k d (props o)) o)
  end.

(** [Object.defineProperty(obj, key, d)] for a complete descriptor [d] that
    is configurable, the only kind this code passes. *)
Definition defineProperty (r : loc) (k : pkey) (d : pdesc) : M unit :=
  o <- the_obj r ;;
  match own_property o k with
  | Some p =>
      if pd_configurable p then store_property r k d
      else throw (TypeError "Cannot redefine property")
  | None =>
      if extensible o then store_property r k d
      else throw (TypeError "Cannot define property, object is not extensible")
  end.

(** Modelled from the spec: [def] of util is not in src/; it tags the object
    with a hidden (non-enumerable) property, here [enumerable] is never
    passed. *)
Definition def (r : loc) (k : pkey) (v : value) : M unit :=
  defineProperty r k (PData v true false true).

(** Modelled from the spec: the names [arrayMethods] of array.js patches: the
    mutating list operations append, remove-at, insert, truncate, sort,
    reverse and splice. *)
Definition arrayKeys : list string :=
  ["push"; "pop"; "shift"; "unshift"; "splice"; "sort"; "reverse"]%string.

Section Observer.
Context `{Host}.

(** [value.__ob__], the read.  An accessor there is a function of the
    program; a value found up the prototype chain is outside the model. *)
Definition get_ob (r : loc) : M value :=
  o <- the_obj r ;;
  match own_property o ob_key with
  | Some (PData v _ _ _) => ret v
  | Some (PAccessor (Some g) _ _ _) => call_getter g r
  | Some (PAccessor None _ _ _) => ret VUndef
  | None => if bool_decide (ob_key ∈ inherited o) then stuck else ret VUndef
  end.

(** [items[i]] of an array. *)
Definition get_elem (r : loc) (i : nat) : M value :=
  o <- the_obj r ;;
  match elems o !! i with
  | Some (Some v) => ret v
  | _ => ret VUndef
  end.

Definition is_array_value (v : value) : M bool :=
  match v with
  | VRef r => o <- the_obj r ;; ret (isArray o)
  | _ => ret false
  end.

(** [ob.dep.depend()] for whatever [__ob__] held: an Observer has a Dep;
    [undefined.depend] is a TypeError; other shapes are outside the model. *)
Definition ob_dep_depend (v : value) : M unit :=
  match v with
  | VObs ob => o <- the_observer ob ;; dep_depend (ob_dep o)
  | VRef _ => stuck
  | _ => throw (TypeError "Cannot read property 'depend' of undefined")
  end.

(** [dependArray (value)] *)
Fixpoint dependArray (fuel : nat) (r : loc) : M unit :=
  o <- the_obj r ;;
  for_each (seq 0 (length (elems o))) (fun i =>
    e <- get_elem r i ;;
    (* e && e.__ob__ && e.__ob__.dep.depend() *)
    (match e with
     | VRef r' =>
         ob <- get_ob r' ;;
         if truthy ob then ob' <- get_ob r' ;; ob_dep_depend ob' else ret tt
     | _ => ret tt
     end) ;;
    a <- is_array_value e ;;
    match e with
    | VRef r' =>
        if a then
          match fuel with
          | 0 => stuck
          | S fuel' => dependArray fuel' r'
          end
        else ret tt
    | _ => ret tt
    end).

(** [getter ? getter.call(obj) : val], the first line of both accessors.
    The accessor the property had is run by the host, whatever function it
    is. *)
Definition closure_value (cl : Closure) : M value :=
  match c_getter cl with
  | Some getter => call_getter getter (c_obj cl)
  | None => ret (c_val cl)
  end.

(** [reactiveGetter ()] of the closure [c] *)
Definition reactiveGetter (fuel : nat) (c : cid) : M value :=
  cl <- the_closure c ;;
  value <- closure_value cl ;;
  t <- gets Dep_target ;;
  (if t is Some _ then
     dep_depend (c_dep cl) ;;
     cl' <- the_closure c ;;
     match c_childOb cl' with
     | Some childOb =>
         o <- the_observer childOb ;;
         dep_depend (ob_dep o) ;;
         a <- is_array_value value ;;
         match value with
         | VRef r => when a (dependArray fuel r)
         | _ => ret tt
         end
     | None => ret tt
     end
   else ret tt) ;;
  ret value.

(** [obj[key]], the read. *)
Definition js_get (fuel : nat) (r : loc) (k : pkey) : M value :=
  o <- the_obj r ;;
  match own_property o k with
  | Some (PData v _ _ _) => ret v
  | Some (PAccessor (Some (FReactiveGetter c)) _ _ _) => reactiveGetter fuel c
  | Some (PAccessor (Some g) _ _ _) => call_getter g r
  | Some (PAccessor None _ _ _) => ret VUndef
  | None => if bool_decide (k ∈ inherited o) then stuck else ret VUndef
  end.

End Observer.

(** How [defineReactive] was called: with two arguments, or with [val] and
    what follows it ([arguments.length] is what the code looks at). *)
Inductive define_args :=
| TwoArgs
| WithVal (val : value) (customSetter : option fn) (shallow : bool).

Definition arg_val (a : define_args) : value :=
  match a with TwoArgs => VUndef | WithVal v _ _ => v end.
Definition arg_customSetter (a : define_args) : option fn :=
  match a with TwoArgs => None | WithVal _ cs _ => cs end.
Definition arg_shallow (a : define_args) : bool :=
  match a with TwoArgs => false | WithVal _ _ sh => sh end.
Definition arguments_length_is_2 (a : define_args) : bool :=
  match a with TwoArgs => true | WithVal _ _ _ => false end.

Section ObserveBody.
Context `{Host}.
Variable fuel : nat.
(** The recursive calls of [observe], one level of nesting further in. *)
Variable observe_rec : value → bool → M (option obid).

(** [defineReactive (obj, key, val, customSetter, shallow)]: everything but
    the bodies of the two accessors, which are [reactiveGetter] and
    [reactiveSetter] on the closure allocated here. *)
Definition defineReactive_with (r : loc) (key : pkey) (args : define_args) : M unit :=
  dep <- new_Dep ;;
  o <- the_obj r ;;
  let property := own_property o key in
  if bool_decide (pd_configurable <$> property = Some false) then ret tt
  else
    (* cater for pre-defined getter/setters *)
    let getter := property ≫= pd_get in
    let setter := property ≫= pd_set in
    val <- (if (negb (bool_decide (is_Some getter)) || bool_decide (is_Some setter))
               && arguments_length_is_2 args
            then js_get fuel r key
            else ret (arg_val args)) ;;
    childOb <- (if arg_shallow args then ret None else observe_rec val false) ;;
    c <- alloc_closure (mkClosure r key val childOb getter setter
                          (arg_customSetter args) (arg_shallow args) dep) ;;
    defineProperty r key
      (PAccessor (Some (FReactiveGetter c)) (Some (FReactiveSetter c)) true true).

(** [walk (obj)] *)
Definition walk_with (r : loc) : M unit :=
  o <- the_obj r ;;
  let keys := Object_keys o in
  for_each keys (fun k => defineReactive_with r k TwoArgs).

(** [observeArray (items)] *)
Definition observeArray_with (r : loc) : M unit :=
  o <- the_obj r ;;
  let l := length (elems o) in
  for_each (seq 0 l) (fun i =>
    v <- get_elem r i ;;
    observe_rec v false ;;
    ret tt).

(** [protoAugment (target, src)] with [src] the patched methods. *)
Definition protoAugment (r : loc) : M unit :=
  update_obj r (with_protoArrayMethods true).

(** [copyAugment (target, src, keys)] *)
Definition copyAugment (r : loc) (keys : list string) : M unit :=
  for_each keys (fun key => def r (KName key) (VFun (FArrayMethod key))).

(** [new Observer(value)] *)
Definition new_Observer_with (r : loc) : M obid :=
  dep <- new_Dep ;;
  this <- alloc_observer (mkObserver r dep 0) ;;
  def r ob_key (VObs this) ;;
  o <- the_obj r ;;
  (if isArray o then
     (if hasProto then protoAugment r else copyAugment r arrayKeys) ;;
     observeArray_with r
   else walk_with r) ;;
  ret this.

Definition instanceof_VNode (v : value) : M bool :=
  match v with
  | VRef r => o <- the_obj r ;; ret (bool_decide (cls o = CVNode))
  | _ => ret false
  end.

(** [observe (value, asRootData)] *)
Definition observe_with (value : value) (asRootData : bool) : M (option obid) :=
  vnode <- instanceof_VNode value ;;
  if negb (isObject value) || vnode then ret None
  else
    match value with
    | VRef r =>
        o <- the_obj r ;;
        (* hasOwn(value, '__ob__') && value.__ob__ instanceof Observer *)
        existing <- (if hasOwn o ob_key
                     then v <- get_ob r ;;
                          ret (match v with VObs ob => Some ob | _ => None end)
                     else ret None) ;;
        ob <- (match existing with
               | Some ob => ret (Some ob)
               | None =>
                   so <- gets shouldObserve ;;
                   o <- the_obj r ;;
                   if so && negb isServerRendering
                      && (isArray o || isPlainObject o)
                      && extensible o && negb (_isVue o)
                   then ob <- new_Observer_with r ;; ret (Some ob)
                   else ret None
               end) ;;
        match ob with
        | Some i =>
            when asRootData (update_observer i (fun x => with_vmCount (S (vmCount x)) x))
        | None => ret tt
        end ;;
        ret ob
    | _ =>
        (* an Observer instance handed in as data *)
        stuck
    end.

End ObserveBody.

Section ObserverIndex.
Context `{Host}.

(** [fuel] bounds how deep Observer constructions nest. *)
Fixpoint observe (fuel : nat) : value → bool → M (option obid) :=
  observe_with fuel
    (match fuel with
     | 0 => fun _ _ => stuck
     | S fuel' => observe fuel'
     end).

Definition defineReactive (fuel : nat) : loc → pkey → define_args → M unit :=
  defineReactive_with fuel (observe fuel).

(** [newVal === value || (newVal !== newVal && value !== value)] *)
Definition unchanged (newVal value : value) : bool :=
  strict_eq newVal value || (self_differs newVal && self_differs value).

(** [reactiveSetter (newVal)] of the closure [c] *)
Definition reactiveSetter (fuel : nat) (c : cid) (newVal : value) : M unit :=
  cl <- the_closure c ;;
  value <- closure_value cl ;;
  if unchanged newVal value then ret tt
  else
    (match c_customSetter cl with
     | Some customSetter => when (negb production) (call_customSetter customSetter)
     | None => ret tt
     end) ;;
    (* #7981: for accessor properties without setter *)
    if bool_decide (is_Some (c_getter cl)) && negb (bool_decide (is_Some (c_setter cl)))
    then ret tt
    else
      (match c_setter cl with
       | Some setter => call_setter setter (c_obj cl) newVal
       | None => update_closure c (with_val newVal)
       end) ;;
      childOb <- (if c_shallow cl then ret None else observe fuel newVal false) ;;
      update_closure c (with_childOb childOb) ;;
      dep_notify (c_dep cl).

(** [obj[key] = val], in strict mode.  A key found only up the prototype
    chain is taken to be an ordinary method there, which the write shadows;
    [__proto__] and the [length] of an array are outside the model. *)
Definition js_set (fuel : nat) (r : loc) (k : pkey) (v : value) : M unit :=
  o <- the_obj r ;;
  if bool_decide (k = KName "__proto__") || (isArray o && bool_decide (k = length_key))
  then stuck
  else
    match own_property o k with
    | Some (PData _ w e c) =>
        if w then store_property r k (PData v w e c)
        else throw (TypeError "Cannot assign to read only property")
    | Some (PAccessor _ (Some (FReactiveSetter c)) _ _) => reactiveSetter fuel c v
    | Some (PAccessor _ (Some st) _ _) => call_setter st r v
    | Some (PAccessor _ None _ _) =>
        throw (TypeError "Cannot set property which has only a getter")
    | None =>
        if extensible o then store_property r k (PData v true true true)
        else throw (TypeError "Cannot add property, object is not extensible")
    end.

(** Which [splice] an array finds: the patched one, the native one, or a
    function of the program. *)
Inductive splice_kind := SplicePatched | SpliceNative | SpliceOther.

Definition find_splice (o : Obj) : splice_kind :=
  match alookup (KName "splice") (props o) with
  | Some (PData (VFun (FArrayMethod m)) _ _ _) =>
      if decide (m = "splice"%string) then SplicePatched else SpliceOther
  | Some _ => SpliceOther
  | None => if protoArrayMethods o then SplicePatched else SpliceNative
  end.

(** The list operation [splice(key, 1, val)] for [key] within the length or
    at its end. *)
Definition native_splice (r : loc) (key : nat) (val : value) : M unit :=
  o <- the_obj r ;;
  if decide (key < length (elems o))
  then update_obj r (fun o => with_elems (<[key := Some val]> (elems o)) o)
  else if extensible o
  then update_obj r (fun o => with_elems (elems o ++ [Some val]) o)
  else throw (TypeError "Cannot add property, object is not extensible").

(** Modelled from the spec: the patched [splice] of array.js, which is not
    in src/, does what the list operation does, wraps the newly inserted
    elements and triggers the container Subject's [notify()].  This is
    [target.length = Math.max(target.length, key); target.splice(key, 1, val)]
    of [set]. *)
Definition array_set (fuel : nat) (r : loc) (key : nat) (val : value) : M unit :=
  update_obj r (fun o =>
    with_elems (elems o ++ replicate (key - length (elems o)) None) o) ;;
  o <- the_obj r ;;
  match find_splice o with
  | SpliceNative => native_splice r key val
  | SplicePatched =>
      native_splice r key val ;;
      ob <- get_ob r ;;
      match ob with
      | VObs i =>
          (* ob.observeArray(inserted) *)
          observe fuel val false ;;
          this <- the_observer i ;;
          dep_notify (ob_dep this)
      | VRef _ => stuck
      | _ => throw (TypeError "Cannot read property 'observeArray' of undefined")
      end
  | SpliceOther => stuck
  end.

(** The two warnings of [set]; the first without the target it ends with. *)
Definition set_warning_primitive : string :=
  "Cannot set reactive property on undefined, null, or primitive value".
Definition set_warning_root : string :=
  "Avoid adding reactive properties to a Vue instance or its root $data at runtime - declare it upfront in the data option.".

(** [set (target, key, val)] *)
Definition set (fuel : nat) (target : value) (key : pkey) (val : value) : M value :=
  when (negb production && (isUndef target || isPrimitive target))
    (warn set_warning_primitive) ;;
  match target with
  | VRef r =>
      o <- the_obj r ;;
      match isArray o, isValidArrayIndex key with
      | true, Some n => array_set fuel r n val ;; ret val
      | _, _ =>
          if has_property o key && negb (in_Object_prototype key) then
            js_set fuel r key val ;; ret val
          else
            ob <- get_ob r ;;
            o <- the_obj r ;;
            (* target._isVue || (ob && ob.vmCount) *)
            refused <- (if _isVue o then ret true
                        else match ob with
                             | VObs i => this <- the_observer i ;;
                                         ret (negb (bool_decide (vmCount this = 0)))
                             | VRef _ => stuck
                             | _ => ret false
                             end) ;;
            if refused : bool then
              when (negb production) (warn set_warning_root) ;;
              ret val
            else
              match ob with
              | VObs i =>
                  this <- the_observer i ;;
                  defineReactive fuel (ob_value this) key (WithVal val None false) ;;
                  this <- the_observer i ;;
                  dep_notify (ob_dep this) ;;
                  ret val
              | VRef _ => stuck
              | _ =>
                  if truthy ob then
                    (* defineReactive(undefined, key, val) *)
                    new_Dep ;;
                    throw (TypeError "Cannot convert undefined or null to object")
                  else js_set fuel r key val ;; ret val
              end
      end
  | VUndef | VNull | VBool _ | VNum _ | VStr _ =>
      (* key in target *)
      throw (TypeError "Cannot use 'in' operator")
  | VFun _ | VObs _ => stuck
  end.

End ObserverIndex.

(** * The rest of the two files, and their caller in util/options.js *)

(** ** observer/index.js: toggleObserving and del *)

(** [toggleObserving (value)] *)
Definition toggleObserving (value : bool) : M unit :=
  modify (set_shouldObserve value).

(** [delete obj[key]], in strict mode: a property that is not there is let
    be, a configurable one is removed (the slot of an array becomes a hole),
    any other is a TypeError. *)
Definition js_delete (r : loc) (k : pkey) : M unit :=
  o <- the_obj r ;;
  match own_property o k with
  | None => ret tt
  | Some p =>
      if pd_configurable p then
        match cls o, k with
        | CArray, KIndex n =>
            update_obj r (fun o => with_elems (<[n := None]> (elems o)) o)
        | _, _ =>
            update_obj r (fun o => with_props (filter (fun kp => kp.1 ≠ k) (props o)) o)
        end
      else throw (TypeError "Cannot delete property")
  end.

(** The list operation [splice(key, 1)]: the element at [key] goes and the
    ones after it move down; nothing happens past the end. *)
Definition native_splice_remove (r : loc) (key : nat) : M unit :=
  update_obj r (fun o => with_elems (delete key (elems o)) o).

(** Modelled from the spec: the patched [splice] of array.js, which is not
    in src/, does what the list operation does and triggers the container
    Subject's [notify()]; nothing is inserted, so nothing is wrapped.  This is
    [target.splice(key, 1)] of [del]. *)
Definition array_del `{Host} (r : loc) (key : nat) : M unit :=
  o <- the_obj r ;;
  match find_splice o with
  | SpliceNative => native_splice_remove r key
  | SplicePatched =>
      native_splice_remove r key ;;
      ob <- get_ob r ;;
      match ob with
      | VObs i =>
          this <- the_observer i ;;
          dep_notify (ob_dep this)
      | VRef _ => stuck
      | _ => throw (TypeError "Cannot read property 'observeArray' of undefined")
      end
  | SpliceOther => stuck
  end.

(** The two warnings of [del]; the first without the target it ends with. *)
Definition del_warning_primitive : string :=
  "Cannot delete reactive property on undefined, null, or primitive value".
Definition del_warning_root : string :=
  "Avoid deleting properties on a Vue instance or its root $data - just set it to null.".

Section Del.
Context `{Host}.

(** [del (target, key)].  A number or a boolean has no own key, so the call
    returns after the warning; the own keys of a string are outside the
    model. *)
Definition del (target : value) (key : pkey) : M unit :=
  when (negb production && (isUndef target || isPrimitive target))
    (warn del_warning_primitive) ;;
  match target with
  | VRef r =>
      o <- the_obj r ;;
      match isArray o, isValidArrayIndex key with
      | true, Some n => array_del r n
      | _, _ =>
          ob <- get_ob r ;;
          o <- the_obj r ;;
          (* target._isVue || (ob && ob.vmCount) *)
          refused <- (if _isVue o then ret true
                      else match ob with
                           | VObs i => this <- the_observer i ;;
                                       ret (negb (bool_decide (vmCount this = 0)))
                           | VRef _ => stuck
                           | _ => ret false
                           end) ;;
          if refused : bool then
            when (negb production) (warn del_warning_root)
          else
            o <- the_obj r ;;
            if negb (hasOwn o key) then ret tt
            else
              js_delete r key ;;
              if negb (truthy ob) then ret tt
              else
                (* ob.dep.notify() *)
                match ob with
                | VObs i =>
                    this <- the_observer i ;;
                    dep_notify (ob_dep this)
                | VRef _ => stuck
                | _ => throw (TypeError "Cannot read property 'notify' of undefined")
                end
      end
  | VUndef | VNull =>
      (* target.__ob__ *)
      throw (TypeError "Cannot read property '__ob__' of undefined")
  | VBool _ | VNum _ => ret tt
  | VStr _ | VFun _ | VObs _ => stuck
  end.

End Del.

(** ** watcher.js: the constructor *)

(** [expOrFn]: a function of the program or a path. *)
Inductive expOrFn :=
| ExpFn (f : fn)
| ExpPath (path : string).

(** The [options] the constructor reads. *)
Record watcher_options := mkOptions {
  opt_deep : value;
  opt_user : value;
  opt_lazy : value;
  opt_sync : value
}.

(** The warning for a path [parsePath] rejects. *)
Definition path_warning (path : string) : string :=
  ("Failed watching path: " ++ dquote ++ path ++ dquote ++
   " Watcher only accepts simple dot-delimited paths. For full control, use a function instead.")%string.

Section WatcherConstructor.
Context `{Host}.
(** [expOrFn.toString()] of a function, and whether [parsePath(expOrFn)]
    returns a function; util is not in src/. *)
Variable toString : fn → string.
Variable parsePath : string → bool.

(** [!!options.deep] and its siblings; all four are false without options. *)
Definition option_flag (options : option watcher_options)
    (field : watcher_options → value) : bool :=
  match options with
  | Some o => truthy (field o)
  | None => false
  end.

(** [new Watcher (vm, expOrFn, cb, options, isRenderWatcher)].  A Watcher is
    named by its id, [++uid], which is taken first here; the callback, the
    getter and [before] are the host's, by that id (for a path that does not
    parse the getter is [noop]). *)
Definition new_Watcher (vm : vmid) (e : expOrFn) (options : option watcher_options)
    (isRenderWatcher : bool) : M wid :=
  this <- gets (fun s => S (watcher_uid s)) ;;
  the_vm vm ;;
  (* vm._watcher = this, for a render watcher; vm._watchers.push(this) *)
  modify (set_vms (alter (fun x =>
    mkVM (if isRenderWatcher then Some this else _watcher x)
         (_watchers x ++ [this]) (_isBeingDestroyed x)) vm)) ;;
  let deep := option_flag options opt_deep in
  let user := option_flag options opt_user in
  let lazy := option_flag options opt_lazy in
  let sync := option_flag options opt_sync in
  (* this.id = ++uid *)
  modify (set_watcher_uid S) ;;
  let expression :=
    if production then EmptyString
    else match e with ExpFn f => toString f | ExpPath path => path end in
  modify (set_watchers
    <[this := mkWatcher vm expression deep user lazy sync lazy true [] [] ∅ ∅ VUndef]>) ;;
  (* parse expression for getter *)
  (match e with
   | ExpFn _ => ret tt
   | ExpPath path =>
       when (negb (parsePath path)) (when (negb production) (warn (path_warning path)))
   end) ;;
  (if lazy then ret tt
   else value <- get this ;; update_watcher this (with_value value)) ;;
  ret this.

End WatcherConstructor.

(** ** util/options.js: mergeHook, dedupeHooks and mergeData *)

(** [new]: the next free slot of the heap. *)
Definition alloc_obj (o : Obj) : M loc :=
  fun s => let r := fresh (dom (heap s)) in Ok r (set_heap <[r := o]> s).

(** An array literal. *)
Definition array_of (l : list (option value)) : Obj :=
  mkObj CArray [] l true [] false false.

(** [res.indexOf(x) === -1]: no element of [res] is [===] to [x]; holes are
    passed over. *)
Definition indexOf_is_minus_1 (x : value) (res : list (option value)) : bool :=
  forallb (fun e => match e with
                    | Some y => negb (strict_eq y x)
                    | None => true
                    end) res.

(** [dedupeHooks (hooks)], for an array [hooks]. *)
Definition dedupeHooks (hooks : loc) : M loc :=
  res <- alloc_obj (array_of []) ;;
  o <- the_obj hooks ;;
  (if isArray o then
     for_each (seq 0 (length (elems o))) (fun i =>
       x <- get_elem hooks i ;;
       ro <- the_obj res ;;
       when (indexOf_is_minus_1 x (elems ro))
         (update_obj res (fun ro => with_elems (elems ro ++ [Some x]) ro)))
   else stuck) ;;
  ret res.

(** [parentVal.concat(childVal)] for an array [parentVal]: a new array; an
    array argument is spread, any other value is appended. *)
Definition array_concat (parentVal : loc) (childVal : value) : M loc :=
  p <- the_obj parentVal ;;
  tl <- (match childVal with
         | VRef c =>
             co <- the_obj c ;;
             ret (if isArray co then elems co else [Some childVal])
         | _ => ret [Some childVal]
         end) ;;
  alloc_obj (array_of (elems p ++ tl)).

(** [mergeHook (parentVal, childVal)].  [parentVal] is an array or absent, as
    the signature has it; a string there is outside the model. *)
Definition mergeHook (parentVal childVal : value) : M value :=
  res <- (if truthy childVal then
            if truthy parentVal then
              match parentVal with
              | VRef p =>
                  po <- the_obj p ;;
                  if isArray po then r <- array_concat p childVal ;; ret (VRef r)
                  else throw (TypeError "parentVal.concat is not a function")
              | VStr _ | VObs _ => stuck
              | _ => throw (TypeError "parentVal.concat is not a function")
              end
            else
              a <- is_array_value childVal ;;
              if a : bool then ret childVal
              else r <- alloc_obj (array_of [Some childVal]) ;; ret (VRef r)
          else ret parentVal) ;;
  if truthy res then
    match res with
    | VRef r => r' <- dedupeHooks r ;; ret (VRef r')
    | _ => stuck
    end
  else ret res.

(** [Reflect.ownKeys(obj)] of an object that is not an array: every own key,
    integer keys first in ascending order, then the others in creation
    order.  Symbol keys are not modelled. *)
Definition all_index_keys (l : list (pkey * pdesc)) : list nat :=
  omap (fun kp => match kp.1 with KIndex n => Some n | KName _ => None end) l.
Definition all_name_keys (l : list (pkey * pdesc)) : list pkey :=
  omap (fun kp => match kp.1 with KName s => Some (KName s) | KIndex _ => None end) l.
Definition Reflect_ownKeys (o : Obj) : list pkey :=
  (KIndex <$> merge_sort le (all_index_keys (props o))) ++ all_name_keys (props o).

Definition isPlainObject_value (v : value) : M bool :=
  match v with
  | VRef r => o <- the_obj r ;; ret (isPlainObject o)
  | _ => ret false
  end.

Section MergeData.
Context `{Host}.
(** [hasSymbol] of util/env, which is not in src/. *)
Variable hasSymbol : bool.

(** [mergeData (to, from)], for an object [to].  [fuel] bounds how deep the
    data nests; the keys of an array [from] are outside the model. *)
Fixpoint mergeData (fuel : nat) (to : loc) (from : value) : M value :=
  if negb (truthy from) then ret (VRef to)
  else
    match from with
    | VRef f =>
        fo <- the_obj f ;;
        keys <- (if isArray fo then stuck
                 else ret (if hasSymbol then Reflect_ownKeys fo else Object_keys fo)) ;;
        for_each keys (fun key =>
          (* in case the object is already observed... *)
          if bool_decide (key = ob_key) then ret tt
          else
            toVal <- js_get fuel to key ;;
            fromVal <- js_get fuel f key ;;
            t <- the_obj to ;;
            if negb (hasOwn t key) then
              set fuel (VRef to) key fromVal ;; ret tt
            else
              pt <- isPlainObject_value toVal ;;
              pf <- isPlainObject_value fromVal ;;
              if negb (strict_eq toVal fromVal) && pt && pf then
                match toVal, fuel with
                | VRef to', S fuel' => mergeData fuel' to' fromVal ;; ret tt
                | _, _ => stuck
                end
              else ret tt) ;;
        ret (VRef to)
    | _ => stuck
    end.

End MergeData.

(** * The vocabulary of the statements *)

Section Vocabulary.
Context `{Host}.

(** The watcher [w] and the subscriber lists, replaced together. *)
Definition put_watcher_subs (w : wid) (st : Watcher * gmap nat (list nat)) (s : State) : State :=
  set_subs (fun _ => st.2) (set_watchers <[w := st.1]> s).

(** One [addDep(dep)], on the Watcher and the subscriber lists alone. *)
Definition addDep_step (w d : nat) (st : Watcher * gmap nat (list nat))
    : Watcher * gmap nat (list nat) :=
  if bool_decide (d ∈ w_newDepIds st.1) then st
  else (with_newDeps (w_newDeps st.1 ++ [d])
          (with_newDepIds ({[d]} ∪ w_newDepIds st.1) st.1),
        if bool_decide (d ∈ w_depIds st.1) then st.2
        else <[d := add_sub w (default [] (st.2 !! d))]> st.2).

(** [addDep] for each Dep of [ds] in turn. *)
Definition collect (w : wid) (ds : list depid) (st : Watcher * gmap nat (list nat))
    : Watcher * gmap nat (list nat) :=
  foldl (fun st d => addDep_step w d st) st ds.

(** One turn of the loop of [cleanupDeps]: the Dep [d] loses the subscriber
    [w] unless its id is in [ids]. *)
Definition prune_step (w : wid) (ids : gset nat) (m : gmap nat (list nat)) (d : depid)
    : gmap nat (list nat) :=
  if bool_decide (d ∈ ids) then m
  else <[d := remove_sub w (default [] (m !! d))]> m.

(** The loop of [cleanupDeps] over [l], from its last Dep to its first. *)
Definition prune (w : wid) (ids : gset nat) (l : list depid) (m : gmap nat (list nat))
    : gmap nat (list nat) :=
  foldl (prune_step w ids) m (reverse l).

(** A Watcher as one run leaves it and the next finds it. *)
Definition between_runs (x : Watcher) : Prop :=
  w_newDeps x = [] ∧ w_newDepIds x = ∅.

(** The Watcher after [cleanupDeps]: the run's sets become the confirmed
    ones, and the run's sets are empty again. *)
Definition swap_deps (x : Watcher) : Watcher :=
  with_newDeps [] (with_deps (w_newDeps x)
    (with_newDepIds ∅ (with_depIds (w_newDepIds x) x))).

(** [get] up to its finally block: the state and the local [value] the
    finally block starts from. *)
Definition get_until_finally (w : wid) : M value :=
  pushTarget w ;;
  this <- this_watcher w ;;
  try_catch_finally VUndef (call_evaluator w) (get_catch w (w_vm this)) (fun _ => ret tt).

(** The Deps whose [depend()] runs, and so reach [addDep], while [get] runs on
    [w] from [s]: those the evaluator reads and, for a deep watcher, those
    [traverse] touches in the finally block. *)
Definition reads_of_run (w : wid) (s : State) : list depid :=
  (evaluator w (set_targetStack (cons w) s)).1 ++
  match watchers s !! w with
  | Some x =>
      if w_deep x then
        match get_until_finally w s with
        | Ok v s' => traverse_reads v s'
        | Throw _ s' => traverse_reads VUndef s'
        | Stuck => []
        end
      else []
  | None => []
  end.

(** The state the finally block of [get] starts from. *)
Definition state_at_finally (w : wid) (x : Watcher) (s : State) : State :=
  let s0 := set_targetStack (cons w) s in
  let ev := evaluator w s0 in
  let s1 := put_watcher_subs w (collect w ev.1 (x, subs s)) s0 in
  match ev.2 with
  | inl _ => s1
  | inr e =>
      if w_user x
      then set_log (fun l => l ++ [HandleError e (w_vm x) (getter_label (w_expression x))]) s1
      else s1
  end.

(** The local [value] the finally block of [get] starts from. *)
Definition value_at_finally (w : wid) (s : State) : value :=
  match (evaluator w (set_targetStack (cons w) s)).2 with
  | inl v => v
  | inr _ => VUndef
  end.

(** The Watcher and the subscriber lists [get] ends with. *)
Definition reconciled (w : wid) (x : Watcher) (s : State)
    : Watcher * gmap nat (list nat) :=
  let st := collect w (reads_of_run w s) (x, subs s) in
  (swap_deps st.1, prune w (w_newDepIds st.1) (w_deps x) st.2).

(** The part of [run] that fires the callback, once the new value is stored. *)
Definition fire (w : wid) (x : Watcher) (value oldValue : value) : M unit :=
  if w_user x then
    try_catch (cb w value oldValue)
      (fun e =>
         this <- this_watcher w ;;
         handleError e (w_vm this) (callback_label (w_expression this)))
  else cb w value oldValue.

(** The state [teardown] of an active watcher ends in. *)
Definition torn_down (w : wid) (x : Watcher) (s : State) : State :=
  let s1 :=
    match vms s !! w_vm x with
    | Some vm =>
        if _isBeingDestroyed vm then s
        else set_vms <[w_vm x := mkVM (_watcher vm) (remove (_watchers vm) w)
                                   (_isBeingDestroyed vm)]> s
    | None => s
    end in
  set_watchers <[w := with_active false x]>
    (set_subs (fun m => prune w ∅ (w_deps x) m) s1).

(** An object that carries the Observer [ob]: its own [__ob__] is a data
    property holding that Observer. *)
Definition carries (s : State) (r : loc) (ob : obid) : Prop :=
  ∃ o wr en cf, heap s !! r = Some o ∧ cls o ≠ CVNode ∧
    own_property o ob_key = Some (PData (VObs ob) wr en cf).

(** [ob.vmCount++] *)
Definition count_root (asRootData : bool) (ob : obid) (s : State) : State :=
  if asRootData
  then set_observers (alter (fun x => with_vmCount (S (vmCount x)) x) ob) s
  else s.

(** What the setter does with a value that differs, unless the property had
    a getter and no setter: the customSetter in development builds, the
    store, the wrapping of the new value unless shallow, and one
    [dep.notify()]. *)
Definition write_through (fuel : nat) (c : cid) (cl : Closure) (newVal : value) : M unit :=
  (match c_customSetter cl with
   | Some customSetter => when (negb production) (call_customSetter customSetter)
   | None => ret tt
   end) ;;
  (match c_setter cl with
   | Some setter => call_setter setter (c_obj cl) newVal
   | None => update_closure c (with_val newVal)
   end) ;;
  childOb <- (if c_shallow cl then ret None else observe fuel newVal false) ;;
  update_closure c (with_childOb childOb) ;;
  dep_notify (c_dep cl).

(** [getter && !setter] *)
Definition getter_only (cl : Closure) : bool :=
  bool_decide (is_Some (c_getter cl)) && negb (bool_decide (is_Some (c_setter cl))).

(** The store after [new Dep()] and nothing else. *)
Definition with_new_Dep (s : State) : State :=
  set_subs <[dep_uid s := []]> (set_dep_uid S s).

(** The target of [set] is a Vue instance, or its Observer has a root
    count that is not zero. *)
Definition is_root (s : State) (o : Obj) (ob : value) : Prop :=
  _isVue o = true ∨
  ∃ i this, ob = VObs i ∧ observers s !! i = Some this ∧ vmCount this ≠ 0.

(** The value is on the target, as a data property, after the call. *)
Definition stored_on (s : State) (r : loc) (key : pkey) (val : value) : Prop :=
  ∃ o wr en cf, heap s !! r = Some o ∧ own_property o key = Some (PData val wr en cf).

(** A run that returns leaves the heap as it was. *)
Definition heap_same {A} (m : M A) : Prop :=
  ∀ s a s', m s = Ok a s' → heap s' = heap s.

(** Every Observer an object carries in [s] it carries in [s']. *)
Definition carries_le (s s' : State) : Prop :=
  ∀ r ob, carries s r ob → carries s' r ob.

(** A run that returns keeps the Observers the objects carried. *)
Definition keeps_marks {A} (m : M A) : Prop :=
  ∀ s0 s a s', m s = Ok a s' → carries_le s0 s → carries_le s0 s'.

(** [__ob__] is read without running a getter of the program. *)
Definition plain_ob_slot (o : Obj) : Prop :=
  ∀ g st e c, own_property o ob_key ≠ Some (PAccessor (Some g) st e c).

End Vocabulary.

(** * The vocabulary of the further statements *)

Section MoreVocabulary.
Context `{Host}.

(** The Watcher the constructor has built when it comes to evaluate it. *)
Definition fresh_watcher (toString : fn → string) (vm : vmid) (e : expOrFn)
    (options : option watcher_options) : Watcher :=
  mkWatcher vm
    (if production then EmptyString
     else match e with ExpFn f => toString f | ExpPath path => path end)
    (option_flag options opt_deep) (option_flag options opt_user)
    (option_flag options opt_lazy) (option_flag options opt_sync)
    (option_flag options opt_lazy) true [] [] ∅ ∅ VUndef.

(** The store at that point: the Watcher is in [vm._watchers] (and is
    [vm._watcher] for a render watcher), has taken the next id, and a path
    that does not parse has been warned about. *)
Definition registered (toString : fn → string) (parsePath : string → bool)
    (vm : vmid) (e : expOrFn) (options : option watcher_options)
    (isRenderWatcher : bool) (s : State) : State :=
  let this := S (watcher_uid s) in
  let s1 :=
    set_watchers <[this := fresh_watcher toString vm e options]>
      (set_watcher_uid S
         (set_vms (alter (fun x =>
            mkVM (if isRenderWatcher then Some this else _watcher x)
                 (_watchers x ++ [this]) (_isBeingDestroyed x)) vm) s)) in
  match e with
  | ExpFn _ => s1
  | ExpPath path =>
      if negb (parsePath path) && negb production
      then set_log (fun l => l ++ [Warn (path_warning path)]) s1
      else s1
  end.

End MoreVocabulary.

(** ** Hooks as lists *)

(** What [hooks[i]] gives for each index of an array: a hole reads as
    [undefined]. *)
Definition array_values (o : Obj) : list value :=
  default VUndef <$> elems o.

(** One turn of the loop of [dedupeHooks]. *)
Definition dedupe_step (res : list (option value)) (x : value) : list (option value) :=
  if indexOf_is_minus_1 x res then res ++ [Some x] else res.

(** The loop of [dedupeHooks] over [l], from [res]. *)
Definition dedupe_from (res : list (option value)) (l : list value) : list (option value) :=
  foldl dedupe_step res l.

(** The hooks an argument of [mergeHook] stands for: the elements of an
    array, the value itself when it is anything else that is truthy. *)
Definition hooks_of (s : State) (v : value) : list value :=
  match v with
  | VRef r =>
      match heap s !! r with
      | Some o => if isArray o then array_values o else [v]
      | None => []
      end
  | _ => if truthy v then [v] else []
  end.

(** A run that leaves every object of the heap as it was, and everything
    but the heap. *)
Definition extends_heap (s s' : State) : Prop :=
  (∀ r o, heap s !! r = Some o → heap s' !! r = Some o) ∧
  s' = set_heap (fun _ => heap s') s.

(** ** Plain data *)

(** A heap of plain data, as the object literals of a [data] option are: no
    object is a Vue instance or has keys up its prototype chain, and every
    own property is an ordinary data property (writable, enumerable,
    configurable) other than [__ob__]. *)
Definition plain_data (s : State) : Prop :=
  ∀ r o, heap s !! r = Some o →
    _isVue o = false ∧ inherited o = [] ∧
    ∀ k d, (k, d) ∈ props o → k ≠ ob_key ∧ ∃ v, d = PData v true true true.

(** Every object of [s] is still there in [s'], with its class, its elements
    and each of its own properties as they were. *)
Definition keeps_props (s s' : State) : Prop :=
  ∀ r o, heap s !! r = Some o →
    ∃ o', heap s' !! r = Some o' ∧ cls o' = cls o ∧ elems o' = elems o ∧
      ∀ k d, own_property o k = Some d → own_property o' k = Some d.

(** Nothing but the heap differs. *)
Definition same_but_heap (s s' : State) : Prop :=
  s' = set_heap (fun _ => heap s') s.

(** What [obj[key]] reads on plain data: the value of the own property, or
    [undefined]. *)
Definition read_of (o : Obj) (k : pkey) : value :=
  match own_property o k with
  | Some (PData v _ _ _) => v
  | _ => VUndef
  end.

(** What [mergeData] keeps true, however it ends. *)
Definition merge_inv (s0 s : State) : Prop :=
  plain_data s ∧ keeps_props s0 s ∧ same_but_heap s0 s.

(** One turn of the loop of [mergeData] on flat data, on the properties of
    [to]: a key [to] does not have yet is appended with the value [from]
    has for it. *)
Definition fill_step (fo : Obj) (acc : list (pkey * pdesc)) (key : pkey)
    : list (pkey * pdesc) :=
  if bool_decide (key = ob_key) then acc
  else match alookup key acc with
       | Some _ => acc
       | None => acc ++ [(key, PData (read_of fo key) true true true)]
       end.

(** The properties of [to] after the loop over [keys]. *)
Definition filled (t fo : Obj) (keys : list pkey) : list (pkey * pdesc) :=
  foldl (fill_step fo) (props t) keys.

(** ** What a run leaves alone *)

(** A run that returns leaves the heap and the closures as they were. *)
Definition quiet {A} (m : M A) : Prop :=
  ∀ s a s', m s = Ok a s' → heap s' = heap s ∧ closures s' = closures s.

(** Since [s0]: every object that carried an Observer then is the same
    object still, and every closure there was then is unchanged. *)
Definition stays (s0 s : State) : Prop :=
  (∀ r ob, carries s0 r ob → heap s !! r = heap s0 !! r) ∧
  (∀ c cl, closures s0 !! c = Some cl → closures s !! c = Some cl).

(** A run that returns keeps [stays s0]. *)
Definition keeps_from {A} (s0 : State) (m : M A) : Prop :=
  ∀ s a s', m s = Ok a s' → stays s0 s → stays s0 s'.

(** A run that returns leaves alone what was wrapped when it started. *)
Definition wraps_apart {A} (m : M A) : Prop :=
  ∀ s a s', m s = Ok a s' → stays s s'.

(** The accessor [defineReactive] installs for the closure [c]. *)
Definition reactive_accessor (c : cid) : pdesc :=
  PAccessor (Some (FReactiveGetter c)) (Some (FReactiveSetter c)) true true.

(** Where [walk] stands on the object at [r] once it has been through the
    keys [pre]: the properties that are not configurable are as they were in
    [o_d], and the configurable data properties are reactive accessors whose
    closure holds the value they had. *)
Definition walked (r : loc) (o_d : Obj) (pre : list pkey) (s : State) (o' : Obj) : Prop :=
  (∀ k d, k ∈ pre → alookup k (props o_d) = Some d → pd_configurable d = false →
     alookup k (props o') = Some d) ∧
  (∀ k v wr en, k ∈ pre → alookup k (props o_d) = Some (PData v wr en true) →
     ∃ c cl, alookup k (props o') = Some (reactive_accessor c) ∧
       closures s !! c = Some cl ∧ c_val cl = v ∧ c_getter cl = None ∧
       c_setter cl = None ∧ c_obj cl = r ∧ c_key cl = k).

(** A run that leaves the closures as they were, however it ends. *)
Definition keeps_closures {A} (m : M A) : Prop :=
  ∀ s s', final_state (m s) = Some s' → closures s' = closures s.

(** * A small program to run the code on *)

(** A host whose evaluators read Deps 5, 7 and 5 again (watcher 1) or throw
    (any other watcher), whose callbacks and scheduler do nothing, and whose
    getters return a string. *)
Definition demo_host : Host := {|
  production := false;
  isServerRendering := false;
  hasProto := true;
  evaluator := fun w _ =>
    if decide (w = 1) then ([5; 7; 5], inl (VStr "shown"))
    else ([7], inr (Thrown (VStr "boom")));
  traverse_reads := fun _ _ => [];
  cb := fun _ _ _ => ret tt;
  queueWatcher := fun _ => ret tt;
  remove := fun l w => filter (fun x => x ≠ w) l;
  call_getter := fun _ _ => ret (VStr "computed");
  call_setter := fun _ _ _ => ret tt;
  call_customSetter := fun _ => ret tt
|}.

Definition demo_watcher (user lazy sync : bool) : Watcher :=
  mkWatcher 0 "a.b" false user lazy sync false true [3; 5] [] {[3; 5]} ∅ VUndef.

(** An object [{a: "one"}] at 1 that carries Observer 0 with root count 1, a
    frozen object at 2, a VNode at 3, an object at 5 and an array at 6 that
    hold each other and are not wrapped yet, a sealed object at 7 whose
    property [p] is reactive (closure 1, Dep 3), an array at 8 that carries
    Observer 2 with root count 1; the closure 0 of a property with a getter
    and no setter; watcher 1 (internal), 2 (user), 4 (lazy) subscribed
    to Deps 3 and 5. *)
Definition demo_state : State := {|
  heap := {[
    1 := mkObj CObject
           [(KName "a", PData (VStr "one") true true true);
            (ob_key, PData (VObs 0) true false true)]
           [] true [] false false;
    2 := mkObj CObject [(KName "a", PData (VStr "one") false true false)]
           [] false [] false false;
    3 := mkObj CVNode [] [] true [] false false;
    5 := mkObj CObject
           [(KName "x", PData (VStr "v") true true true);
            (KName "child", PData (VRef 6) true true true)]
           [] true [] false false;
    6 := mkObj CArray [] [Some (VStr "e"); Some (VRef 5)] true [] false false;
    7 := mkObj CObject
           [(KName "p", PAccessor (Some (FReactiveGetter 1)) (Some (FReactiveSetter 1))
                          true false)]
           [] false [] false false;
    8 := mkObj CArray [(ob_key, PData (VObs 2) true false true)]
           [Some (VStr "e0")] true [] true false ]};
  closures := {[
    0 := mkClosure 1 (KName "c") VUndef None (Some (FUser 0)) None None false 5;
    1 := mkClosure 7 (KName "p") (VStr "old") None None None None false 3 ]};
  observers := {[ 0 := mkObserver 1 0 1; 2 := mkObserver 8 6 1 ]};
  subs := {[ 3 := [1; 2; 4]; 5 := [1; 2; 4] ]};
  dep_uid := 8;
  watchers := {[ 1 := demo_watcher false false true;
                 2 := demo_watcher true false false;
                 4 := demo_watcher false true false ]};
  watcher_uid := 4;
  targetStack := [];
  vms := {[ 0 := mkVM None [1; 2; 4] false ]};
  shouldObserve := true;
  log := []
|}.

Definition demo_after_get : State :=
  match get (H := demo_host) 1 demo_state with
  | Ok _ s => s
  | _ => demo_state
  end.

Definition demo_closure : Closure :=
  mkClosure 1 (KName "c") VUndef None (Some (FUser 0)) None None false 5.

(** A plain property: closure 0 without the getter. *)
Definition plain_closure : Closure :=
  mkClosure 1 (KName "a") (VStr "one") None None None None false 5.
Definition plain_state : State :=
  set_closures (fun _ => {[ 0 := plain_closure ]}) demo_state.

Definition demo_root_obj : Obj :=
  mkObj CObject
    [(KName "a", PData (VStr "one") true true true);
     (ob_key, PData (VObs 0) true false true)]
    [] true [] false false.

Definition demo_frozen_obj : Obj :=
  mkObj CObject [(KName "a", PData (VStr "one") false true false)]
    [] false [] false false.

Definition demo_fresh_obj : Obj :=
  mkObj CObject
    [(KName "x", PData (VStr "v") true true true);
     (KName "child", PData (VRef 6) true true true)]
    [] true [] false false.

Definition demo_wrapped : State :=
  match observe (H := demo_host) 2 (VRef 5) false demo_state with
  | Ok _ s => s
  | _ => demo_state
  end.

(** ** More of the small program *)

(** A host whose evaluators read Deps 5 and 7 and return, and whose callbacks
    throw. *)
Definition loud_host : Host := {|
  production := false;
  isServerRendering := false;
  hasProto := true;
  evaluator := fun _ _ => ([5; 7], inl (VStr "shown"));
  traverse_reads := fun _ _ => [];
  cb := fun _ _ _ => throw (Thrown (VStr "cb"));
  queueWatcher := fun _ => ret tt;
  remove := fun l w => filter (fun x => x ≠ w) l;
  call_getter := fun _ _ => ret (VStr "computed");
  call_setter := fun _ _ _ => ret tt;
  call_customSetter := fun _ => ret tt
|}.

Definition demo_toString (f : fn) : string := "function () { return this.a }".
Definition demo_parsePath (path : string) : bool := true.

Definition lazy_options : option watcher_options :=
  Some (mkOptions VUndef VUndef (VBool true) VUndef).

(** [demo_state] while watcher 1 is being evaluated. *)
Definition demo_evaluating : State := set_targetStack (fun _ => [1]) demo_state.

(** Two arrays of hooks, [[f1, f2, f1]] at 10 and [[f2, f3]] at 11. *)
Definition hooks_state : State :=
  set_heap (fun h =>
    <[10 := array_of [Some (VFun (FUser 1)); Some (VFun (FUser 2)); Some (VFun (FUser 1))]]>
      (<[11 := array_of [Some (VFun (FUser 2)); Some (VFun (FUser 3))]]> h)) demo_state.

Definition demo_hooks_obj : Obj :=
  array_of [Some (VFun (FUser 1)); Some (VFun (FUser 2)); Some (VFun (FUser 1))].

(** Two [data] objects, [{a: "mine"}] at 1 and [{a: "yours", b: "new"}] at
    2. *)
Definition data_to : Obj :=
  mkObj CObject [(KName "a", PData (VStr "mine") true true true)] [] true [] false false.
Definition data_from : Obj :=
  mkObj CObject
    [(KName "a", PData (VStr "yours") true true true);
     (KName "b", PData (VStr "new") true true true)]
    [] true [] false false.
Definition data_state : State :=
  set_heap (fun _ => {[ 1 := data_to; 2 := data_from ]}) demo_state.

Definition data_merged : State :=
  match mergeData (H := demo_host) true 1 1 (VRef 2) data_state with
  | Ok _ s => s
  | _ => data_state
  end.

Definition demo_defined : State :=
  match defineReactive (H := demo_host) 1 5 (KName "x") TwoArgs demo_state with
  | Ok _ s => s
  | _ => demo_state
  end.

Definition demo_array : Obj :=
  mkObj CArray [] [Some (VStr "e"); Some (VRef 5)] true [] false false.
Definition demo_observed_array : Obj :=
  mkObj CArray [(ob_key, PData (VObs 2) true false true)]
    [Some (VStr "e0")] true [] true false.

(** The object at 5 once [observe] has wrapped it. *)
Definition demo_wrapped_obj : Obj :=
  match heap demo_wrapped !! 5 with
  | Some o => o
  | None => demo_fresh_obj
  end.

(** [demo_state] once [observe] has wrapped the array at 6. *)
Definition demo_wrapped_array : State :=
  match observe (H := demo_host) 2 (VRef 6) false demo_state with
  | Ok _ s => s
  | _ => demo_state
  end.

(** [plain_state] once "two" has been written through the setter of
    closure 0. *)
Definition demo_written : State :=
  match reactiveSetter (H := demo_host) 1 0 (VStr "two") plain_state with
  | Ok _ s => s
  | _ => plain_state
  end.

(** * Proofs *)

Section Proofs.
Context `{Host}.

#[local] Set Warnings "-clear-no-such-hyp".

Lemma alter_lookup_insert {A} (f : A → A) (i : nat) (m : gmap nat A) x :
  m !! i = Some x → alter f i m = <[i := f x]> m.
Proof.
  intros Hx. apply map_eq. intros j. rewrite lookup_alter, lookup_insert.
  destruct (decide (i = j)) as [->|]; [by rewrite Hx | done].
Qed.

Lemma state_eta s :
  mkState (heap s) (closures s) (observers s) (subs s) (dep_uid s) (watchers s)
    (watcher_uid s) (targetStack s) (vms s) (shouldObserve s) (log s) = s.
Proof. by destruct s. Qed.

Lemma put_watcher_subs_id w x s :
  watchers s !! w = Some x → put_watcher_subs w (x, subs s) s = s.
Proof.
  intros Hx. unfold put_watcher_subs, set_subs, set_watchers. simpl.
  rewrite insert_id by done. apply state_eta.
Qed.

Lemma put_watcher_subs_twice w st1 st2 s :
  put_watcher_subs w st2 (put_watcher_subs w st1 s) = put_watcher_subs w st2 s.
Proof.
  unfold put_watcher_subs, set_subs, set_watchers. simpl.
  by rewrite insert_insert_eq.
Qed.

Lemma bind_Ok {A B} (m : M A) (k : A → M B) s a s1 :
  m s = Ok a s1 → bind m k s = k a s1.
Proof. unfold bind. by intros ->. Qed.

Lemma this_watcher_Ok w x s :
  watchers s !! w = Some x → this_watcher w s = Ok x s.
Proof. unfold this_watcher. by intros ->. Qed.

Lemma update_watcher_Ok w f x s :
  watchers s !! w = Some x →
  update_watcher w f s = Ok tt (set_watchers <[w := f x]> s).
Proof.
  intros Hx. unfold update_watcher, modify, set_watchers.
  by rewrite (alter_lookup_insert _ _ _ x).
Qed.

Lemma watchers_set_insert w x s :
  watchers (set_watchers <[w := x]> s) !! w = Some x.
Proof. simpl. apply lookup_insert_eq. Qed.

Lemma addDep_run w d s x :
  watchers s !! w = Some x →
  addDep w d s = Ok tt (put_watcher_subs w (addDep_step w d (x, subs s)) s).
Proof.
  intros Hx. unfold addDep, addDep_step.
  erewrite bind_Ok by by apply this_watcher_Ok. simpl.
  destruct (bool_decide (d ∈ w_newDepIds x)) eqn:Hin.
  - unfold ret. by rewrite put_watcher_subs_id.
  - erewrite bind_Ok by by apply update_watcher_Ok.
    erewrite bind_Ok by (apply update_watcher_Ok, watchers_set_insert).
    erewrite bind_Ok by (apply this_watcher_Ok, watchers_set_insert).
    simpl.
    destruct (bool_decide (d ∈ w_depIds x)) eqn:Hd; simpl.
    + unfold ret, put_watcher_subs, set_subs, set_watchers. simpl.
      by rewrite insert_insert_eq.
    + unfold addSub, modify, put_watcher_subs, set_subs, set_watchers, dep_subs. simpl.
      by rewrite insert_insert_eq.
Qed.

Lemma dep_depend_run w d s x :
  watchers s !! w = Some x → Dep_target s = Some w →
  dep_depend d s = Ok tt (put_watcher_subs w (addDep_step w d (x, subs s)) s).
Proof.
  intros Hx Ht. unfold dep_depend, bind, gets. rewrite Ht. by apply addDep_run.
Qed.

Lemma for_each_depend_run w ds : ∀ s x,
  watchers s !! w = Some x → Dep_target s = Some w →
  for_each ds dep_depend s
  = Ok tt (put_watcher_subs w (collect w ds (x, subs s)) s).
Proof.
  induction ds as [|d ds IH]; intros s x Hx Ht; simpl.
  - unfold ret. by rewrite put_watcher_subs_id.
  - erewrite bind_Ok by by eapply dep_depend_run.
    erewrite IH; [ | apply lookup_insert_eq | done ].
    rewrite put_watcher_subs_twice. simpl.
    by destruct (addDep_step w d (x, subs s)).
Qed.

Lemma collect_app w ds1 ds2 st :
  collect w (ds1 ++ ds2) st = collect w ds2 (collect w ds1 st).
Proof. unfold collect. apply foldl_app. Qed.

(** What [collect] leaves alone, and what it gathers. *)
Lemma collect_frame w ds : ∀ st,
  let x := st.1 in let x' := (collect w ds st).1 in
  w_vm x' = w_vm x ∧ w_expression x' = w_expression x ∧ w_deep x' = w_deep x ∧
  w_user x' = w_user x ∧ w_lazy x' = w_lazy x ∧ w_sync x' = w_sync x ∧
  w_dirty x' = w_dirty x ∧ w_active x' = w_active x ∧ w_deps x' = w_deps x ∧
  w_depIds x' = w_depIds x ∧ w_value x' = w_value x.
Proof.
  induction ds as [|d ds IH]; intros st; simpl; [done|].
  specialize (IH (addDep_step w d st)). simpl in IH.
  unfold addDep_step in IH at 2 4 6 8 10 12 14 16 18 20 22.
  destruct (bool_decide (d ∈ w_newDepIds st.1)); simpl in IH; apply IH.
Qed.

Lemma collect_newDepIds w ds : ∀ st,
  w_newDepIds (collect w ds st).1 = w_newDepIds st.1 ∪ list_to_set ds.
Proof.
  induction ds as [|d ds IH]; intros st; simpl; [set_solver|].
  rewrite IH. unfold addDep_step.
  destruct (bool_decide (d ∈ w_newDepIds st.1)) eqn:Hd; simpl.
  - apply bool_decide_eq_true in Hd. set_solver.
  - set_solver.
Qed.

Lemma collect_newDeps w ds : ∀ st,
  NoDup (w_newDeps st.1) →
  (∀ d, d ∈ w_newDeps st.1 ↔ d ∈ w_newDepIds st.1) →
  let x' := (collect w ds st).1 in
  NoDup (w_newDeps x') ∧ (∀ d, d ∈ w_newDeps x' ↔ d ∈ w_newDepIds x').
Proof.
  induction ds as [|d ds IH]; intros st Hnd Hin; simpl; [done|].
  apply IH; unfold addDep_step;
    destruct (bool_decide (d ∈ w_newDepIds st.1)) eqn:Hd; simpl; try done.
  - apply bool_decide_eq_false in Hd. apply NoDup_app. split_and!; [done| |apply NoDup_singleton].
    intros y Hy ->%list_elem_of_singleton. by apply Hd, Hin.
  - intros y. rewrite elem_of_app, list_elem_of_singleton, Hin. set_solver.
Qed.

Lemma collect_subs w ds : ∀ st d' w',
  w' ∈ default [] ((collect w ds st).2 !! d') ↔
  ((w' ∈ default [] (st.2 !! d')) ∨
   (w' = w ∧ d' ∈ ds ∧ (d' ∉ w_newDepIds st.1) ∧ (d' ∉ w_depIds st.1))).
Proof.
  induction ds as [|d ds IH]; intros st d' w'; simpl.
  - set_solver.
  - rewrite IH. pose proof (collect_frame w [d] st) as Hf. simpl in Hf.
    destruct Hf as (_&_&_&_&_&_&_&_&_&Hids&_). rewrite Hids.
    pose proof (collect_newDepIds w [d] st) as Hn. simpl in Hn. rewrite Hn.
    unfold addDep_step.
    destruct (bool_decide (d ∈ w_newDepIds st.1)) eqn:Hd; simpl.
    + apply bool_decide_eq_true in Hd. set_solver.
    + apply bool_decide_eq_false in Hd.
      destruct (bool_decide (d ∈ w_depIds st.1)) eqn:Hd2; simpl.
      * apply bool_decide_eq_true in Hd2. set_solver.
      * apply bool_decide_eq_false in Hd2.
        destruct (decide (d = d')) as [->|Hne].
        -- rewrite lookup_insert_eq. simpl. unfold add_sub.
           destruct (decide (w ∈ default [] (st.2 !! d'))); [set_solver|].
           rewrite elem_of_app, list_elem_of_singleton. set_solver.
        -- rewrite lookup_insert_ne by done. set_solver.
Qed.

Lemma set_subs_id s : set_subs (fun _ => subs s) s = s.
Proof. unfold set_subs. apply state_eta. Qed.

Lemma cleanup_loop_run w x n : ∀ s,
  watchers s !! w = Some x → n ≤ length (w_deps x) →
  while_down n (fun i =>
    this <- this_watcher w ;;
    match w_deps this !! i with
    | Some dep =>
        when (negb (bool_decide (dep ∈ w_newDepIds this))) (removeSub dep w)
    | None => stuck
    end) s
  = Ok tt (set_subs (fun _ => prune w (w_newDepIds x) (take n (w_deps x)) (subs s)) s).
Proof.
  induction n as [|n IH]; intros s Hx Hn; simpl.
  - unfold ret, prune. simpl. by rewrite set_subs_id.
  - destruct (lookup_lt_is_Some_2 (w_deps x) n) as [dep Hdep]; [lia|].
    erewrite take_S_r by done. unfold prune. rewrite reverse_app. simpl.
    unfold bind at 1. erewrite bind_Ok by by apply this_watcher_Ok.
    rewrite Hdep. unfold prune_step at 2.
    destruct (bool_decide (dep ∈ w_newDepIds x)); simpl.
    + unfold ret. rewrite IH; [done|done|lia].
    + rewrite IH; [done|done|lia].
Qed.

Lemma cleanupDeps_run w x s :
  watchers s !! w = Some x →
  cleanupDeps w s
  = Ok tt (put_watcher_subs w
             (swap_deps x, prune w (w_newDepIds x) (w_deps x) (subs s)) s).
Proof.
  intros Hx. unfold cleanupDeps.
  erewrite bind_Ok by by apply this_watcher_Ok.
  erewrite bind_Ok by (by apply cleanup_loop_run).
  rewrite firstn_all.
  erewrite bind_Ok by (by apply update_watcher_Ok).
  erewrite update_watcher_Ok by apply lookup_insert_eq.
  unfold put_watcher_subs, set_watchers, set_subs. simpl.
  by rewrite insert_insert_eq.
Qed.

Lemma prune_subs w ids l : ∀ m d' w',
  w' ∈ default [] (prune w ids l m !! d') ↔
  w' ∈ default [] (m !! d') ∧ ¬ (w' = w ∧ d' ∈ l ∧ d' ∉ ids).
Proof.
  unfold prune. induction l as [|d l IH] using rev_ind; intros m d' w'; simpl.
  - set_solver.
  - rewrite reverse_app. simpl. rewrite IH. unfold prune_step.
    destruct (bool_decide (d ∈ ids)) eqn:Hd.
    + apply bool_decide_eq_true in Hd. set_solver.
    + apply bool_decide_eq_false in Hd.
      destruct (decide (d = d')) as [->|Hne].
      * rewrite lookup_insert_eq. simpl. unfold remove_sub.
        rewrite list_elem_of_filter. set_solver.
      * rewrite lookup_insert_ne by done. set_solver.
Qed.

Lemma call_evaluator_run w x s :
  watchers s !! w = Some x → Dep_target s = Some w →
  call_evaluator w s =
  let s1 := put_watcher_subs w (collect w (evaluator w s).1 (x, subs s)) s in
  match (evaluator w s).2 with
  | inl v => Ok v s1
  | inr e => Throw e s1
  end.
Proof.
  intros Hx Ht. unfold call_evaluator. destruct (evaluator w s) as [reads out]. simpl.
  erewrite bind_Ok by by eapply for_each_depend_run. by destruct out.
Qed.

Lemma get_finally_run w x v s :
  watchers s !! w = Some x → Dep_target s = Some w →
  get_finally w v s =
  let st := collect w (if w_deep x then traverse_reads v s else []) (x, subs s) in
  Ok tt (put_watcher_subs w
           (swap_deps st.1, prune w (w_newDepIds st.1) (w_deps st.1) st.2)
           (set_targetStack tail s)).
Proof.
  intros Hx Ht. unfold get_finally.
  erewrite bind_Ok by by apply this_watcher_Ok.
  erewrite (bind_Ok _ _ _ tt (put_watcher_subs w (collect w (if w_deep x then traverse_reads v s else []) (x, subs s)) s)).
  2:{ destruct (w_deep x); simpl.
      - unfold traverse. by eapply for_each_depend_run.
      - unfold ret. by rewrite put_watcher_subs_id. }
  unfold popTarget. erewrite bind_Ok by reflexivity.
  erewrite cleanupDeps_run by apply lookup_insert_eq.
  simpl. unfold put_watcher_subs, set_subs, set_watchers, set_targetStack. simpl.
  by rewrite insert_insert_eq.
Qed.

Lemma get_catch_run w x e s :
  watchers s !! w = Some x →
  get_catch w (w_vm x) e s =
  if w_user x
  then Ok tt (set_log (fun l => l ++ [HandleError e (w_vm x) (getter_label (w_expression x))]) s)
  else Throw e s.
Proof.
  intros Hx. unfold get_catch. erewrite bind_Ok by by apply this_watcher_Ok.
  by destruct (w_user x).
Qed.

Lemma get_until_finally_run w x s :
  watchers s !! w = Some x →
  get_until_finally w s =
  match (evaluator w (set_targetStack (cons w) s)).2 with
  | inl v => Ok v (state_at_finally w x s)
  | inr e => if w_user x then Ok VUndef (state_at_finally w x s)
             else Throw e (state_at_finally w x s)
  end.
Proof.
  intros Hx. unfold get_until_finally, pushTarget.
  erewrite bind_Ok by reflexivity.
  erewrite bind_Ok by by apply this_watcher_Ok.
  unfold try_catch_finally, state_at_finally.
  erewrite call_evaluator_run; [ | done | done ]. simpl.
  set (s0 := set_targetStack (cons w) s).
  destruct (evaluator w s0) as [reads [v|e]]; simpl; [done|].
  pose proof (collect_frame w reads (x, subs s)) as Hf. simpl in Hf.
  destruct Hf as (Hvm&Hex&_&Hu&_).
  rewrite <- Hvm. erewrite get_catch_run by apply lookup_insert_eq.
  rewrite Hu, Hvm, Hex. by destruct (w_user x).
Qed.

Lemma reads_of_run_eq w x s :
  watchers s !! w = Some x →
  reads_of_run w s =
  (evaluator w (set_targetStack (cons w) s)).1 ++
  (if w_deep x then traverse_reads (value_at_finally w s) (state_at_finally w x s) else []).
Proof.
  intros Hx. unfold reads_of_run, value_at_finally. rewrite Hx.
  destruct (w_deep x); [|done]. rewrite (get_until_finally_run w x) by done.
  destruct (evaluator w (set_targetStack (cons w) s)).2; [done|].
  by destruct (w_user x).
Qed.

Lemma get_run w x s :
  watchers s !! w = Some x →
  get w s =
  match (evaluator w (set_targetStack (cons w) s)).2 with
  | inl v => Ok v (put_watcher_subs w (reconciled w x s) s)
  | inr e =>
      if w_user x
      then Ok VUndef
             (put_watcher_subs w (reconciled w x s)
                (set_log (fun l => l ++ [HandleError e (w_vm x) (getter_label (w_expression x))]) s))
      else Throw e (put_watcher_subs w (reconciled w x s) s)
  end.
Proof.
  intros Hx. unfold reconciled. rewrite (reads_of_run_eq w x) by done.
  rewrite collect_app. unfold value_at_finally, state_at_finally.
  unfold get, pushTarget.
  erewrite bind_Ok by reflexivity.
  erewrite bind_Ok by by apply this_watcher_Ok.
  unfold try_catch_finally.
  erewrite call_evaluator_run; [ | done | done ]. simpl.
  set (s0 := set_targetStack (cons w) s).
  pose proof (collect_frame w (evaluator w s0).1 (x, subs s)) as Hf. simpl in Hf.
  destruct Hf as (Hvm&Hex&Hdeep&Hu&_&_&_&_&Hdeps&_).
  set (st1 := collect w (evaluator w s0).1 (x, subs s)) in *.
  destruct (evaluator w s0).2 as [v|e]; simpl.
  - erewrite bind_Ok.
    2:{ eapply get_finally_run; [apply lookup_insert_eq | done]. }
    unfold ret. f_equal. rewrite Hdeep. simpl.
    replace (st1.1, st1.2) with st1 by by destruct st1.
    set (st2 := collect w _ st1).
    pose proof (collect_frame w (if w_deep x then traverse_reads v (put_watcher_subs w st1 s0) else []) st1) as Hf2.
    simpl in Hf2. destruct Hf2 as (_&_&_&_&_&_&_&_&Hdeps2&_).
    fold st2 in Hdeps2. rewrite Hdeps2, Hdeps.
    unfold put_watcher_subs, set_subs, set_watchers, set_targetStack. simpl.
    by rewrite insert_insert_eq.
  - rewrite <- Hvm. erewrite get_catch_run by apply lookup_insert_eq.
    rewrite Hu, Hvm, Hex.
    destruct (w_user x) eqn:Huser.
    + erewrite bind_Ok.
      2:{ eapply get_finally_run; [apply lookup_insert_eq | done]. }
      unfold ret. f_equal. rewrite Hdeep. simpl.
      replace (st1.1, st1.2) with st1 by by destruct st1.
      set (st2 := collect w _ st1).
      pose proof (collect_frame w (if w_deep x then traverse_reads VUndef
        (set_log (fun l => l ++ [HandleError e (w_vm x) (getter_label (w_expression x))])
           (put_watcher_subs w st1 s0)) else []) st1) as Hf2.
      simpl in Hf2. destruct Hf2 as (_&_&_&_&_&_&_&_&Hdeps2&_).
      fold st2 in Hdeps2. rewrite Hdeps2, Hdeps.
      unfold put_watcher_subs, set_subs, set_watchers, set_targetStack, set_log. simpl.
      by rewrite insert_insert_eq.
    + erewrite bind_Ok.
      2:{ eapply get_finally_run; [apply lookup_insert_eq | done]. }
      unfold throw. f_equal. rewrite Hdeep. simpl.
      replace (st1.1, st1.2) with st1 by by destruct st1.
      set (st2 := collect w _ st1).
      pose proof (collect_frame w (if w_deep x then traverse_reads VUndef
           (put_watcher_subs w st1 s0) else []) st1) as Hf2.
      simpl in Hf2. destruct Hf2 as (_&_&_&_&_&_&_&_&Hdeps2&_).
      fold st2 in Hdeps2. rewrite Hdeps2, Hdeps.
      unfold put_watcher_subs, set_subs, set_watchers, set_targetStack. simpl.
      by rewrite insert_insert_eq.
Qed.

Lemma reconciled_props w x s :
  between_runs x →
  let ds := reads_of_run w s in
  let x' := (reconciled w x s).1 in
  let m' := (reconciled w x s).2 in
  w_depIds x' = list_to_set ds ∧
  NoDup (w_deps x') ∧ (∀ d, d ∈ w_deps x' ↔ d ∈ ds) ∧
  (∀ d, d ∈ ds → (d ∈ w_depIds x → w ∈ dep_subs d s) → w ∈ default [] (m' !! d)) ∧
  (∀ d, d ∈ w_deps x → d ∉ ds → w ∉ default [] (m' !! d)) ∧
  between_runs x'.
Proof.
  intros [Hnd Hni] ds x' m'. subst x' m'. unfold reconciled. fold ds.
  pose proof (collect_newDepIds w ds (x, subs s)) as Hids. simpl in Hids.
  rewrite Hni in Hids.
  destruct (collect_newDeps w ds (x, subs s)) as [Hdup Hmem]; simpl.
  { rewrite Hnd. apply NoDup_nil_2. }
  { intros d. rewrite Hnd, Hni. set_solver. }
  set (st := collect w ds (x, subs s)) in *. simpl.
  split_and!.
  - rewrite Hids. set_solver.
  - done.
  - intros d. rewrite Hmem, Hids. set_solver.
  - intros d Hd Hsub. apply prune_subs. split.
    + apply collect_subs. simpl. rewrite Hni.
      destruct (decide (d ∈ w_depIds x)); [left; by apply Hsub | right; set_solver].
    + rewrite Hids. set_solver.
  - intros d Hd Hnot Hin. apply prune_subs in Hin as [_ Hin]. apply Hin.
    rewrite Hids. set_solver.
  - done.
Qed.

(** C2.  After [get()] has run, by return or by rethrow, the confirmed
    dependencies [deps]/[depIds] of the watcher are exactly the Deps that
    reached [addDep] during the run, each once; the watcher is subscribed to
    every one of them (a Dep confirmed before stays subscribed), it is removed
    from the subscribers of every Dep confirmed by the previous run and not
    read in this one, and [newDeps]/[newDepIds] are empty for the next run. *)
Theorem get_confirms_exactly_the_reads (w : wid) (x : Watcher) (s : State) :
  watchers s !! w = Some x →
  between_runs x →
  ∃ s' x',
    final_state (get w s) = Some s' ∧
    watchers s' !! w = Some x' ∧
    w_depIds x' = list_to_set (reads_of_run w s) ∧
    NoDup (w_deps x') ∧
    (∀ d, d ∈ w_deps x' ↔ d ∈ reads_of_run w s) ∧
    (∀ d, d ∈ reads_of_run w s →
          (d ∈ w_depIds x → w ∈ dep_subs d s) → w ∈ dep_subs d s') ∧
    (∀ d, d ∈ w_deps x → d ∉ reads_of_run w s → w ∉ dep_subs d s') ∧
    between_runs x'.
Proof.
  intros Hx Hb. pose proof (reconciled_props w x s Hb) as Hp. simpl in Hp.
  rewrite (get_run w x s Hx).
  destruct (evaluator w (set_targetStack (cons w) s)).2 as [v|e];
    [ | destruct (w_user x) ];
    (eexists _, (reconciled w x s).1; split; [reflexivity|];
     split; [apply lookup_insert_eq|]; exact Hp).
Qed.

(** C6.  When the evaluator throws, a user watcher's [get] reports the
    exception to [handleError] with the label naming its expression and
    returns [undefined], so that the caller goes on; an internal watcher's
    [get] rethrows it.  Either way the finally block has run: the target
    stack is popped, the Deps of this run are the confirmed ones, [newDeps]
    and [newDepIds] are empty, and the watcher has left the subscribers of
    every Dep of [deps] that is not confirmed any more. *)
Theorem get_evaluator_throws (w : wid) (x : Watcher) (s : State) (e : exn) :
  watchers s !! w = Some x →
  (evaluator w (set_targetStack (cons w) s)).2 = inr e →
  ∃ s' x',
    (if w_user x
     then get w s = Ok VUndef s' ∧
          log s' = log s ++ [HandleError e (w_vm x) (getter_label (w_expression x))]
     else get w s = Throw e s' ∧ log s' = log s) ∧
    targetStack s' = targetStack s ∧
    watchers s' !! w = Some x' ∧
    w_newDeps x' = [] ∧
    w_newDepIds x' = ∅ ∧
    w_depIds x' = w_newDepIds x ∪ list_to_set (reads_of_run w s) ∧
    (∀ d, d ∈ w_deps x → d ∉ w_depIds x' → w ∉ dep_subs d s').
Proof.
  intros Hx He. rewrite (get_run w x s Hx), He.
  pose proof (collect_newDepIds w (reads_of_run w s) (x, subs s)) as Hids.
  assert (∀ d, d ∈ w_deps x → d ∉ w_depIds (reconciled w x s).1 →
               w ∉ default [] ((reconciled w x s).2 !! d)) as Hprune.
  { intros d Hd Hnot Hin. apply prune_subs in Hin as [_ Hin]. by apply Hin. }
  destruct (w_user x); eexists _, (reconciled w x s).1;
    (split; [split; reflexivity|]); (split; [reflexivity|]);
    (split; [apply lookup_insert_eq|]); done.
Qed.

(** What [get] leaves of the Watcher's other fields. *)
Lemma get_frame w x s s' :
  watchers s !! w = Some x →
  final_state (get w s) = Some s' →
  ∃ x', watchers s' !! w = Some x' ∧
    w_vm x' = w_vm x ∧ w_expression x' = w_expression x ∧ w_deep x' = w_deep x ∧
    w_user x' = w_user x ∧ w_active x' = w_active x ∧ w_value x' = w_value x.
Proof.
  intros Hx. rewrite (get_run w x s Hx).
  pose proof (collect_frame w (reads_of_run w s) (x, subs s)) as Hf. simpl in Hf.
  destruct Hf as (?&?&?&?&?&?&?&?&?&?&?).
  intros Hs'. exists (reconciled w x s).1. split.
  - destruct (evaluator w (set_targetStack (cons w) s)).2; [|destruct (w_user x)];
      simpl in Hs'; injection Hs' as <-; apply lookup_insert_eq.
  - done.
Qed.

(** C4.  For an active watcher whose [get] returned [v]: when [v] is
    [===] to the cached value, is not an object or array, and the watcher is
    not deep, [run] ends right after [get] and the callback is not called;
    in every other case the cache is set to [v] first and the callback is
    then called, once, with [v] and the old cached value (for a user watcher
    inside the try block whose catch reports to [handleError]). *)
Theorem run_skips_or_fires (w : wid) (x : Watcher) (s s1 : State) (v : value) :
  watchers s !! w = Some x →
  w_active x = true →
  get w s = Ok v s1 →
  ∃ x1, watchers s1 !! w = Some x1 ∧ w_value x1 = w_value x ∧
    (strict_eq v (w_value x) && negb (isObject v) && negb (w_deep x) = true →
       run w s = Ok tt s1) ∧
    (strict_eq v (w_value x) && negb (isObject v) && negb (w_deep x) = false →
       let s2 := set_watchers <[w := with_value v x1]> s1 in
       watchers s2 !! w = Some (with_value v x1) ∧
       w_value (with_value v x1) = v ∧
       run w s = fire w x v (w_value x) s2).
Proof.
  intros Hx Hact Hget.
  destruct (get_frame w x s s1 Hx) as (x1&Hx1&Hvm&Hex&Hdeep&Huser&_&Hval).
  { by rewrite Hget. }
  exists x1. split_and!; [done|done| |].
  - intros Hskip. unfold run.
    erewrite bind_Ok by by apply this_watcher_Ok. rewrite Hact.
    erewrite bind_Ok by done.
    erewrite bind_Ok by by apply this_watcher_Ok.
    rewrite Hval, Hdeep.
    destruct (strict_eq v (w_value x)), (isObject v), (w_deep x); done.
  - intros Hfire s2. split_and!; [apply lookup_insert_eq|done|].
    unfold run.
    erewrite bind_Ok by by apply this_watcher_Ok. rewrite Hact.
    erewrite bind_Ok by done.
    erewrite bind_Ok by by apply this_watcher_Ok.
    rewrite Hval, Hdeep.
    replace (negb (strict_eq v (w_value x)) || isObject v || w_deep x) with true
      by (by destruct (strict_eq v (w_value x)), (isObject v), (w_deep x)).
    erewrite bind_Ok by by apply update_watcher_Ok.
    erewrite bind_Ok by (apply this_watcher_Ok, lookup_insert_eq).
    unfold fire. simpl. by rewrite Huser.
Qed.

(** C5.  [update] does one of three things, by the flags: a lazy watcher is
    only marked dirty; otherwise a sync watcher runs at once; otherwise the
    watcher is handed to [queueWatcher]. *)
Theorem update_dispatch (w : wid) (x : Watcher) (s : State) :
  watchers s !! w = Some x →
  update w s =
  if w_lazy x then Ok tt (set_watchers <[w := with_dirty true x]> s)
  else if w_sync x then run w s
  else queueWatcher w s.
Proof.
  intros Hx. unfold update.
  erewrite bind_Ok by by apply this_watcher_Ok.
  destruct (w_lazy x); [by apply (update_watcher_Ok w (with_dirty true) x)|by destruct (w_sync x)].
Qed.

Lemma teardown_loop_run w x n : ∀ s,
  watchers s !! w = Some x → n ≤ length (w_deps x) →
  while_down n (fun i =>
    this <- this_watcher w ;;
    match w_deps this !! i with
    | Some dep => removeSub dep w
    | None => stuck
    end) s
  = Ok tt (set_subs (fun _ => prune w ∅ (take n (w_deps x)) (subs s)) s).
Proof.
  induction n as [|n IH]; intros s Hx Hn; simpl.
  - unfold ret, prune. simpl. by rewrite set_subs_id.
  - destruct (lookup_lt_is_Some_2 (w_deps x) n) as [dep Hdep]; [lia|].
    erewrite take_S_r by done. unfold prune. rewrite reverse_app. simpl.
    unfold bind at 1. erewrite bind_Ok by by apply this_watcher_Ok.
    rewrite Hdep. unfold prune_step at 2. simpl.
    rewrite IH; [done|done|lia].
Qed.

Lemma teardown_run w x s :
  watchers s !! w = Some x → is_Some (vms s !! w_vm x) →
  teardown w s = if w_active x then Ok tt (torn_down w x s) else Ok tt s.
Proof.
  intros Hx [vm Hvm]. unfold teardown.
  erewrite bind_Ok by by apply this_watcher_Ok.
  destruct (w_active x); [|done].
  unfold the_vm at 1. unfold bind at 1. rewrite Hvm.
  unfold torn_down. rewrite Hvm.
  destruct (_isBeingDestroyed vm) eqn:Hd; simpl.
  - unfold bind at 1, ret at 1.
    erewrite bind_Ok by by apply this_watcher_Ok.
    erewrite bind_Ok by by apply teardown_loop_run.
    rewrite firstn_all. erewrite update_watcher_Ok by done. done.
  - unfold bind at 1, modify at 1.
    erewrite bind_Ok by by apply this_watcher_Ok.
    erewrite bind_Ok by by apply teardown_loop_run.
    rewrite firstn_all. erewrite update_watcher_Ok by done.
    unfold set_vms, set_subs, set_watchers. simpl.
    rewrite (alter_lookup_insert _ _ _ vm) by done. simpl. by rewrite Hd.
Qed.

(** C9.  [teardown] of an active watcher removes it from the subscribers of
    every Dep in [deps] and marks it inactive; a second [teardown] changes
    nothing; and [run] on the torn-down watcher returns at once, without
    evaluating and without calling the callback. *)
Theorem teardown_unsubscribes_and_deactivates (w : wid) (x : Watcher) (s : State) :
  watchers s !! w = Some x →
  is_Some (vms s !! w_vm x) →
  w_active x = true →
  ∃ s',
    teardown w s = Ok tt s' ∧
    (∀ d, d ∈ w_deps x → w ∉ dep_subs d s') ∧
    (∃ x', watchers s' !! w = Some x' ∧ w_active x' = false ∧ w_deps x' = w_deps x) ∧
    teardown w s' = Ok tt s' ∧
    run w s' = Ok tt s'.
Proof.
  intros Hx Hvm Hact. exists (torn_down w x s).
  rewrite (teardown_run w x s Hx Hvm), Hact.
  assert (watchers (torn_down w x s) !! w = Some (with_active false x)) as Hx'
    by apply lookup_insert_eq.
  split_and!.
  - done.
  - intros d Hd Hin. unfold torn_down, dep_subs in Hin. simpl in Hin.
    apply prune_subs in Hin as [_ Hin]. apply Hin. set_solver.
  - by exists (with_active false x).
  - rewrite (teardown_run _ _ _ Hx'); [done|]. simpl.
    unfold torn_down. destruct Hvm as [vm Hvm]. rewrite Hvm.
    destruct (_isBeingDestroyed vm); simpl; [by rewrite Hvm|].
    rewrite lookup_insert_eq. done.
  - unfold run. erewrite bind_Ok by by apply this_watcher_Ok. done.
Qed.

Lemma observe_unfold fuel :
  observe fuel =
  observe_with fuel (match fuel with 0 => fun _ _ => stuck | S fuel' => observe fuel' end).
Proof. by destruct fuel. Qed.

Lemma the_obj_Ok r o s : heap s !! r = Some o → the_obj r s = Ok o s.
Proof. unfold the_obj. by intros ->. Qed.
Lemma the_closure_Ok c cl s : closures s !! c = Some cl → the_closure c s = Ok cl s.
Proof. unfold the_closure. by intros ->. Qed.
Lemma the_observer_Ok i ob s : observers s !! i = Some ob → the_observer i s = Ok ob s.
Proof. unfold the_observer. by intros ->. Qed.

Lemma get_ob_data r o v wr en cf s :
  heap s !! r = Some o → own_property o ob_key = Some (PData v wr en cf) →
  get_ob r s = Ok v s.
Proof.
  intros Ho Hp. unfold get_ob. erewrite bind_Ok by by apply the_obj_Ok.
  by rewrite Hp.
Qed.

Lemma instanceof_VNode_ref r o s :
  heap s !! r = Some o →
  instanceof_VNode (VRef r) s = Ok (bool_decide (cls o = CVNode)) s.
Proof. intros Ho. unfold instanceof_VNode, bind, the_obj, ret. by rewrite Ho. Qed.

Lemma observe_primitive fuel v a s :
  isObject v = false → observe fuel v a s = Ok None s.
Proof.
  intros Hv. rewrite observe_unfold. unfold observe_with.
  destruct v; try discriminate; reflexivity.
Qed.

Lemma observe_VNode fuel r o a s :
  heap s !! r = Some o → cls o = CVNode → observe fuel (VRef r) a s = Ok None s.
Proof.
  intros Ho Hc. rewrite observe_unfold. unfold observe_with.
  erewrite bind_Ok by by apply instanceof_VNode_ref.
  by rewrite bool_decide_eq_true_2.
Qed.

Lemma observe_carried fuel r ob a s :
  carries s r ob → observe fuel (VRef r) a s = Ok (Some ob) (count_root a ob s).
Proof.
  intros (o & wr & en & cf & Ho & Hc & Hp).
  rewrite observe_unfold. unfold observe_with.
  erewrite bind_Ok by by apply instanceof_VNode_ref.
  rewrite bool_decide_eq_false_2 by done. simpl.
  erewrite bind_Ok by by apply the_obj_Ok.
  unfold hasOwn. rewrite Hp. rewrite bool_decide_eq_true_2 by eauto.
  unfold bind at 1. erewrite (bind_Ok (get_ob r)) by by eapply get_ob_data.
  unfold ret at 1. unfold bind at 1, ret at 1.
  unfold count_root. by destruct a.
Qed.

Lemma carries_count_root s r ob a i :
  carries s r ob → carries (count_root a i s) r ob.
Proof. unfold carries, count_root. by destruct a. Qed.

Lemma bind_Ok_inv {A B} (m : M A) (k : A → M B) s b s2 :
  bind m k s = Ok b s2 → ∃ a s1, m s = Ok a s1 ∧ k a s1 = Ok b s2.
Proof. unfold bind. destruct (m s) as [a s1| |]; [eauto|done|done]. Qed.

Lemma heap_same_ret {A} (a : A) : heap_same (ret a).
Proof. by intros s a' s' [= _ <-]. Qed.
Lemma heap_same_stuck {A} : heap_same (@stuck A).
Proof. by intros s a s'. Qed.
Lemma heap_same_throw {A} e : heap_same (@throw A e).
Proof. by intros s a s'. Qed.
Lemma heap_same_gets {A} (f : State → A) : heap_same (gets f).
Proof. by intros s a' s' [= _ <-]. Qed.
Lemma heap_same_modify f : (∀ s, heap (f s) = heap s) → heap_same (modify f).
Proof. intros Hf s a s' Hm. injection Hm as Hm. subst s'. apply Hf. Qed.
Lemma heap_same_bind {A B} (m : M A) (k : A → M B) :
  heap_same m → (∀ a, heap_same (k a)) → heap_same (bind m k).
Proof.
  intros Hm Hk s b s2 (a & s1 & H1 & H2)%bind_Ok_inv.
  rewrite (Hk _ _ _ _ H2). by eapply Hm.
Qed.
Lemma heap_same_for_each {A} (l : list A) (body : A → M unit) :
  (∀ x, heap_same (body x)) → heap_same (for_each l body).
Proof.
  intros Hb. induction l as [|x l IH]; simpl.
  - apply heap_same_ret.
  - apply heap_same_bind; [apply Hb | by intros _].
Qed.
Lemma heap_same_when b m : heap_same m → heap_same (when b m).
Proof. destruct b; [done | intros _; apply heap_same_ret]. Qed.
Lemma heap_same_this_watcher w : heap_same (this_watcher w).
Proof. intros s a s'. unfold this_watcher. destruct (_ !! _); [|done]. by intros [= _ <-]. Qed.
Lemma heap_same_the_obj r : heap_same (the_obj r).
Proof. intros s a s'. unfold the_obj. destruct (_ !! _); [|done]. by intros [= _ <-]. Qed.
Lemma heap_same_the_closure c : heap_same (the_closure c).
Proof. intros s a s'. unfold the_closure. destruct (_ !! _); [|done]. by intros [= _ <-]. Qed.
Lemma heap_same_the_observer i : heap_same (the_observer i).
Proof. intros s a s'. unfold the_observer. destruct (_ !! _); [|done]. by intros [= _ <-]. Qed.
Lemma heap_same_new_Dep : heap_same new_Dep.
Proof. by intros s a s' [= _ <-]. Qed.
Lemma heap_same_alloc_closure c : heap_same (alloc_closure c).
Proof. by intros s a s' [= _ <-]. Qed.
Lemma heap_same_alloc_observer o : heap_same (alloc_observer o).
Proof. by intros s a s' [= _ <-]. Qed.


Create HintDb heap_same discriminated.
#[local] Hint Resolve heap_same_ret heap_same_stuck heap_same_throw heap_same_gets
  heap_same_this_watcher heap_same_the_obj heap_same_the_closure
  heap_same_the_observer heap_same_new_Dep heap_same_alloc_closure
  heap_same_alloc_observer : heap_same.

(** Break a run into its steps and settle each one. *)
Ltac heap_same_steps :=
  repeat first
    [ progress eauto with heap_same
    | apply heap_same_bind; [|intros ?]
    | apply heap_same_for_each; intros ?
    | apply heap_same_when
    | apply heap_same_modify; reflexivity
    | match goal with
      | |- heap_same (match ?x with _ => _ end) => destruct x
      end ].

Section ReadOnlyGetters.
Hypothesis getters_read_only :
  ∀ g r s v s', call_getter g r s = Ok v s' → heap s' = heap s.

Lemma heap_same_call_getter g r : heap_same (call_getter g r).
Proof. intros s a s'. apply getters_read_only. Qed.
#[local] Hint Resolve heap_same_call_getter : heap_same.

Lemma heap_same_addDep w d : heap_same (addDep w d).
Proof. unfold addDep, update_watcher, addSub. heap_same_steps. Qed.
#[local] Hint Resolve heap_same_addDep : heap_same.

Lemma heap_same_dep_depend d : heap_same (dep_depend d).
Proof. unfold dep_depend. heap_same_steps. Qed.
#[local] Hint Resolve heap_same_dep_depend : heap_same.

Lemma heap_same_get_ob r : heap_same (get_ob r).
Proof. unfold get_ob. heap_same_steps. Qed.
#[local] Hint Resolve heap_same_get_ob : heap_same.

Lemma heap_same_get_elem r i : heap_same (get_elem r i).
Proof. unfold get_elem. heap_same_steps. Qed.
#[local] Hint Resolve heap_same_get_elem : heap_same.

Lemma heap_same_is_array_value v : heap_same (is_array_value v).
Proof. unfold is_array_value. heap_same_steps. Qed.
#[local] Hint Resolve heap_same_is_array_value : heap_same.

Lemma heap_same_ob_dep_depend v : heap_same (ob_dep_depend v).
Proof. unfold ob_dep_depend. heap_same_steps. Qed.
#[local] Hint Resolve heap_same_ob_dep_depend : heap_same.

Lemma heap_same_dependArray fuel : ∀ r, heap_same (dependArray fuel r).
Proof.
  induction fuel as [|fuel IH]; intros r; simpl; heap_same_steps.
Qed.
#[local] Hint Resolve heap_same_dependArray : heap_same.

Lemma heap_same_closure_value cl : heap_same (closure_value cl).
Proof. unfold closure_value. heap_same_steps. Qed.
#[local] Hint Resolve heap_same_closure_value : heap_same.

Lemma heap_same_reactiveGetter fuel c : heap_same (reactiveGetter fuel c).
Proof. unfold reactiveGetter. heap_same_steps. Qed.
#[local] Hint Resolve heap_same_reactiveGetter : heap_same.

Lemma heap_same_js_get fuel r k : heap_same (js_get fuel r k).
Proof. unfold js_get. heap_same_steps. Qed.


Lemma carries_heap s s' r ob : heap s' = heap s → carries s r ob → carries s' r ob.
Proof. unfold carries. by intros ->. Qed.

Lemma heap_same_keeps {A} (m : M A) : heap_same m → keeps_marks m.
Proof.
  intros Hm s0 s a s' Hr Hle r ob Hc. eapply carries_heap; [by eapply Hm|by apply Hle].
Qed.

Lemma keeps_bind {A B} (m : M A) (k : A → M B) :
  keeps_marks m → (∀ a, keeps_marks (k a)) → keeps_marks (bind m k).
Proof.
  intros Hm Hk s0 s b s2 (a & s1 & H1 & H2)%bind_Ok_inv Hle.
  eapply Hk; [done|]. by eapply Hm.
Qed.

Lemma keeps_for_each {A} (l : list A) (body : A → M unit) :
  (∀ x, x ∈ l → keeps_marks (body x)) → keeps_marks (for_each l body).
Proof.
  induction l as [|x l IH]; intros Hb; simpl.
  - apply heap_same_keeps, heap_same_ret.
  - apply keeps_bind; [apply Hb; left | intros _; apply IH; intros y Hy; apply Hb; by right].
Qed.

Lemma alookup_ainsert_ne {A} (k k' : pkey) (a : A) l :
  k ≠ k' → alookup k' (ainsert k a l) = alookup k' l.
Proof.
  intros Hne. induction l as [|[k0 a0] l IH]; simpl.
  - by rewrite decide_False.
  - destruct (decide (k = k0)) as [->|]; simpl.
    + by rewrite !decide_False by done.
    + destruct (decide (k' = k0)); [done|apply IH].
Qed.

Lemma alookup_ainsert_eq {A} (k : pkey) (a : A) l :
  alookup k (ainsert k a l) = Some a.
Proof.
  induction l as [|[k0 a0] l IH]; simpl.
  - by rewrite decide_True.
  - destruct (decide (k = k0)) as [->|]; simpl.
    + by rewrite decide_True.
    + by rewrite decide_False.
Qed.

(** What the heap holds at [r] after an update there. *)
Lemma update_obj_lookup r f s a s' :
  update_obj r f s = Ok a s' → heap s' = alter f r (heap s).
Proof. intros Hu. injection Hu as _ Hu. by subst s'. Qed.

Lemma carries_alter r f s s' :
  heap s' = alter f r (heap s) →
  (∀ o, cls (f o) = cls o) →
  (∀ o, own_property (f o) ob_key = own_property o ob_key) →
  carries_le s s'.
Proof.
  intros Hh Hcls Hp r0 ob (o & wr & en & cf & Ho & Hc & Hob).
  destruct (decide (r0 = r)) as [->|Hne].
  - exists (f o), wr, en, cf. rewrite Hh, lookup_alter_eq, Ho. simpl.
    by rewrite Hcls, Hp.
  - exists o, wr, en, cf. by rewrite Hh, lookup_alter_ne.
Qed.

Lemma own_property_ob_key o : own_property o ob_key = alookup ob_key (props o).
Proof. unfold own_property. by destruct (cls o). Qed.

Lemma store_property_keeps r k d : k ≠ ob_key → keeps_marks (store_property r k d).
Proof.
  intros Hk s0 s a s' Hr Hle r0 ob Hc. apply Hle in Hc. revert Hc.
  apply bind_Ok_inv in Hr as (o & s1 & Ho & Hr).
  apply heap_same_the_obj in Ho as Hh.
  assert (s1 = s) as -> by (unfold the_obj in Ho; destruct (_ !! _); by simplify_eq).
  assert (∀ f, (∀ o, cls (f o) = cls o) →
               (∀ o, own_property (f o) ob_key = own_property o ob_key) →
               update_obj r f s = Ok a s' → carries s r0 ob → carries s' r0 ob) as Hupd.
  { intros f H1 H2 Hu. apply (carries_alter r f); [by eapply update_obj_lookup|done|done]. }
  destruct (cls o) eqn:Hcls, k as [kn|n], d as [v [] [] []|]; simpl in Hr; try done;
    try (case_decide; [done|]);
    (eapply Hupd; [| |exact Hr]; [done|]; intros o'; rewrite !own_property_ob_key; simpl;
     try done; by apply alookup_ainsert_ne).
Qed.

Lemma defineProperty_keeps r k d : k ≠ ob_key → keeps_marks (defineProperty r k d).
Proof.
  intros Hk. unfold defineProperty. apply keeps_bind.
  - apply heap_same_keeps, heap_same_the_obj.
  - intros o. destruct (own_property o k) as [p|].
    + destruct (pd_configurable p); [by apply store_property_keeps|].
      apply heap_same_keeps, heap_same_throw.
    + destruct (extensible o); [by apply store_property_keeps|].
      apply heap_same_keeps, heap_same_throw.
Qed.


Lemma the_obj_inv r s o s' : the_obj r s = Ok o s' → s' = s ∧ heap s !! r = Some o.
Proof. unfold the_obj. destruct (heap s !! r); [|done]. by intros [= <- <-]. Qed.

(** [def(value, '__ob__', this)] on an object that carried nothing. *)
Lemma def_ob_marks r this s0 s s' o :
  def r ob_key (VObs this) s = Ok tt s' →
  heap s !! r = Some o → cls o ≠ CVNode →
  (∀ ob, ¬ carries s r ob) →
  carries_le s0 s →
  carries_le s0 s' ∧ carries s' r this ∧
  ∃ o', heap s' !! r = Some o' ∧ cls o' = cls o ∧
        alookup ob_key (props o') = Some (PData (VObs this) true false true).
Proof.
  intros Hd Ho Hcls Hnone Hle. unfold def, defineProperty in Hd.
  apply bind_Ok_inv in Hd as (o1 & s1 & [-> Ho1]%the_obj_inv & Hd).
  assert (o1 = o) as -> by congruence.
  assert (store_property r ob_key (PData (VObs this) true false true) s = Ok tt s') as Hs.
  { destruct (own_property o ob_key) as [p|]; [destruct (pd_configurable p)|destruct (extensible o)];
      done. }
  clear Hd. unfold store_property in Hs.
  apply bind_Ok_inv in Hs as (o1 & s1 & [-> Ho1']%the_obj_inv & Hs).
  assert (o1 = o) as -> by congruence.
  assert (update_obj r (fun o => with_props (ainsert ob_key (PData (VObs this) true false true) (props o)) o) s
          = Ok tt s') as Hu.
  { destruct (cls o); simpl in Hs; try done; by case_decide. }
  apply update_obj_lookup in Hu.
  assert (heap s' !! r = Some (with_props (ainsert ob_key (PData (VObs this) true false true) (props o)) o)) as Ho'
    by (by rewrite Hu, lookup_alter_eq, Ho).
  split_and!.
  - intros r0 ob Hc. specialize (Hle _ _ Hc).
    destruct (decide (r0 = r)) as [->|Hne]; [by destruct (Hnone ob)|].
    destruct Hle as (o0 & wr & en & cf & Ho0 & ?). exists o0, wr, en, cf.
    by rewrite Hu, lookup_alter_ne.
  - eexists _, _, _, _. split; [exact Ho'|]. split; [done|].
    rewrite own_property_ob_key. simpl. apply alookup_ainsert_eq.
  - eexists. split; [exact Ho'|]. split; [done|]. simpl. apply alookup_ainsert_eq.
Qed.

Lemma Object_keys_enumerable o k :
  k ∈ Object_keys o → enumerable_own (props o) k = true.
Proof.
  unfold Object_keys. rewrite elem_of_app. intros [Hi|Hn].
  - apply list_elem_of_fmap in Hi as (n & -> & Hn).
    rewrite merge_sort_Permutation in Hn.
    unfold index_keys in Hn. apply list_elem_of_omap in Hn as ([k0 p] & _ & Hf).
    simpl in Hf. destruct k0; [done|].
    destruct (enumerable_own (props o) (KIndex n0)) eqn:He; by simplify_eq.
  - unfold name_keys in Hn. apply list_elem_of_omap in Hn as ([k0 p] & _ & Hf).
    simpl in Hf. destruct k0; [|done].
    destruct (enumerable_own (props o) (KName s)) eqn:He; by simplify_eq.
Qed.

Section WithRec.
Variable fuel : nat.
Variable observe_rec : value → bool → M (option obid).
Hypothesis rec_keeps : ∀ v a, keeps_marks (observe_rec v a).

Lemma defineReactive_with_keeps r key args :
  key ≠ ob_key → keeps_marks (defineReactive_with fuel observe_rec r key args).
Proof.
  intros Hk. unfold defineReactive_with.
  apply keeps_bind; [apply heap_same_keeps, heap_same_new_Dep|intros dep].
  apply keeps_bind; [apply heap_same_keeps, heap_same_the_obj|intros o].
  destruct (bool_decide _); [apply heap_same_keeps, heap_same_ret|].
  apply keeps_bind.
  { destruct (_ && _); apply heap_same_keeps; [apply heap_same_js_get|apply heap_same_ret]. }
  intros val. apply keeps_bind.
  { destruct (arg_shallow args); [apply heap_same_keeps, heap_same_ret|apply rec_keeps]. }
  intros childOb. apply keeps_bind; [apply heap_same_keeps, heap_same_alloc_closure|intros c].
  by apply defineProperty_keeps.
Qed.

Lemma observeArray_with_keeps r : keeps_marks (observeArray_with observe_rec r).
Proof.
  unfold observeArray_with.
  apply keeps_bind; [apply heap_same_keeps, heap_same_the_obj|intros o].
  apply keeps_for_each. intros i _.
  apply keeps_bind; [apply heap_same_keeps, heap_same_get_elem|intros v].
  apply keeps_bind; [apply rec_keeps|intros _; apply heap_same_keeps, heap_same_ret].
Qed.

Lemma copyAugment_keeps r : keeps_marks (copyAugment r arrayKeys).
Proof.
  unfold copyAugment. apply keeps_for_each. intros k Hk.
  unfold def. apply defineProperty_keeps. unfold ob_key. intros [= ->].
  unfold arrayKeys in Hk. set_solver.
Qed.

Lemma protoAugment_keeps r : keeps_marks (protoAugment r).
Proof.
  intros s0 s a s' Hr Hle r0 ob Hc. apply Hle in Hc. revert Hc.
  apply (carries_alter r (with_protoArrayMethods true)); [by eapply update_obj_lookup|done|done].
Qed.

Lemma new_Observer_with_marks r s0 s this s' o :
  new_Observer_with fuel observe_rec r s = Ok this s' →
  heap s !! r = Some o → cls o ≠ CVNode →
  (∀ ob, ¬ carries s r ob) →
  carries_le s0 s →
  carries_le s0 s' ∧ carries s' r this.
Proof.
  intros Hn Ho Hcls Hnone Hle. unfold new_Observer_with in Hn.
  apply bind_Ok_inv in Hn as (dep & s1 & Hdep & Hn).
  apply bind_Ok_inv in Hn as (this' & s2 & Hal & Hn).
  apply bind_Ok_inv in Hn as ([] & s3 & Hdef & Hn).
  apply bind_Ok_inv in Hn as (o3 & s3' & [-> Ho3]%the_obj_inv & Hn).
  apply bind_Ok_inv in Hn as ([] & s4 & Hbody & Hret).
  injection Hret as <- <-.
  assert (heap s2 = heap s) as Hh2.
  { rewrite (heap_same_alloc_observer _ _ _ _ Hal). by apply (heap_same_new_Dep _ _ _ Hdep). }
  destruct (def_ob_marks r this' s0 s2 s3 o Hdef) as (Hle3 & Hc3 & o' & Ho' & Hcls' & Hob');
    [by rewrite Hh2|done| | |].
  { intros ob Hc. apply (Hnone ob). eapply carries_heap; [|exact Hc]. done. }
  { intros r0 ob Hc. eapply carries_heap; [exact Hh2|]. by apply Hle. }
  assert (o3 = o') as -> by congruence.
  assert (∀ t0, carries_le t0 s3 → carries_le t0 s4) as Hkeeps.
  { intros t0 Ht0. destruct (isArray o').
    - revert Hbody Ht0. apply keeps_bind; [|intros _; apply observeArray_with_keeps].
      destruct hasProto; [apply protoAugment_keeps|apply copyAugment_keeps].
    - unfold walk_with in Hbody.
      apply bind_Ok_inv in Hbody as (ow & t1 & [-> How]%the_obj_inv & Hw).
      assert (ow = o') as -> by congruence.
      revert Hw Ht0. apply keeps_for_each. intros k Hk.
      apply defineReactive_with_keeps. intros ->.
      apply Object_keys_enumerable in Hk. unfold enumerable_own in Hk.
      by rewrite Hob' in Hk. }
  split.
  - by apply Hkeeps.
  - apply (Hkeeps s3); [|exact Hc3]. by intros ? ?.
Qed.

Lemma observe_with_marks v a s0 s res s' :
  observe_with fuel observe_rec v a s = Ok res s' →
  carries_le s0 s →
  carries_le s0 s' ∧
  (∀ r o ob, v = VRef r → heap s !! r = Some o → plain_ob_slot o →
             res = Some ob → carries s' r ob).
Proof.
  intros Hrun Hle. unfold observe_with in Hrun.
  apply bind_Ok_inv in Hrun as (vnode & t & Hvn & Hrun).
  destruct v as [| | | | | |r|]; simpl in Hvn, Hrun;
    try (injection Hvn as <- <-; injection Hrun as <- <-; by split).
  2:{ injection Hvn as <- <-. done. }
  apply bind_Ok_inv in Hvn as (o & t' & [-> Ho]%the_obj_inv & Hvn).
  injection Hvn as <- <-.
  destruct (bool_decide (cls o = CVNode)) eqn:Hcls; simpl in Hrun.
  { injection Hrun as <- <-. by split. }
  apply bool_decide_eq_false in Hcls.
  apply bind_Ok_inv in Hrun as (o1 & t' & [-> Ho1]%the_obj_inv & Hrun).
  assert (o1 = o) as -> by congruence.
  apply bind_Ok_inv in Hrun as (existing & s1 & Hex & Hrun).
  apply bind_Ok_inv in Hrun as (ob & s2 & Hob & Hrun).
  apply bind_Ok_inv in Hrun as ([] & s3 & Hcount & Hret).
  injection Hret as <- <-.
  assert (heap s3 = heap s2) as Hh3.
  { destruct ob as [i|]; [|by injection Hcount as <-].
    destruct a; [|by injection Hcount as <-].
    unfold when, update_observer, modify in Hcount. by injection Hcount as <-. }
  (* the test for an Observer already there *)
  assert (heap s1 = heap s ∧
          (∀ i, existing = Some i → plain_ob_slot o → carries s r i) ∧
          (existing = None → ∀ i, ¬ carries s r i)) as (Hh1 & Hsome & Hnone).
  { unfold hasOwn in Hex. destruct (own_property o ob_key) as [p|] eqn:Hp.
    - rewrite bool_decide_eq_true_2 in Hex by eauto.
      apply bind_Ok_inv in Hex as (v1 & s1' & Hget & Hex). injection Hex as <- <-.
      split; [by apply (heap_same_get_ob _ _ _ _ Hget)|].
      unfold get_ob in Hget.
      apply bind_Ok_inv in Hget as (o1 & t' & [-> Ho1']%the_obj_inv & Hget).
      assert (o1 = o) as -> by congruence. rewrite Hp in Hget.
      split.
      + intros i Hi Hplain. destruct p as [v0 wr en cf|[g|] st en cf].
        * injection Hget as <- <-. destruct v0; try done. injection Hi as <-.
          by exists o, wr, en, cf.
        * by destruct (Hplain g st en cf).
        * by injection Hget as <- <-.
      + intros Hi i (o2 & wr & en & cf & Ho2 & _ & Hp2).
        assert (o2 = o) as -> by congruence. rewrite Hp in Hp2. injection Hp2 as ->.
        injection Hget as <- <-. done.
    - rewrite bool_decide_eq_false_2 in Hex by (by intros [? ?]).
      injection Hex as <- <-. split; [done|]. split; [done|].
      intros _ i (o2 & wr & en & cf & Ho2 & _ & Hp2).
      assert (o2 = o) as -> by congruence. by rewrite Hp in Hp2. }
  assert (carries_le s s1) as Hle1 by (intros ? ?; by apply carries_heap).
  assert (carries_le s2 s3) as Hle3 by (intros ? ?; by apply carries_heap).
  destruct existing as [i|].
  - injection Hob as <- <-. split.
    + intros r0 ob0 Hc. by apply Hle3, Hle1, Hle.
    + intros r' o' ob' [= <-] Ho' Hplain [= <-].
      assert (o' = o) as -> by congruence. by apply Hle3, Hle1, Hsome.
  - apply bind_Ok_inv in Hob as (so & t' & Hso & Hob). injection Hso as <- <-.
    apply bind_Ok_inv in Hob as (o1 & t' & [-> Ho1']%the_obj_inv & Hob).
    assert (o1 = o) as -> by congruence.
    destruct (_ && _).
    + apply bind_Ok_inv in Hob as (this & t' & Hnew & Hob). injection Hob as <- ->.
      destruct (new_Observer_with_marks r s0 s1 this s2 o Hnew) as [Hle2 Hc2];
        [done|done| | |].
      { intros i Hc. apply (Hnone eq_refl i). by eapply carries_heap; [symmetry|]. }
      { intros ? ? ?. by apply Hle1, Hle. }
      split.
      * intros r0 ob0 Hc. by apply Hle3, Hle2.
      * intros r' o' ob' [= <-] _ _ [= <-]. by apply Hle3.
    + injection Hob as <- <-. split; [|done].
      intros r0 ob0 Hc. by apply Hle3, Hle1, Hle.
Qed.
End WithRec.

Lemma stuck_keeps {A} : keeps_marks (@stuck A).
Proof. by intros s0 s a s'. Qed.

Lemma observe_keeps fuel : ∀ v a, keeps_marks (observe fuel v a).
Proof.
  induction fuel as [|fuel IH]; intros v a s0 s res s' Hrun Hle;
    rewrite observe_unfold in Hrun.
  - eapply (observe_with_marks 0 (fun _ _ => stuck));
      [intros _ _; apply stuck_keeps|done|done].
  - eapply (observe_with_marks (S fuel) (observe fuel)); [done|done|done].
Qed.

Lemma observe_wraps fuel r o a s ob s' :
  heap s !! r = Some o → plain_ob_slot o →
  observe fuel (VRef r) a s = Ok (Some ob) s' →
  carries s' r ob.
Proof.
  intros Ho Hplain Hrun. rewrite observe_unfold in Hrun.
  destruct fuel as [|fuel].
  - eapply (observe_with_marks 0 (fun _ _ => stuck) (fun _ _ => stuck_keeps)
              (VRef r) a s s (Some ob) s'); [done|by intros ? ?|done|done|done|done].
  - eapply (observe_with_marks (S fuel) (observe fuel) (observe_keeps fuel)
              (VRef r) a s s (Some ob) s'); [done|by intros ? ?|done|done|done|done].
Qed.


End ReadOnlyGetters.

(** C3.  [observe] returns nothing for a value that is not an object and for
    a VNode, and the store is as before.  For an object that carries an
    Observer it returns that Observer: the heap and the Deps are as before
    and the table of Observers has the entries it had (only [vmCount] of that
    Observer grows when [asRootData] is set), so no Observer is created; the
    object still carries it, and observing again returns it again.  And an
    object [observe] has wrapped carries the Observer returned from then on,
    so that it is wrapped once: observing it again returns the same Observer
    (the getters of the program are taken not to write to the heap). *)
Theorem observe_returns_existing (fuel : nat) (v : value) (asRootData : bool) (s : State) :
  (isObject v = false → observe fuel v asRootData s = Ok None s) ∧
  (∀ r o, v = VRef r → heap s !! r = Some o → cls o = CVNode →
     observe fuel v asRootData s = Ok None s) ∧
  (∀ r ob, v = VRef r → carries s r ob →
     ∃ s', observe fuel v asRootData s = Ok (Some ob) s' ∧
       heap s' = heap s ∧ subs s' = subs s ∧ dep_uid s' = dep_uid s ∧
       closures s' = closures s ∧
       dom (observers s') = dom (observers s) ∧
       (asRootData = false → s' = s) ∧
       carries s' r ob ∧
       ∀ fuel', observe fuel' v false s' = Ok (Some ob) s') ∧
  ((∀ g r s v s', call_getter g r s = Ok v s' → heap s' = heap s) →
   ∀ r o ob s', v = VRef r → heap s !! r = Some o → plain_ob_slot o →
     observe fuel v asRootData s = Ok (Some ob) s' →
     carries s' r ob ∧
     ∀ fuel', observe fuel' v false s' = Ok (Some ob) s').
Proof.
  split_and!.
  - apply observe_primitive.
  - intros r o -> Ho Hc. by eapply observe_VNode.
  - intros r ob -> Hcar. exists (count_root asRootData ob s).
    pose proof (carries_count_root s r ob asRootData ob Hcar) as Hcar'.
    split_and!; try done; try (by destruct asRootData).
    + by apply observe_carried.
    + destruct asRootData; simpl; [|done]. apply dom_alter_L.
    + intros fuel'. by rewrite (observe_carried fuel' r ob false).
  - intros Hgetters r o ob s' -> Ho Hplain Hrun.
    pose proof (observe_wraps Hgetters fuel r o asRootData s ob s' Ho Hplain Hrun) as Hcar.
    split; [done|]. intros fuel'. by rewrite (observe_carried fuel' r ob false).
Qed.

Lemma reactiveSetter_run fuel c cl newVal value s s1 :
  closures s !! c = Some cl →
  closure_value cl s = Ok value s1 →
  reactiveSetter fuel c newVal s =
  if unchanged newVal value then Ok tt s1
  else if getter_only cl then
    match c_customSetter cl with
    | Some customSetter => when (negb production) (call_customSetter customSetter) s1
    | None => Ok tt s1
    end
  else write_through fuel c cl newVal s1.
Proof.
  intros Hc Hv. unfold reactiveSetter.
  erewrite bind_Ok by by apply the_closure_Ok.
  erewrite bind_Ok by done.
  destruct (unchanged newVal value); [done|].
  unfold write_through, getter_only.
  destruct (bool_decide (is_Some (c_getter cl)) && negb (bool_decide (is_Some (c_setter cl)))).
  - unfold bind.
    destruct (c_customSetter cl) as [cs|]; [|done].
    by destruct (when (negb production) (call_customSetter cs) s1) as [[] ?| |].
  - done.
Qed.

Lemma update_closure_Ok c f cl s :
  closures s !! c = Some cl →
  update_closure c f s = Ok tt (set_closures <[c := f cl]> s).
Proof.
  intros Hc. unfold update_closure, modify, set_closures. do 2 f_equal.
  apply map_eq. intros j. rewrite lookup_alter, lookup_insert.
  destruct (decide (c = j)) as [->|]; [by rewrite Hc | done].
Qed.

(** C1, as amended.  A write of a value that is [===] to the current one, or
    of NaN over NaN, returns after reading the current value: nothing is
    stored and [dep.notify()] is not called.  A write of any other value,
    unless the property had a getter and no setter, runs the customSetter (in
    development builds), stores the value (through the property's own setter
    when it had one), wraps it with [observe] unless shallow, and then calls
    [dep.notify()], once.  For a plain property and a new value that is not
    an object this leaves the closure holding the new value and no child
    Observer, and notifies. *)
Theorem reactiveSetter_noop_or_write (fuel : nat) (c : cid) (cl : Closure)
    (newVal value : value) (s s1 : State) :
  closures s !! c = Some cl →
  closure_value cl s = Ok value s1 →
  (unchanged newVal value = true → reactiveSetter fuel c newVal s = Ok tt s1) ∧
  (unchanged newVal value = false → getter_only cl = false →
     reactiveSetter fuel c newVal s = write_through fuel c cl newVal s1) ∧
  (unchanged newVal value = false →
     c_getter cl = None → c_setter cl = None → c_customSetter cl = None →
     isObject newVal = false →
     s1 = s ∧ value = c_val cl ∧
     reactiveSetter fuel c newVal s =
     dep_notify (c_dep cl)
       (set_closures <[c := with_childOb None (with_val newVal cl)]> s)).
Proof.
  intros Hc Hv. pose proof (reactiveSetter_run fuel c cl newVal value s s1 Hc Hv) as Hr.
  split_and!.
  - intros Hu. by rewrite Hr, Hu.
  - intros Hu Hg. by rewrite Hr, Hu, Hg.
  - intros Hu Hg Hs Hcs Hobj.
    unfold closure_value in Hv. rewrite Hg in Hv. injection Hv as <- <-.
    split_and!; [done|done|].
    rewrite Hr, Hu. unfold getter_only. rewrite Hg. simpl.
    unfold write_through. rewrite Hcs, Hs.
    unfold bind at 1, ret at 1.
    erewrite bind_Ok by by apply update_closure_Ok.
    erewrite (bind_Ok _ _ _ None).
    2:{ destruct (c_shallow cl); [done|]. by apply observe_primitive. }
    erewrite bind_Ok by (apply update_closure_Ok, lookup_insert_eq).
    unfold set_closures. simpl. by rewrite insert_insert_eq.
Qed.

(** C8.  When the property had a getter and no setter, a write through the
    reactive setter reads the current value with that getter and returns: no
    value is stored, the child Observer is as before, [observe] and
    [dep.notify()] are not called.  The one thing that can run besides the
    getter is the customSetter, in development builds and for a value that
    differs. *)
Theorem reactiveSetter_getter_only (fuel : nat) (c : cid) (cl : Closure)
    (g : fn) (newVal value : value) (s s1 : State) :
  closures s !! c = Some cl →
  c_getter cl = Some g →
  c_setter cl = None →
  call_getter g (c_obj cl) s = Ok value s1 →
  reactiveSetter fuel c newVal s =
    (if unchanged newVal value then Ok tt s1
     else match c_customSetter cl with
          | Some customSetter => when (negb production) (call_customSetter customSetter) s1
          | None => Ok tt s1
          end) ∧
  (c_customSetter cl = None ∨ production = true →
     reactiveSetter fuel c newVal s = Ok tt s1).
Proof.
  intros Hc Hg Hs Hv.
  assert (closure_value cl s = Ok value s1) as Hcv
    by (unfold closure_value; by rewrite Hg).
  pose proof (reactiveSetter_run fuel c cl newVal value s s1 Hc Hcv) as Hr.
  assert (getter_only cl = true) as Hgo.
  { unfold getter_only. rewrite Hg, Hs.
    rewrite bool_decide_eq_true_2 by eauto.
    by rewrite bool_decide_eq_false_2 by (by intros [? ?]). }
  rewrite Hgo in Hr.
  split; [done|].
  intros Hor. rewrite Hr. destruct (unchanged newVal value); [done|].
  destruct Hor as [-> | ->]; [done|]. by destruct (c_customSetter cl).
Qed.

(** C10, as amended.  On a property whose descriptor is not configurable,
    [defineReactive] returns after [new Dep()]: the heap, the closures and the
    Observers are as before, so the object and the property are unchanged, no
    accessor is installed and [observe] is not called; what has changed is
    that one Dep was created, which nothing refers to.  A later write to such
    a property, when it is a data property, stores the value or is a
    TypeError, and notifies nothing. *)
Theorem defineReactive_not_configurable (fuel : nat)
    (observe_rec : value → bool → M (option obid))
    (r : loc) (key : pkey) (args : define_args) (o : Obj) (p : pdesc) (s : State) :
  heap s !! r = Some o →
  own_property o key = Some p →
  pd_configurable p = false →
  defineReactive_with fuel observe_rec r key args s = Ok tt (with_new_Dep s) ∧
  heap (with_new_Dep s) = heap s ∧
  closures (with_new_Dep s) = closures s ∧
  observers (with_new_Dep s) = observers s ∧
  watchers (with_new_Dep s) = watchers s ∧
  dep_uid (with_new_Dep s) = S (dep_uid s) ∧
  (∀ v0 wr en v,
     p = PData v0 wr en false →
     key ≠ KName "__proto__" → ¬ (cls o = CArray ∧ key = length_key) →
     js_set fuel r key v (with_new_Dep s) =
     if wr
     then Ok tt (set_heap
                   (alter (fun o => with_props (ainsert key (PData v wr en false) (props o)) o) r)
                   (with_new_Dep s))
     else Throw (TypeError "Cannot assign to read only property") (with_new_Dep s)).
Proof.
  intros Ho Hp Hc. split_and!; try done.
  - unfold defineReactive_with.
    erewrite bind_Ok by reflexivity.
    erewrite bind_Ok by by apply the_obj_Ok.
    rewrite Hp. simpl. rewrite Hc. by rewrite bool_decide_eq_true_2.
  - intros v0 wr en v -> Hk Hl. unfold js_set.
    erewrite bind_Ok by by apply the_obj_Ok.
    rewrite (bool_decide_eq_false_2 (key = _)) by done.
    replace (isArray o && bool_decide (key = length_key)) with false.
    2:{ symmetry. apply andb_false_iff. unfold isArray.
        destruct (decide (cls o = CArray)); [right|left]; apply bool_decide_eq_false_2; naive_solver. }
    simpl. rewrite Hp. destruct wr; [|done].
    unfold store_property. erewrite bind_Ok by by apply the_obj_Ok.
    unfold own_property in Hp.
    destruct (cls o) eqn:Hcls, key as [k|n]; simpl; try done.
    + rewrite decide_False by naive_solver. done.
    + by destruct (elems o !! n) as [[?|]|].
Qed.

(** C7, as amended.  [set] with a key the target does not have, on a Vue
    instance or on an object whose Observer has a root count that is not
    zero, warns in development builds and returns [val]: nothing is stored,
    the target and the whole heap are as before, no accessor is defined and
    nothing is notified. *)
Theorem set_on_root_refused (fuel : nat) (r : loc) (o : Obj) (key : pkey)
    (val ob : value) (s : State) :
  heap s !! r = Some o →
  isArray o && bool_decide (is_Some (isValidArrayIndex key)) = false →
  has_property o key = false →
  get_ob r s = Ok ob s →
  is_root s o ob →
  ∃ s',
    set fuel (VRef r) key val s = Ok val s' ∧
    s' = (if production then s
          else set_log (fun l => l ++ [Warn set_warning_root]) s) ∧
    heap s' = heap s ∧ closures s' = closures s ∧ observers s' = observers s ∧
    subs s' = subs s ∧ watchers s' = watchers s ∧
    ¬ stored_on s' r key val.
Proof.
  intros Ho Harr Hnew Hob Hroot.
  exists (if production then s else set_log (fun l => l ++ [Warn set_warning_root]) s).
  split; [|split; [done|]].
  2:{ split_and!; try (by destruct production).
      intros (o' & wr & en & cf & Ho' & Hp).
      assert (heap s !! r = Some o') as Ho'' by (by destruct production).
      assert (o' = o) as -> by congruence.
      unfold has_property, hasOwn in Hnew. apply orb_false_iff in Hnew as [Hnew _].
      apply bool_decide_eq_false in Hnew. apply Hnew. by rewrite Hp. }
  unfold set. unfold when at 1. rewrite andb_false_r.
  unfold bind at 1, ret at 1.
  erewrite bind_Ok by by apply the_obj_Ok.
  assert (refused_eq :
    (if _isVue o then ret true
     else match ob with
          | VObs i => this <- the_observer i ;;
                      ret (negb (bool_decide (vmCount this = 0)))
          | VRef _ => stuck
          | _ => ret false
          end) s = Ok true s).
  { destruct Hroot as [-> | (i & this & -> & Hi & Hn)]; [done|].
    destruct (_isVue o); [done|].
    erewrite bind_Ok by by apply the_observer_Ok.
    by rewrite bool_decide_eq_false_2. }
  assert (rest :
    (if has_property o key && negb (in_Object_prototype key)
     then js_set fuel r key val ;; ret val
     else
       ob <- get_ob r ;;
       o <- the_obj r ;;
       refused <- (if _isVue o then ret true
                   else match ob with
                        | VObs i => this <- the_observer i ;;
                                    ret (negb (bool_decide (vmCount this = 0)))
                        | VRef _ => stuck
                        | _ => ret false
                        end) ;;
       if refused : bool then
         when (negb production) (warn set_warning_root) ;;
         ret val
       else
         match ob with
         | VObs i =>
             this <- the_observer i ;;
             defineReactive fuel (ob_value this) key (WithVal val None false) ;;
             this <- the_observer i ;;
             dep_notify (ob_dep this) ;;
             ret val
         | VRef _ => stuck
         | _ =>
             if truthy ob then
               new_Dep ;;
               throw (TypeError "Cannot convert undefined or null to object")
             else js_set fuel r key val ;; ret val
         end) s
    = Ok val (if production then s
              else set_log (fun l => l ++ [Warn set_warning_root]) s)).
  { rewrite Hnew. simpl.
    erewrite bind_Ok by done.
    erewrite bind_Ok by by apply the_obj_Ok.
    erewrite bind_Ok by exact refused_eq.
    by destruct production. }
  destruct (isArray o); [|exact rest].
  destruct (isValidArrayIndex key); [done|exact rest].
Qed.

End Proofs.

(** * Proofs for the rest of the code *)

#[local] Set Warnings "-clear-no-such-hyp".

Section WatcherMore.
Context `{Host}.

(** What [get] leaves of the flags of the Watcher. *)
Lemma get_frame_flags w x s s' :
  watchers s !! w = Some x →
  final_state (get w s) = Some s' →
  ∃ x', watchers s' !! w = Some x' ∧
    w_lazy x' = w_lazy x ∧ w_sync x' = w_sync x ∧ w_dirty x' = w_dirty x ∧
    w_value x' = w_value x ∧ w_active x' = w_active x.
Proof.
  intros Hx. rewrite (get_run w x s Hx).
  pose proof (collect_frame w (reads_of_run w s) (x, subs s)) as Hf. simpl in Hf.
  destruct Hf as (?&?&?&?&?&?&?&?&?&?&?).
  intros Hs'. exists (reconciled w x s).1. split.
  - destruct (evaluator w (set_targetStack (cons w) s)).2; [|destruct (w_user x)];
      simpl in Hs'; injection Hs' as <-; apply lookup_insert_eq.
  - done.
Qed.

(** X1.  [evaluate] caches what [get] returns and clears [dirty]: the value
    of the getter, or [undefined] when the getter of a user watcher threw.
    When the getter of any other watcher throws, [evaluate] throws the same
    exception and the watcher keeps its old value and stays as dirty as it
    was. *)
Theorem evaluate_caches_or_stays_dirty (w : wid) (x : Watcher) (s : State) :
  watchers s !! w = Some x →
  (∀ v, (evaluator w (set_targetStack (cons w) s)).2 = inl v →
     ∃ s' x', evaluate w s = Ok tt s' ∧ watchers s' !! w = Some x' ∧
       w_value x' = v ∧ w_dirty x' = false) ∧
  (∀ e, (evaluator w (set_targetStack (cons w) s)).2 = inr e → w_user x = true →
     ∃ s' x', evaluate w s = Ok tt s' ∧ watchers s' !! w = Some x' ∧
       w_value x' = VUndef ∧ w_dirty x' = false) ∧
  (∀ e, (evaluator w (set_targetStack (cons w) s)).2 = inr e → w_user x = false →
     ∃ s' x', evaluate w s = Throw e s' ∧ watchers s' !! w = Some x' ∧
       w_value x' = w_value x ∧ w_dirty x' = w_dirty x).
Proof.
  intros Hx.
  assert (∀ v s1, get w s = Ok v s1 →
            ∃ s' x', evaluate w s = Ok tt s' ∧ watchers s' !! w = Some x' ∧
              w_value x' = v ∧ w_dirty x' = false) as Hok.
  { intros v s1 Hget.
    destruct (get_frame_flags w x s s1 Hx) as (x1 & Hx1 & _); [by rewrite Hget|].
    eexists _, _. unfold evaluate.
    erewrite bind_Ok by exact Hget.
    erewrite bind_Ok by by apply update_watcher_Ok.
    erewrite update_watcher_Ok by apply lookup_insert_eq.
    split; [reflexivity|]. split; [apply lookup_insert_eq|done]. }
  split_and!.
  - intros v Hv. eapply Hok. by rewrite (get_run w x s Hx), Hv.
  - intros e He Hu. eapply Hok. by rewrite (get_run w x s Hx), He, Hu.
  - intros e He Hu.
    pose proof (get_run w x s Hx) as Hget. rewrite He, Hu in Hget.
    destruct (get_frame_flags w x s (put_watcher_subs w (reconciled w x s) s) Hx)
      as (x1 & Hx1 & _ & _ & Hd & Hv & _); [by rewrite Hget|].
    eexists _, x1. unfold evaluate, bind. rewrite Hget. done.
Qed.

Lemma depend_loop_run w t deps n : ∀ s xw xt,
  watchers s !! w = Some xw → w_deps xw = deps →
  Dep_target s = Some t → watchers s !! t = Some xt →
  n ≤ length deps →
  while_down n (fun i =>
    this <- this_watcher w ;;
    match w_deps this !! i with
    | Some dep => dep_depend dep
    | None => stuck
    end) s
  = Ok tt (put_watcher_subs t (collect t (reverse (take n deps)) (xt, subs s)) s).
Proof.
  induction n as [|n IH]; intros s xw xt Hw Hdeps Ht Hxt Hn; simpl.
  - unfold ret. by rewrite put_watcher_subs_id.
  - destruct (lookup_lt_is_Some_2 deps n) as [dep Hdep]; [lia|].
    erewrite take_S_r by done. rewrite reverse_app. simpl.
    unfold bind at 1. erewrite bind_Ok by by apply this_watcher_Ok.
    rewrite Hdeps, Hdep.
    rewrite (dep_depend_run t dep s xt Hxt Ht).
    set (st := addDep_step t dep (xt, subs s)).
    assert (w_deps st.1 = w_deps xt) as Hst.
    { pose proof (collect_frame t [dep] (xt, subs s)) as Hf. simpl in Hf. apply Hf. }
    destruct (decide (w = t)) as [->|Hne].
    + erewrite (IH _ st.1 st.1); [ | apply lookup_insert_eq | | done | apply lookup_insert_eq | lia ].
      2:{ rewrite Hst. congruence. }
      rewrite put_watcher_subs_twice. simpl. by destruct st.
    + erewrite (IH _ xw st.1); [ | | done | done | apply lookup_insert_eq | lia ].
      2:{ simpl. by rewrite lookup_insert_ne. }
      rewrite put_watcher_subs_twice. simpl. by destruct st.
Qed.

(** X2.  [depend] hands every confirmed Dep of the watcher to the active
    watcher: each one is collected by the target ([newDepIds]), the target is
    subscribed to those it had neither confirmed nor collected yet, and the
    watcher's own [deps] are as before.  With no active watcher, [depend]
    changes nothing. *)
Theorem depend_hands_deps_to_target (w : wid) (x : Watcher) (s : State) :
  watchers s !! w = Some x →
  (Dep_target s = None → depend w s = Ok tt s) ∧
  (∀ t xt, Dep_target s = Some t → watchers s !! t = Some xt →
     ∃ s' xt' x',
       depend w s = Ok tt s' ∧
       watchers s' !! t = Some xt' ∧
       w_newDepIds xt' = w_newDepIds xt ∪ list_to_set (w_deps x) ∧
       (∀ d, d ∈ w_deps x → d ∉ w_depIds xt → d ∉ w_newDepIds xt → t ∈ dep_subs d s') ∧
       w_deps xt' = w_deps xt ∧ w_depIds xt' = w_depIds xt ∧
       watchers s' !! w = Some x' ∧ w_deps x' = w_deps x).
Proof.
  intros Hx. split.
  - intros Ht. unfold depend.
    erewrite bind_Ok by by apply this_watcher_Ok.
    assert (∀ n, n ≤ length (w_deps x) →
              while_down n (fun i =>
                this <- this_watcher w ;;
                match w_deps this !! i with
                | Some dep => dep_depend dep
                | None => stuck
                end) s = Ok tt s) as Hloop.
    { induction n as [|n IH]; intros Hn; simpl; [done|].
      destruct (lookup_lt_is_Some_2 (w_deps x) n) as [dep Hdep]; [lia|].
      unfold bind at 1. erewrite bind_Ok by by apply this_watcher_Ok.
      rewrite Hdep. unfold dep_depend at 1, bind at 1, gets at 1. rewrite Ht.
      unfold ret at 1. apply IH. lia. }
    by apply Hloop.
  - intros t xt Ht Hxt.
    set (st := collect t (reverse (w_deps x)) (xt, subs s)).
    pose proof (collect_frame t (reverse (w_deps x)) (xt, subs s)) as Hf. simpl in Hf.
    fold st in Hf. destruct Hf as (_&_&_&_&_&_&_&_&Hdeps&Hids&_).
    pose proof (collect_newDepIds t (reverse (w_deps x)) (xt, subs s)) as Hnew.
    fold st in Hnew. simpl in Hnew.
    assert (depend w s = Ok tt (put_watcher_subs t st s)) as Hrun.
    { unfold depend. erewrite bind_Ok by by apply this_watcher_Ok.
      erewrite (depend_loop_run w t (w_deps x)); [|done|done|done|done|done].
      by rewrite firstn_all. }
    exists (put_watcher_subs t st s), st.1.
    exists (if decide (w = t) then st.1 else x).
    split_and!; try done.
    + apply lookup_insert_eq.
    + rewrite Hnew. apply set_eq. intros d. rewrite !elem_of_union, !elem_of_list_to_set.
      by rewrite elem_of_reverse.
    + intros d Hd Hnc Hnn. unfold dep_subs. simpl.
      apply collect_subs. right. simpl. by rewrite elem_of_reverse.
    + simpl. destruct (decide (w = t)) as [->|Hne];
        [apply lookup_insert_eq | by rewrite lookup_insert_ne].
    + destruct (decide (w = t)) as [->|Hne]; [|done]. rewrite Hdeps. congruence.
Qed.

(** X3.  When the callback of a user watcher throws, [run] returns all the
    same: the exception goes to [handleError] with the label naming the
    watcher's expression, after the new value has been cached.  The callback
    of any other watcher throws through [run]. *)
Theorem run_contains_user_callback_errors (w : wid) (x x1 x3 : Watcher)
    (s s1 s3 : State) (v : value) (e : exn) :
  watchers s !! w = Some x →
  w_active x = true →
  get w s = Ok v s1 →
  watchers s1 !! w = Some x1 →
  negb (strict_eq v (w_value x)) || isObject v || w_deep x = true →
  cb w v (w_value x) (set_watchers <[w := with_value v x1]> s1) = Throw e s3 →
  watchers s3 !! w = Some x3 →
  run w s =
  if w_user x
  then Ok tt (set_log (fun l => l ++ [HandleError e (w_vm x3) (callback_label (w_expression x3))]) s3)
  else Throw e s3.
Proof.
  intros Hx Hact Hget Hx1 Hfire Hcb Hx3.
  destruct (get_frame w x s s1 Hx) as (x1' & Hx1' & Hvm & Hex & Hdeep & Huser & _ & Hval).
  { by rewrite Hget. }
  assert (x1' = x1) as -> by congruence.
  unfold run.
  erewrite bind_Ok by by apply this_watcher_Ok. rewrite Hact.
  erewrite bind_Ok by done.
  erewrite bind_Ok by by apply this_watcher_Ok.
  rewrite Hval, Hdeep, Hfire.
  erewrite bind_Ok by by apply update_watcher_Ok.
  erewrite bind_Ok by (apply this_watcher_Ok, lookup_insert_eq).
  simpl. rewrite Huser. destruct (w_user x).
  - unfold try_catch. rewrite Hcb.
    erewrite bind_Ok by by apply this_watcher_Ok. done.
  - done.
Qed.

End WatcherMore.

Section ConstructorProofs.
Context `{Host}.
Variable toString : fn → string.
Variable parsePath : string → bool.

Lemma new_Watcher_run vm v e options isRenderWatcher s :
  vms s !! vm = Some v →
  new_Watcher toString parsePath vm e options isRenderWatcher s =
  let this := S (watcher_uid s) in
  ((if option_flag options opt_lazy then ret tt
    else value <- get this ;; update_watcher this (with_value value)) ;;
   ret this) (registered toString parsePath vm e options isRenderWatcher s).
Proof.
  intros Hvm. unfold new_Watcher.
  erewrite bind_Ok by reflexivity.
  unfold the_vm at 1. unfold bind at 1. rewrite Hvm.
  erewrite bind_Ok by reflexivity.
  erewrite bind_Ok by reflexivity.
  erewrite bind_Ok by reflexivity.
  unfold registered, fresh_watcher. simpl.
  destruct e as [f|path]; simpl.
  - unfold bind at 1, ret at 1. done.
  - destruct (parsePath path); simpl.
    + unfold bind at 1, ret at 1. done.
    + destruct production; simpl.
      * unfold bind at 1, ret at 1. done.
      * unfold bind at 1, warn, modify. done.
Qed.

Lemma registered_frame vm v e options isRenderWatcher s :
  vms s !! vm = Some v →
  let s0 := registered toString parsePath vm e options isRenderWatcher s in
  watchers s0 = <[S (watcher_uid s) := fresh_watcher toString vm e options]> (watchers s) ∧
  watcher_uid s0 = S (watcher_uid s) ∧
  vms s0 = <[vm := mkVM (if isRenderWatcher then Some (S (watcher_uid s)) else _watcher v)
                        (_watchers v ++ [S (watcher_uid s)]) (_isBeingDestroyed v)]> (vms s) ∧
  subs s0 = subs s ∧ targetStack s0 = targetStack s ∧ heap s0 = heap s ∧
  closures s0 = closures s ∧ observers s0 = observers s ∧ dep_uid s0 = dep_uid s.
Proof.
  intros Hvm. unfold registered.
  destruct e as [f|path]; [|destruct (negb (parsePath path) && negb production)]; simpl;
    by rewrite (alter_lookup_insert _ _ _ v).
Qed.

(** X4.  A lazy watcher is not evaluated by its constructor: the new
    Watcher has the next id, is dirty, active, without a value and without
    Deps, and is appended to [vm._watchers] (and is [vm._watcher] when it is
    the render watcher); no Dep has a new subscriber and the target stack is
    as it was. *)
Theorem new_Watcher_lazy_is_not_evaluated (vm : vmid) (v : VM) (e : expOrFn)
    (options : option watcher_options) (isRenderWatcher : bool) (s : State) :
  vms s !! vm = Some v →
  option_flag options opt_lazy = true →
  ∃ s' x,
    new_Watcher toString parsePath vm e options isRenderWatcher s
      = Ok (S (watcher_uid s)) s' ∧
    s' = registered toString parsePath vm e options isRenderWatcher s ∧
    watchers s' !! S (watcher_uid s) = Some x ∧
    w_lazy x = true ∧ w_dirty x = true ∧ w_active x = true ∧
    w_value x = VUndef ∧ w_deps x = [] ∧ w_depIds x = ∅ ∧
    subs s' = subs s ∧ targetStack s' = targetStack s ∧
    watcher_uid s' = S (watcher_uid s) ∧
    vms s' !! vm =
      Some (mkVM (if isRenderWatcher then Some (S (watcher_uid s)) else _watcher v)
                 (_watchers v ++ [S (watcher_uid s)]) (_isBeingDestroyed v)).
Proof.
  intros Hvm Hlazy.
  destruct (registered_frame vm v e options isRenderWatcher s Hvm)
    as (Hw & Hu & Hv & Hs & Ht & _).
  eexists _, (fresh_watcher toString vm e options).
  rewrite (new_Watcher_run vm v) by done. simpl. rewrite Hlazy.
  split; [reflexivity|]. split; [reflexivity|].
  rewrite Hw, Hv, !lookup_insert_eq. unfold fresh_watcher. rewrite Hlazy. simpl.
  done.
Qed.

(** X5.  A watcher that is not lazy is evaluated once by its constructor,
    with itself as the active watcher.  When the getter returns (or throws
    inside a user watcher, which gives [undefined]) the constructor returns
    the new id; the Watcher caches that value, its [deps] are the Deps read
    during the evaluation, each once, and it is subscribed to every one of
    them; it is in [vm._watchers], and the target stack is as it was. *)
Theorem new_Watcher_evaluates_once (vm : vmid) (v : VM) (e : expOrFn)
    (options : option watcher_options) (isRenderWatcher : bool) (s : State)
    (value : value) :
  vms s !! vm = Some v →
  option_flag options opt_lazy = false →
  let this := S (watcher_uid s) in
  let s0 := registered toString parsePath vm e options isRenderWatcher s in
  match (evaluator this (set_targetStack (cons this) s0)).2 with
  | inl r => r = value
  | inr _ => option_flag options opt_user = true ∧ value = VUndef
  end →
  ∃ s' x,
    new_Watcher toString parsePath vm e options isRenderWatcher s = Ok this s' ∧
    watchers s' !! this = Some x ∧
    w_value x = value ∧ w_active x = true ∧
    NoDup (w_deps x) ∧
    (∀ d, d ∈ w_deps x ↔ d ∈ reads_of_run this s0) ∧
    (∀ d, d ∈ reads_of_run this s0 → this ∈ dep_subs d s') ∧
    targetStack s' = targetStack s ∧
    (∃ v', vms s' !! vm = Some v' ∧ this ∈ _watchers v').
Proof.
  intros Hvm Hlazy this s0 Hout.
  destruct (registered_frame vm v e options isRenderWatcher s Hvm)
    as (Hw & Hu & Hv & Hs & Ht & _). fold s0 in Hw, Hu, Hv, Hs, Ht.
  set (x0 := fresh_watcher toString vm e options) in *.
  assert (watchers s0 !! this = Some x0) as Hx0 by (rewrite Hw; apply lookup_insert_eq).
  assert (between_runs x0) as Hb by done.
  pose proof (reconciled_props this x0 s0 Hb) as Hp. simpl in Hp.
  destruct Hp as (_ & Hnd & Hmem & Hsub & _ & _).
  pose proof (collect_frame this (reads_of_run this s0) (x0, subs s0)) as Hf. simpl in Hf.
  destruct Hf as (_&_&_&_&_&_&_&Hact&_).
  set (s1 := match (evaluator this (set_targetStack (cons this) s0)).2 with
             | inr err =>
                 put_watcher_subs this (reconciled this x0 s0)
                   (set_log (fun l => l ++ [HandleError err (w_vm x0) (getter_label (w_expression x0))]) s0)
             | inl _ => put_watcher_subs this (reconciled this x0 s0) s0
             end).
  assert (get this s0 = Ok value s1) as Hget.
  { rewrite (get_run this x0 s0 Hx0). subst s1.
    destruct (evaluator this (set_targetStack (cons this) s0)).2 as [r|err].
    - by subst r.
    - destruct Hout as [Hu' ->]. unfold x0 at 1, fresh_watcher. simpl. by rewrite Hu'. }
  assert (watchers s1 !! this = Some (reconciled this x0 s0).1) as Hx1.
  { subst s1. destruct (evaluator this (set_targetStack (cons this) s0)).2;
      apply lookup_insert_eq. }
  assert (subs s1 = (reconciled this x0 s0).2 ∧ targetStack s1 = targetStack s0 ∧
          vms s1 = vms s0) as (Hs1 & Ht1 & Hv1).
  { subst s1. by destruct (evaluator this (set_targetStack (cons this) s0)).2. }
  eexists _, (with_value value (reconciled this x0 s0).1).
  rewrite (new_Watcher_run vm v) by done. simpl. rewrite Hlazy.
  fold this. fold s0.
  unfold bind at 1. erewrite bind_Ok by exact Hget.
  erewrite update_watcher_Ok by exact Hx1.
  split; [reflexivity|].
  split_and!; try done.
  - apply lookup_insert_eq.
  - intros d Hd. unfold dep_subs. simpl. rewrite Hs1. apply Hsub; [done|].
    intros Hin. unfold x0, fresh_watcher in Hin. simpl in Hin. set_solver.
  - simpl. congruence.
  - simpl. rewrite Hv1, Hv, lookup_insert_eq. eexists. split; [done|]. simpl.
    set_solver.
Qed.

(** X6.  When the getter of a watcher that is neither lazy nor a user
    watcher throws during construction, the constructor throws the same
    exception, and the half-built Watcher stays behind: it is still in
    [vm._watchers] and in the store, active and without a value, subscribed
    to the Deps that were read before the exception.  The target stack is
    as it was. *)
Theorem new_Watcher_getter_throws (vm : vmid) (v : VM) (e : expOrFn)
    (options : option watcher_options) (isRenderWatcher : bool) (s : State)
    (err : exn) :
  vms s !! vm = Some v →
  option_flag options opt_lazy = false →
  option_flag options opt_user = false →
  let this := S (watcher_uid s) in
  let s0 := registered toString parsePath vm e options isRenderWatcher s in
  (evaluator this (set_targetStack (cons this) s0)).2 = inr err →
  ∃ s' x,
    new_Watcher toString parsePath vm e options isRenderWatcher s = Throw err s' ∧
    watchers s' !! this = Some x ∧
    w_value x = VUndef ∧ w_active x = true ∧
    (∀ d, d ∈ w_deps x ↔ d ∈ reads_of_run this s0) ∧
    (∀ d, d ∈ reads_of_run this s0 → this ∈ dep_subs d s') ∧
    targetStack s' = targetStack s ∧
    (∃ v', vms s' !! vm = Some v' ∧ this ∈ _watchers v').
Proof.
  intros Hvm Hlazy Huser this s0 Hout.
  destruct (registered_frame vm v e options isRenderWatcher s Hvm)
    as (Hw & Hu & Hv & Hs & Ht & _). fold s0 in Hw, Hu, Hv, Hs, Ht.
  set (x0 := fresh_watcher toString vm e options) in *.
  assert (watchers s0 !! this = Some x0) as Hx0 by (rewrite Hw; apply lookup_insert_eq).
  assert (between_runs x0) as Hb by done.
  pose proof (reconciled_props this x0 s0 Hb) as Hp. simpl in Hp.
  destruct Hp as (_ & Hnd & Hmem & Hsub & _ & _).
  pose proof (collect_frame this (reads_of_run this s0) (x0, subs s0)) as Hf. simpl in Hf.
  destruct Hf as (_&_&_&_&_&_&_&Hact&_&_&Hval).
  assert (get this s0 = Throw err (put_watcher_subs this (reconciled this x0 s0) s0)) as Hget.
  { rewrite (get_run this x0 s0 Hx0), Hout. unfold x0 at 1, fresh_watcher. simpl.
    by rewrite Huser. }
  eexists _, (reconciled this x0 s0).1.
  rewrite (new_Watcher_run vm v) by done. simpl. rewrite Hlazy.
  fold this. fold s0.
  unfold bind. rewrite Hget.
  split; [reflexivity|].
  split_and!; try done.
  - apply lookup_insert_eq.
  - intros d Hd. unfold dep_subs. simpl. apply Hsub; [done|].
    intros Hin. unfold x0, fresh_watcher in Hin. simpl in Hin. set_solver.
  - simpl. rewrite Hv, lookup_insert_eq. eexists. split; [done|]. simpl.
    set_solver.
Qed.

End ConstructorProofs.

Section ObserverMore.
Context `{Host}.

Lemma bind_bind {A B C} (m : M A) (f : A → M B) (g : B → M C) s :
  bind (bind m f) g s = bind m (fun a => bind (f a) g) s.
Proof. unfold bind. by destruct (m s). Qed.

(** X7.  [reactiveGetter] returns the value of the property (the closure's
    value, or what the getter the property had returns).  With no active
    watcher it does nothing else.  With an active watcher, the Dep of the
    property is collected by that watcher; when the value has a child
    Observer, the Dep of that Observer is collected as well, and an array
    value goes on to [dependArray]. *)
Theorem reactiveGetter_collects (fuel : nat) (c : cid) (cl cl1 : Closure)
    (v : value) (s s1 : State) :
  closures s !! c = Some cl →
  closure_value cl s = Ok v s1 →
  closures s1 !! c = Some cl1 →
  (Dep_target s1 = None → reactiveGetter fuel c s = Ok v s1) ∧
  (∀ w x, Dep_target s1 = Some w → watchers s1 !! w = Some x →
     match c_childOb cl1 with
     | None =>
         reactiveGetter fuel c s =
         Ok v (put_watcher_subs w (collect w [c_dep cl] (x, subs s1)) s1)
     | Some childOb =>
         ∀ o, observers s1 !! childOb = Some o →
         let s2 := put_watcher_subs w (collect w [c_dep cl; ob_dep o] (x, subs s1)) s1 in
         (∀ r a, v = VRef r → heap s1 !! r = Some a → isArray a = true →
            reactiveGetter fuel c s = (dependArray fuel r ;; ret v) s2) ∧
         ((∀ r, v = VRef r → ∃ a, heap s1 !! r = Some a ∧ isArray a = false) →
            reactiveGetter fuel c s = Ok v s2)
     end).
Proof.
  intros Hc Hv Hc1. split.
  - intros Ht. unfold reactiveGetter.
    erewrite bind_Ok by by apply the_closure_Ok.
    erewrite bind_Ok by done.
    unfold bind at 1, gets at 1. rewrite Ht. done.
  - intros w x Ht Hx.
    assert (∀ k : value → Closure → M unit,
              (cl <- the_closure c ;;
               v0 <- closure_value cl ;;
               t <- gets Dep_target ;;
               (if t is Some _ then
                  dep_depend (c_dep cl) ;;
                  cl' <- the_closure c ;;
                  k v0 cl'
                else ret tt) ;;
               ret v0) s
              = (k v cl1 ;; ret v)
                  (put_watcher_subs w (collect w [c_dep cl] (x, subs s1)) s1)) as Hrun.
    { intros k.
      erewrite bind_Ok by by apply the_closure_Ok.
      erewrite bind_Ok by done.
      unfold bind at 1, gets at 1. rewrite Ht.
      rewrite bind_bind. erewrite bind_Ok by by apply dep_depend_run.
      rewrite bind_bind. erewrite bind_Ok by by apply the_closure_Ok.
      done. }
    specialize (Hrun (fun v0 cl' =>
      match c_childOb cl' with
      | Some childOb =>
          o <- the_observer childOb ;;
          dep_depend (ob_dep o) ;;
          a <- is_array_value v0 ;;
          match v0 with
          | VRef r => when a (dependArray fuel r)
          | _ => ret tt
          end
      | None => ret tt
      end)). cbv beta in Hrun.
    unfold reactiveGetter.
    set (st1 := addDep_step w (c_dep cl) (x, subs s1)).
    destruct (c_childOb cl1) as [childOb|] eqn:Hch.
    2:{ rewrite Hrun. done. }
    intros o Ho. rewrite !Hrun.
    set (s2 := put_watcher_subs w (collect w [c_dep cl; ob_dep o] (x, subs s1)) s1).
    assert (∀ k : M unit,
              ((o <- the_observer childOb ;; dep_depend (ob_dep o) ;; k) ;; ret v)
                (put_watcher_subs w (collect w [c_dep cl] (x, subs s1)) s1)
              = (k ;; ret v) s2) as Hk.
    { intros k.
      rewrite bind_bind. erewrite bind_Ok by by apply the_observer_Ok.
      rewrite bind_bind.
      erewrite bind_Ok by (apply (dep_depend_run w _ _ st1.1); [apply lookup_insert_eq|done]).
      rewrite put_watcher_subs_twice. subst s2. simpl. fold st1.
      by destruct st1. }
    split.
    + intros r a -> Ha Harr. rewrite Hk. rewrite bind_bind. unfold is_array_value.
      rewrite bind_bind. erewrite bind_Ok by by apply the_obj_Ok.
      unfold bind at 1, ret at 1. by rewrite Harr.
    + intros Hnot. destruct v as [| | | | | |r|]; rewrite Hk; try done.
      destruct (Hnot r eq_refl) as (a & Ha & Harr).
      rewrite bind_bind. unfold is_array_value.
      rewrite bind_bind. erewrite bind_Ok by by apply the_obj_Ok.
      unfold bind at 1, ret at 1. by rewrite Harr.
Qed.

End ObserverMore.

Section ObserveMore.
Context `{Host}.

(** X8.  [observe] does not wrap an object that carries no [__ob__] when
    observation is switched off, during server rendering, when the object is
    neither an array nor a plain object, when it is not extensible (frozen,
    sealed, or after [preventExtensions]), or when it is a Vue instance: it
    returns [undefined] and the store is as before. *)
Theorem observe_refuses (fuel : nat) (r : loc) (o : Obj) (asRootData : bool) (s : State) :
  heap s !! r = Some o →
  cls o ≠ CVNode →
  hasOwn o ob_key = false →
  shouldObserve s = false ∨ isServerRendering = true ∨ cls o = CHost ∨
    extensible o = false ∨ _isVue o = true →
  observe fuel (VRef r) asRootData s = Ok None s.
Proof.
  intros Ho Hcls Hown Hno.
  rewrite observe_unfold. unfold observe_with.
  erewrite bind_Ok by by apply instanceof_VNode_ref.
  rewrite bool_decide_eq_false_2 by done. simpl.
  erewrite bind_Ok by by apply the_obj_Ok.
  rewrite Hown. erewrite bind_Ok by reflexivity. cbv iota.
  rewrite bind_bind. erewrite bind_Ok by reflexivity.
  rewrite bind_bind. erewrite bind_Ok by by apply the_obj_Ok.
  replace (shouldObserve s && negb isServerRendering && (isArray o || isPlainObject o)
           && extensible o && negb (_isVue o)) with false; [done|].
  symmetry. destruct Hno as [-> | [-> | [Hc | [-> | ->]]]].
  - done.
  - by rewrite andb_false_r.
  - unfold isArray, isPlainObject. rewrite Hc. simpl.
    by rewrite andb_false_r.
  - by rewrite andb_false_r.
  - by rewrite !andb_false_r.
Qed.

(** X9.  After [toggleObserving(false)], [observe] wraps nothing new: for
    an object without [__ob__] it returns [undefined] and only the switch has
    changed.  An object that carries an Observer still gets that Observer
    back.  Switching observation off and on again restores the store. *)
Theorem toggleObserving_off_wraps_nothing_new (fuel : nat) (r : loc) (s : State) :
  (∀ o a, heap s !! r = Some o → cls o ≠ CVNode → hasOwn o ob_key = false →
     (toggleObserving false ;; observe fuel (VRef r) a) s
     = Ok None (set_shouldObserve false s)) ∧
  (∀ ob, carries s r ob →
     (toggleObserving false ;; observe fuel (VRef r) false) s
     = Ok (Some ob) (set_shouldObserve false s)) ∧
  (shouldObserve s = true →
     (toggleObserving false ;; toggleObserving true) s = Ok tt s).
Proof.
  split_and!.
  - intros o a Ho Hcls Hown. unfold toggleObserving.
    erewrite bind_Ok by reflexivity.
    rewrite observe_unfold. unfold observe_with.
    erewrite bind_Ok by by apply instanceof_VNode_ref.
    rewrite bool_decide_eq_false_2 by done. simpl.
    erewrite bind_Ok by by apply the_obj_Ok.
    rewrite Hown. erewrite bind_Ok by reflexivity. cbv iota.
    rewrite bind_bind. erewrite bind_Ok by reflexivity.
    rewrite bind_bind. erewrite bind_Ok by by apply the_obj_Ok.
    done.
  - intros ob Hcar. unfold toggleObserving.
    erewrite bind_Ok by reflexivity.
    by rewrite (observe_carried fuel r ob false).
  - intros Hs. unfold toggleObserving, bind, modify, set_shouldObserve. simpl.
    rewrite <- Hs. by destruct s.
Qed.

Lemma new_Dep_inv d s s' :
  new_Dep s = Ok d s' → d = dep_uid s ∧ s' = with_new_Dep s.
Proof. by intros [= <- <-]. Qed.

(** An accessor defined on an object: where it ends up. *)
Lemma defineProperty_accessor_inv r k g st e c s s' :
  defineProperty r k (PAccessor g st e c) s = Ok tt s' →
  ∃ o, heap s !! r = Some o ∧
    heap s' = <[r := with_props (ainsert k (PAccessor g st e c) (props o)) o]> (heap s) ∧
    own_property (with_props (ainsert k (PAccessor g st e c) (props o)) o) k
      = Some (PAccessor g st e c) ∧
    closures s' = closures s ∧ targetStack s' = targetStack s ∧
    observers s' = observers s ∧ subs s' = subs s ∧ watchers s' = watchers s ∧
    dep_uid s' = dep_uid s ∧ log s' = log s.
Proof.
  intros Hd. unfold defineProperty in Hd.
  apply bind_Ok_inv in Hd as (o & s1 & [-> Ho]%the_obj_inv & Hd).
  assert (store_property r k (PAccessor g st e c) s = Ok tt s') as Hs.
  { destruct (own_property o k) as [p|]; [destruct (pd_configurable p)|destruct (extensible o)];
      done. }
  clear Hd. unfold store_property in Hs.
  apply bind_Ok_inv in Hs as (o1 & s1 & [-> Ho1]%the_obj_inv & Hs).
  assert (o1 = o) as -> by congruence.
  exists o. split; [done|].
  assert (update_obj r (fun o => with_props (ainsert k (PAccessor g st e c) (props o)) o) s
          = Ok tt s' ∧ ¬ (cls o = CArray ∧ (k = length_key ∨ ∃ n, k = KIndex n))) as [Hu Hk].
  { destruct (cls o) eqn:Hcls, k as [kn|n]; simpl in Hs; try done;
      try (case_decide; [done|]); (split; [done|]); naive_solver. }
  injection Hu as <-. simpl.
  split_and!; try done.
  - by rewrite (alter_lookup_insert _ _ _ o).
  - unfold own_property. simpl.
    destruct (cls o) eqn:Hcls, k as [kn|n]; try apply alookup_ainsert_eq.
    + rewrite decide_False by naive_solver. apply alookup_ainsert_eq.
    + exfalso. apply Hk. eauto.
Qed.

(** What [defineReactive] leaves behind on a key that was absent or a
    configurable data property. *)
Lemma defineReactive_with_installs (fuel : nat)
    (observe_rec : value → bool → M (option obid))
    (r : loc) (key : pkey) (args : define_args) (o : Obj) (s s' : State) :
  heap s !! r = Some o →
  (own_property o key = None ∨
   ∃ v0 wr en, own_property o key = Some (PData v0 wr en true)) →
  defineReactive_with fuel observe_rec r key args s = Ok tt s' →
  let val :=
    match args with
    | TwoArgs =>
        match own_property o key with Some (PData v0 _ _ _) => v0 | _ => VUndef end
    | WithVal val _ _ => val
    end in
  ∃ o' c cl,
    heap s' !! r = Some o' ∧
    own_property o' key
      = Some (PAccessor (Some (FReactiveGetter c)) (Some (FReactiveSetter c)) true true) ∧
    closures s' !! c = Some cl ∧
    c_val cl = val ∧ c_getter cl = None ∧ c_setter cl = None ∧
    c_dep cl = dep_uid s ∧ dep_subs (c_dep cl) (with_new_Dep s) = [] ∧
    (Dep_target s' = None → ∀ fuel', js_get fuel' r key s' = Ok val s').
Proof.
  intros Ho Hprop Hrun val. unfold defineReactive_with in Hrun.
  apply bind_Ok_inv in Hrun as (dep & s1 & [-> ->]%new_Dep_inv & Hrun).
  apply bind_Ok_inv in Hrun as (o1 & s1 & [-> Ho1]%the_obj_inv & Hrun).
  assert (o1 = o) as -> by (simpl in Ho1; congruence).
  assert (bool_decide (pd_configurable <$> own_property o key = Some false) = false) as Hcf.
  { apply bool_decide_eq_false_2. destruct Hprop as [->|(v0 & wr & en & ->)]; done. }
  assert (own_property o key ≫= pd_get = None ∧ own_property o key ≫= pd_set = None)
    as [Hg Hst].
  { destruct Hprop as [->|(v0 & wr & en & ->)]; done. }
  rewrite Hcf, Hg, Hst in Hrun. simpl in Hrun.
  apply bind_Ok_inv in Hrun as (val' & s1 & Hval & Hrun).
  assert (val' = val ∧ s1 = with_new_Dep s) as [-> ->].
  { subst val. destruct args as [|val0 cs sh]; simpl in Hval.
    - unfold js_get in Hval.
      apply bind_Ok_inv in Hval as (o1 & s1' & [-> Ho1']%the_obj_inv & Hval).
      assert (o1 = o) as -> by (simpl in Ho1'; congruence).
      destruct Hprop as [Hp|(v0 & wr & en & Hp)]; rewrite Hp in Hval |- *.
      + destruct (bool_decide (key ∈ inherited o)); [done|]. by injection Hval as <- <-.
      + by injection Hval as <- <-.
    - by injection Hval as <- <-. }
  apply bind_Ok_inv in Hrun as (childOb & s2 & Hch & Hrun).
  apply bind_Ok_inv in Hrun as (c & s3 & Hal & Hrun).
  injection Hal as <- <-.
  set (c := fresh (dom (closures s2))) in *.
  apply defineProperty_accessor_inv in Hrun
    as (o3 & Ho3 & Hh & Hown & Hcl & Hts & _).
  set (cl := mkClosure r key val childOb None None (arg_customSetter args)
               (arg_shallow args) (dep_uid s)) in *.
  assert (closures s' !! c = Some cl) as Hc by (rewrite Hcl; apply lookup_insert_eq).
  eexists _, c, cl. split_and!; try done.
  - rewrite Hh. apply lookup_insert_eq.
  - unfold dep_subs, with_new_Dep. simpl. by rewrite lookup_insert_eq.
  - intros Ht fuel'. unfold js_get.
    erewrite bind_Ok by (apply the_obj_Ok; rewrite Hh; apply lookup_insert_eq).
    rewrite Hown. unfold reactiveGetter.
    erewrite bind_Ok by by apply the_closure_Ok.
    erewrite bind_Ok by reflexivity.
    unfold bind at 1, gets at 1. rewrite Ht. done.
Qed.



End ObserveMore.

Section SetMore.
Context `{Host}.

Lemma ainsert_absent {A} (k : pkey) (a : A) l :
  alookup k l = None → ainsert k a l = l ++ [(k, a)].
Proof.
  induction l as [|[k0 a0] l IH]; simpl; [done|].
  destruct (decide (k = k0)); [done|]. intros Hl. by rewrite IH.
Qed.

Lemma alookup_app_absent {A} (k k' : pkey) (a : A) l :
  alookup k l = None → alookup k' (l ++ [(k, a)]) =
  if decide (k' = k) then match alookup k' l with Some x => Some x | None => Some a end
  else alookup k' l.
Proof.
  induction l as [|[k0 a0] l IH]; simpl.
  - intros _. by destruct (decide (k' = k)).
  - destruct (decide (k = k0)); [done|]. intros Hl. rewrite (IH Hl).
    destruct (decide (k' = k0)) as [->|]; [|done].
    by destruct (decide (k0 = k)).
Qed.

(** The warning a primitive target gets, in development builds. *)
Lemma warn_run msg s : warn msg s = Ok tt (set_log (fun l => l ++ [Warn msg]) s).
Proof. done. Qed.


(** [ob.vmCount] is zero, or there is no Observer: the target is not a root. *)
Lemma set_not_refused (o : Obj) (ob : value) s :
  _isVue o = false →
  (∀ i, ob = VObs i → ∃ this, observers s !! i = Some this ∧ vmCount this = 0) →
  (∀ r', ob ≠ VRef r') →
  (if _isVue o then ret true
   else match ob with
        | VObs i => this <- the_observer i ;;
                    ret (negb (bool_decide (vmCount this = 0)))
        | VRef _ => stuck
        | _ => ret false
        end) s = Ok false s.
Proof.
  intros -> Hobs Href. destruct ob as [| | | | | |r'|i]; try done.
  - by destruct (Href r').
  - destruct (Hobs i eq_refl) as (this & Hi & Hz).
    erewrite bind_Ok by by apply the_observer_Ok.
    by rewrite bool_decide_eq_true_2.
Qed.

Lemma get_ob_absent r o s :
  heap s !! r = Some o → own_property o ob_key = None → ob_key ∉ inherited o →
  get_ob r s = Ok VUndef s.
Proof.
  intros Ho Hp Hi. unfold get_ob. erewrite bind_Ok by by apply the_obj_Ok.
  rewrite Hp. by rewrite bool_decide_eq_false_2.
Qed.

(** What [own_property] is, away from the index slots and the length of an
    array. *)
Lemma own_property_alookup o k :
  ¬ (cls o = CArray ∧ (k = length_key ∨ ∃ n, k = KIndex n)) →
  own_property o k = alookup k (props o).
Proof.
  intros Hk. unfold own_property. destruct (cls o) eqn:Hcls, k as [kn|n]; try done.
  - rewrite decide_False; [done|]. intros Heq. apply Hk. split; [done|by left].
  - destruct Hk. split; [done|]. right. by exists n.
Qed.

Lemma absent_not_special o k :
  own_property o k = None →
  (isArray o = true → isValidArrayIndex k = None) →
  ¬ (cls o = CArray ∧ (k = length_key ∨ ∃ n, k = KIndex n)).
Proof.
  intros Hp Harr [Hcls [->|[n ->]]].
  - unfold own_property in Hp. by rewrite Hcls in Hp.
  - unfold isArray in Harr. rewrite bool_decide_eq_true_2 in Harr by done.
    by specialize (Harr eq_refl).
Qed.

Lemma store_property_props r o k d s :
  heap s !! r = Some o →
  ¬ (cls o = CArray ∧ (k = length_key ∨ ∃ n, k = KIndex n)) →
  store_property r k d s
  = Ok tt (set_heap <[r := with_props (ainsert k d (props o)) o]> s).
Proof.
  intros Ho Hk. unfold store_property.
  erewrite bind_Ok by by apply the_obj_Ok.
  assert (update_obj r (fun o => with_props (ainsert k d (props o)) o) s
          = Ok tt (set_heap <[r := with_props (ainsert k d (props o)) o]> s)) as Hu.
  { unfold update_obj, modify, set_heap. by rewrite (alter_lookup_insert _ _ _ o). }
  destruct (cls o) eqn:Hcls, k as [kn|n]; simpl;
    try (rewrite decide_False by naive_solver); try done.
  destruct Hk. split; [done|]. right. by exists n.
Qed.

Lemma store_new_data r o k v s :
  heap s !! r = Some o →
  own_property o k = None →
  (isArray o = true → isValidArrayIndex k = None) →
  store_property r k (PData v true true true) s
  = Ok tt (set_heap <[r := with_props (props o ++ [(k, PData v true true true)]) o]> s).
Proof.
  intros Ho Hp Harr.
  pose proof (absent_not_special o k Hp Harr) as Hk.
  rewrite (store_property_props r o) by done.
  rewrite ainsert_absent; [done|]. by rewrite <- own_property_alookup.
Qed.

(** X12.  [set] of a new key on an object that has no Observer and is not a
    Vue instance is the plain assignment [target[key] = val]: the key is
    appended as a writable, enumerable, configurable data property holding
    [val], [val] is returned, and nothing else changes: no Dep is created
    and nothing is notified. *)
Theorem set_on_unobserved_is_assignment (fuel : nat) (r : loc) (o : Obj) (key : pkey)
    (val : value) (s : State) :
  heap s !! r = Some o →
  (isArray o = true → isValidArrayIndex key = None) →
  has_property o key = false →
  own_property o ob_key = None → ob_key ∉ inherited o →
  _isVue o = false →
  extensible o = true →
  key ≠ KName "__proto__" →
  ∃ s',
    set fuel (VRef r) key val s = Ok val s' ∧
    s' = set_heap <[r := with_props (props o ++ [(key, PData val true true true)]) o]> s ∧
    stored_on s' r key val ∧
    (∀ k p, k ≠ key → own_property o k = Some p →
       ∃ o', heap s' !! r = Some o' ∧ own_property o' k = Some p).
Proof.
  intros Ho Harr Hnew Hob Hinh Hvue Hext Hproto.
  assert (own_property o key = None) as Hown.
  { unfold has_property, hasOwn in Hnew. apply orb_false_iff in Hnew as [Hnew _].
    apply bool_decide_eq_false in Hnew. destruct (own_property o key); [|done].
    by destruct Hnew. }
  assert (isArray o && bool_decide (key = length_key) = false) as Hlen.
  { apply andb_false_iff. destruct (isArray o) eqn:Ha; [right|by left].
    apply bool_decide_eq_false_2. intros ->. unfold own_property in Hown.
    unfold isArray in Ha. apply bool_decide_eq_true in Ha. rewrite Ha in Hown. done. }
  eexists. split; [|split; [reflexivity|]].
  - unfold set. unfold when at 1. rewrite andb_false_r.
    unfold bind at 1, ret at 1.
    erewrite bind_Ok by by apply the_obj_Ok.
    assert (rest :
      (if has_property o key && negb (in_Object_prototype key)
       then js_set fuel r key val ;; ret val
       else
         ob <- get_ob r ;;
         o <- the_obj r ;;
         refused <- (if _isVue o then ret true
                     else match ob with
                          | VObs i => this <- the_observer i ;;
                                      ret (negb (bool_decide (vmCount this = 0)))
                          | VRef _ => stuck
                          | _ => ret false
                          end) ;;
         if refused : bool then
           when (negb production) (warn set_warning_root) ;;
           ret val
         else
           match ob with
           | VObs i =>
               this <- the_observer i ;;
               defineReactive fuel (ob_value this) key (WithVal val None false) ;;
               this <- the_observer i ;;
               dep_notify (ob_dep this) ;;
               ret val
           | VRef _ => stuck
           | _ =>
               if truthy ob then
                 new_Dep ;;
                 throw (TypeError "Cannot convert undefined or null to object")
               else js_set fuel r key val ;; ret val
           end) s
      = Ok val (set_heap <[r := with_props (props o ++ [(key, PData val true true true)]) o]> s)).
    { rewrite Hnew. simpl.
      erewrite bind_Ok by by apply (get_ob_absent r o).
      erewrite bind_Ok by by apply the_obj_Ok.
      erewrite bind_Ok by (by apply (set_not_refused o VUndef)).
      simpl. unfold js_set.
      rewrite bind_bind. erewrite bind_Ok by by apply the_obj_Ok.
      rewrite (bool_decide_eq_false_2 (key = _)) by done. rewrite Hlen. simpl.
      rewrite Hown, Hext.
      erewrite bind_Ok by by apply store_new_data. done. }
    destruct (isArray o) eqn:Ha; [|exact rest].
    rewrite (Harr eq_refl). exact rest.
  - assert (own_property
              (with_props (props o ++ [(key, PData val true true true)]) o) key
            = Some (PData val true true true)) as Hst.
    { unfold own_property in Hown |- *. simpl.
      destruct (cls o) eqn:Hcls, key as [kn|n];
        try (rewrite alookup_app_absent by done; rewrite decide_True by done;
             by rewrite Hown).
      - destruct (decide (KName kn = length_key)); [done|].
        rewrite alookup_app_absent by done. rewrite decide_True by done. by rewrite Hown.
      - unfold isArray in Harr. rewrite Hcls in Harr.
        rewrite bool_decide_eq_true_2 in Harr by done. by specialize (Harr eq_refl). }
    split.
    + eexists _, true, true, true. simpl. rewrite lookup_insert_eq. done.
    + intros k p Hk Hp. eexists. simpl. rewrite lookup_insert_eq. split; [done|].
      assert (alookup key (props o) = None) as Hal.
      { unfold own_property in Hown. destruct (cls o) eqn:Hcls, key as [kn|n]; try done.
        - by destruct (decide (KName kn = length_key)).
        - unfold isArray in Harr. rewrite Hcls in Harr.
          rewrite bool_decide_eq_true_2 in Harr by done. by specialize (Harr eq_refl). }
      unfold own_property in Hp |- *. simpl.
      destruct (cls o) eqn:Hcls, k as [kn|n];
        try (rewrite alookup_app_absent by done; by rewrite decide_False by done).
      * destruct (decide (KName kn = length_key)); [done|].
        rewrite alookup_app_absent by done. by rewrite decide_False by done.
      * done.
Qed.

End SetMore.

Section SetMore2.
Context `{Host}.

Lemma write_elem_lookup n v l : write_elem n v l !! n = Some (Some v).
Proof.
  unfold write_elem. case_decide.
  - by apply list_lookup_insert_eq.
  - rewrite lookup_app_r by lia. rewrite lookup_app_r; rewrite length_replicate; [|lia].
    by replace (n - length l - (n - length l)) with 0 by lia.
Qed.

Lemma write_elem_length n v l : length (write_elem n v l) = max (length l) (S n).
Proof.
  unfold write_elem. case_decide.
  - rewrite length_insert. lia.
  - rewrite !length_app, length_replicate. simpl. lia.
Qed.

Lemma write_elem_other n v l i :
  i < length l → i ≠ n → write_elem n v l !! i = l !! i.
Proof.
  intros Hi Hn. unfold write_elem. case_decide.
  - by apply list_lookup_insert_ne.
  - by rewrite lookup_app_l.
Qed.

Lemma update_obj_run r f o s :
  heap s !! r = Some o → update_obj r f s = Ok tt (set_heap <[r := f o]> s).
Proof.
  intros Ho. unfold update_obj, modify, set_heap.
  by rewrite (alter_lookup_insert _ _ _ o).
Qed.

Lemma set_heap_insert_twice r a b s :
  set_heap <[r := a]> (set_heap <[r := b]> s) = set_heap <[r := a]> s.
Proof. unfold set_heap. simpl. by rewrite insert_insert_eq. Qed.

Lemma set_heap_lookup r a s : heap (set_heap <[r := a]> s) !! r = Some a.
Proof. apply lookup_insert_eq. Qed.

Lemma native_splice_padded r o n val s :
  n < length (elems o) ∨ extensible o = true →
  native_splice r n val
    (set_heap <[r := with_elems (elems o ++ replicate (n - length (elems o)) None) o]> s)
  = Ok tt (set_heap <[r := with_elems (write_elem n val (elems o)) o]> s).
Proof.
  intros Hn. unfold native_splice.
  erewrite bind_Ok by (apply the_obj_Ok, set_heap_lookup).
  cbn [elems with_elems extensible]. rewrite length_app, length_replicate.
  unfold write_elem.
  destruct (decide (n < length (elems o))) as [Hlt|Hge].
  - rewrite decide_True by lia.
    erewrite update_obj_run by apply set_heap_lookup.
    rewrite set_heap_insert_twice. cbn [elems with_elems].
    replace (n - length (elems o)) with 0 by lia. simpl. by rewrite app_nil_r.
  - rewrite decide_False by lia.
    destruct Hn as [? | ->]; [lia|].
    erewrite update_obj_run by apply set_heap_lookup.
    rewrite set_heap_insert_twice. cbn [elems with_elems]. by rewrite <- app_assoc.
Qed.


End SetMore2.

Section DelProofs.
Context `{Host}.


Lemma alookup_filter_eq {A} (k : pkey) (l : list (pkey * A)) :
  alookup k (filter (fun kp => kp.1 ≠ k) l) = None.
Proof.
  induction l as [|[k0 a0] l IH]; simpl; [done|].
  rewrite filter_cons. simpl. destruct (decide (k0 ≠ k)) as [Hne|Heq]; simpl; [|done].
  by rewrite decide_False by done.
Qed.

Lemma alookup_filter_ne {A} (k k' : pkey) (l : list (pkey * A)) :
  k' ≠ k → alookup k' (filter (fun kp => kp.1 ≠ k) l) = alookup k' l.
Proof.
  intros Hne. induction l as [|[k0 a0] l IH]; simpl; [done|].
  rewrite filter_cons. simpl. destruct (decide (k0 ≠ k)) as [Hk|Hk]; simpl.
  - by rewrite IH.
  - apply dec_stable in Hk. subst k0. by rewrite decide_False by done.
Qed.

Lemma filter_absent {A} (k : pkey) (l : list (pkey * A)) :
  alookup k l = None → filter (fun kp => kp.1 ≠ k) l = l.
Proof.
  induction l as [|[k0 a0] l IH]; simpl; [done|].
  destruct (decide (k = k0)) as [->|Hne]; [done|]. intros Hl.
  rewrite filter_cons. simpl. rewrite decide_True by done. by rewrite IH.
Qed.

Lemma js_delete_run r o key p s :
  heap s !! r = Some o →
  own_property o key = Some p →
  ¬ (cls o = CArray ∧ ∃ n, key = KIndex n) →
  js_delete r key s =
  if pd_configurable p
  then Ok tt (set_heap <[r := with_props (filter (fun kp => kp.1 ≠ key) (props o)) o]> s)
  else Throw (TypeError "Cannot delete property") s.
Proof.
  intros Ho Hp Hk. unfold js_delete.
  erewrite bind_Ok by by apply the_obj_Ok.
  rewrite Hp. destruct (pd_configurable p); [|done].
  destruct (cls o) eqn:Hcls, key as [kn|n];
    try (by apply (update_obj_run r (fun o => with_props (filter _ (props o)) o) o)).
  destruct Hk. split; [done|]. by exists n.
Qed.

(** The target of [del] is not a root: what is left of [del]. *)
Lemma del_not_root r o key ob s :
  heap s !! r = Some o →
  (isArray o = true → isValidArrayIndex key = None) →
  get_ob r s = Ok ob s →
  _isVue o = false →
  (∀ i, ob = VObs i → ∃ this, observers s !! i = Some this ∧ vmCount this = 0) →
  (∀ r', ob ≠ VRef r') →
  del (VRef r) key s =
  (if negb (hasOwn o key) then ret tt
   else
     js_delete r key ;;
     if negb (truthy ob) then ret tt
     else
       match ob with
       | VObs i =>
           this <- the_observer i ;;
           dep_notify (ob_dep this)
       | VRef _ => stuck
       | _ => throw (TypeError "Cannot read property 'notify' of undefined")
       end) s.
Proof.
  intros Ho Harr Hob Hvue Hz Href.
  unfold del. unfold when at 1. rewrite andb_false_r.
  unfold bind at 1, ret at 1.
  erewrite bind_Ok by by apply the_obj_Ok.
  assert (rest :
    (ob <- get_ob r ;;
     o <- the_obj r ;;
     refused <- (if _isVue o then ret true
                 else match ob with
                      | VObs i => this <- the_observer i ;;
                                  ret (negb (bool_decide (vmCount this = 0)))
                      | VRef _ => stuck
                      | _ => ret false
                      end) ;;
     if refused : bool then
       when (negb production) (warn del_warning_root)
     else
       o <- the_obj r ;;
       if negb (hasOwn o key) then ret tt
       else
         js_delete r key ;;
         if negb (truthy ob) then ret tt
         else
           match ob with
           | VObs i =>
               this <- the_observer i ;;
               dep_notify (ob_dep this)
           | VRef _ => stuck
           | _ => throw (TypeError "Cannot read property 'notify' of undefined")
           end) s
    = (if negb (hasOwn o key) then ret tt
       else
         js_delete r key ;;
         if negb (truthy ob) then ret tt
         else
           match ob with
           | VObs i =>
               this <- the_observer i ;;
               dep_notify (ob_dep this)
           | VRef _ => stuck
           | _ => throw (TypeError "Cannot read property 'notify' of undefined")
           end) s).
  { erewrite bind_Ok by done.
    erewrite bind_Ok by by apply the_obj_Ok.
    erewrite bind_Ok by (by apply (set_not_refused o ob)).
    simpl. erewrite bind_Ok by by apply the_obj_Ok. done. }
  destruct (isArray o) eqn:Ha; [|exact rest].
  rewrite (Harr eq_refl). exact rest.
Qed.

(** X15.  [del] on a Vue instance or on an object whose Observer has a root
    count that is not zero warns in development builds and returns: the key
    is not deleted, the heap is as before and nothing is notified.  (A valid
    index on an array is spliced out before this test.) *)
Theorem del_on_root_refused (r : loc) (o : Obj) (key : pkey) (ob : value) (s : State) :
  heap s !! r = Some o →
  (isArray o = true → isValidArrayIndex key = None) →
  get_ob r s = Ok ob s →
  is_root s o ob →
  ∃ s',
    del (VRef r) key s = Ok tt s' ∧
    s' = (if production then s
          else set_log (fun l => l ++ [Warn del_warning_root]) s) ∧
    heap s' = heap s ∧ subs s' = subs s ∧ watchers s' = watchers s.
Proof.
  intros Ho Harr Hob Hroot.
  exists (if production then s else set_log (fun l => l ++ [Warn del_warning_root]) s).
  split; [|by destruct production].
  unfold del. unfold when at 1. rewrite andb_false_r.
  unfold bind at 1, ret at 1.
  erewrite bind_Ok by by apply the_obj_Ok.
  assert (refused_eq :
    (if _isVue o then ret true
     else match ob with
          | VObs i => this <- the_observer i ;;
                      ret (negb (bool_decide (vmCount this = 0)))
          | VRef _ => stuck
          | _ => ret false
          end) s = Ok true s).
  { destruct Hroot as [-> | (i & this & -> & Hi & Hn)]; [done|].
    destruct (_isVue o); [done|].
    erewrite bind_Ok by by apply the_observer_Ok.
    by rewrite bool_decide_eq_false_2. }
  assert (rest :
    (ob <- get_ob r ;;
     o <- the_obj r ;;
     refused <- (if _isVue o then ret true
                 else match ob with
                      | VObs i => this <- the_observer i ;;
                                  ret (negb (bool_decide (vmCount this = 0)))
                      | VRef _ => stuck
                      | _ => ret false
                      end) ;;
     if refused : bool then
       when (negb production) (warn del_warning_root)
     else
       o <- the_obj r ;;
       if negb (hasOwn o key) then ret tt
       else
         js_delete r key ;;
         if negb (truthy ob) then ret tt
         else
           match ob with
           | VObs i =>
               this <- the_observer i ;;
               dep_notify (ob_dep this)
           | VRef _ => stuck
           | _ => throw (TypeError "Cannot read property 'notify' of undefined")
           end) s
    = Ok tt (if production then s
             else set_log (fun l => l ++ [Warn del_warning_root]) s)).
  { erewrite bind_Ok by done.
    erewrite bind_Ok by by apply the_obj_Ok.
    erewrite bind_Ok by exact refused_eq.
    by destruct production. }
  destruct (isArray o) eqn:Ha; [|exact rest].
  rewrite (Harr eq_refl). exact rest.
Qed.

(** X16.  On a target that is not a root, [del] of a key that is not an own
    property returns at once: nothing is deleted and nothing is notified,
    the store is as before.  [del] of an own property that is not
    configurable is a TypeError, thrown by [delete] before any notification,
    and the store is as before. *)
Theorem del_missing_or_fixed_key (r : loc) (o : Obj) (key : pkey) (ob : value)
    (s : State) :
  heap s !! r = Some o →
  (isArray o = true → isValidArrayIndex key = None) →
  get_ob r s = Ok ob s →
  _isVue o = false →
  (∀ i, ob = VObs i → ∃ this, observers s !! i = Some this ∧ vmCount this = 0) →
  (∀ r', ob ≠ VRef r') →
  (own_property o key = None → del (VRef r) key s = Ok tt s) ∧
  (∀ p, own_property o key = Some p → pd_configurable p = false →
     ∃ msg, del (VRef r) key s = Throw (TypeError msg) s).
Proof.
  intros Ho Harr Hob Hvue Hz Href.
  rewrite (del_not_root r o key ob s) by done. unfold hasOwn. split.
  - intros ->. by rewrite bool_decide_eq_false_2 by (by intros [? ?]).
  - intros p Hp Hc. rewrite Hp. rewrite bool_decide_eq_true_2 by eauto. simpl.
    unfold bind. rewrite (js_delete_run r o key p) by
      (try done; intros [Ha [n ->]]; unfold isArray in Harr;
       rewrite bool_decide_eq_true_2 in Harr by done; by specialize (Harr eq_refl)).
    rewrite Hc. by eexists.
Qed.

(** X17.  On a target that is not a root, [del] of an own, configurable
    property removes it: the key is no longer an own property and every
    other property is as before.  When the target carries no Observer that
    is all; when it carries one, the Dep of that Observer is then notified,
    once. *)
Theorem del_removes_and_notifies (r : loc) (o : Obj) (key : pkey) (p : pdesc)
    (ob : value) (s : State) :
  heap s !! r = Some o →
  (isArray o = true → isValidArrayIndex key = None) →
  get_ob r s = Ok ob s →
  _isVue o = false →
  (∀ i, ob = VObs i → ∃ this, observers s !! i = Some this ∧ vmCount this = 0) →
  (∀ r', ob ≠ VRef r') →
  own_property o key = Some p →
  pd_configurable p = true →
  let o' := with_props (filter (fun kp => kp.1 ≠ key) (props o)) o in
  let s1 := set_heap <[r := o']> s in
  hasOwn o' key = false ∧
  (∀ k, k ≠ key → own_property o' k = own_property o k) ∧
  (truthy ob = false → del (VRef r) key s = Ok tt s1) ∧
  (∀ i this, ob = VObs i → observers s !! i = Some this →
     del (VRef r) key s = dep_notify (ob_dep this) s1).
Proof.
  intros Ho Harr Hob Hvue Hz Href Hp Hc o' s1.
  assert (¬ (cls o = CArray ∧ ∃ n, key = KIndex n)) as Hk.
  { intros [Ha [n ->]]. unfold isArray in Harr.
    rewrite bool_decide_eq_true_2 in Harr by done. by specialize (Harr eq_refl). }
  assert (¬ (cls o = CArray ∧ key = length_key)) as Hlen.
  { intros [Ha ->]. unfold own_property in Hp. rewrite Ha in Hp. simpl in Hp.
    injection Hp as <-. done. }
  assert (del (VRef r) key s =
          (if negb (truthy ob) then ret tt
           else
             match ob with
             | VObs i =>
                 this <- the_observer i ;;
                 dep_notify (ob_dep this)
             | VRef _ => stuck
             | _ => throw (TypeError "Cannot read property 'notify' of undefined")
             end) s1) as Hdel.
  { rewrite (del_not_root r o key ob s) by done. unfold hasOwn.
    rewrite Hp. rewrite bool_decide_eq_true_2 by eauto. simpl.
    erewrite bind_Ok; [done|]. rewrite (js_delete_run r o key p) by done.
    by rewrite Hc. }
  split_and!.
  - unfold hasOwn. apply bool_decide_eq_false_2. intros [q Hq].
    rewrite own_property_alookup in Hq by (subst o'; simpl; naive_solver).
    subst o'. simpl in Hq. by rewrite alookup_filter_eq in Hq.
  - intros k Hne. unfold own_property. subst o'. simpl.
    destruct (cls o), k as [kn|n]; try by apply alookup_filter_ne.
    + destruct (decide (KName kn = length_key)); [done|]. by apply alookup_filter_ne.
    + done.
  - intros Hf. by rewrite Hdel, Hf.
  - intros i this -> Hi. rewrite Hdel. simpl.
    erewrite bind_Ok; [done|]. by apply the_observer_Ok.
Qed.

End DelProofs.

Section DelMore.
Context `{Host}.


Lemma with_props_id o : with_props (props o) o = o.
Proof. by destruct o. Qed.

Lemma set_heap_id r o s : heap s !! r = Some o → set_heap <[r := o]> s = s.
Proof. intros Ho. unfold set_heap. rewrite insert_id by done. apply state_eta. Qed.

(** X19.  On an object that has no Observer and is not a Vue instance,
    [set] of a new key followed by [del] of that key leaves the store exactly
    as it was. *)
Theorem set_then_del_restores (fuel : nat) (r : loc) (o : Obj) (key : pkey)
    (val : value) (s : State) :
  heap s !! r = Some o →
  (isArray o = true → isValidArrayIndex key = None) →
  has_property o key = false →
  own_property o ob_key = None → ob_key ∉ inherited o →
  _isVue o = false →
  extensible o = true →
  key ≠ KName "__proto__" → key ≠ ob_key →
  (set fuel (VRef r) key val ;; del (VRef r) key) s = Ok tt s.
Proof.
  intros Ho Harr Hnew Hob Hinh Hvue Hext Hproto Hkey.
  assert (own_property o key = None) as Hown.
  { unfold has_property, hasOwn in Hnew. apply orb_false_iff in Hnew as [Hnew _].
    apply bool_decide_eq_false in Hnew. destruct (own_property o key); [|done].
    by destruct Hnew. }
  pose proof (absent_not_special o key Hown Harr) as Hk.
  set (o1 := with_props (props o ++ [(key, PData val true true true)]) o).
  set (s1 := set_heap <[r := o1]> s).
  assert (set fuel (VRef r) key val s = Ok val s1) as Hset.
  { unfold set. unfold when at 1. rewrite andb_false_r.
    unfold bind at 1, ret at 1.
    erewrite bind_Ok by by apply the_obj_Ok.
    assert (isArray o && bool_decide (key = length_key) = false) as Hlen.
    { apply andb_false_iff. destruct (isArray o) eqn:Ha; [right|by left].
      apply bool_decide_eq_false_2. intros ->. apply Hk.
      unfold isArray in Ha. apply bool_decide_eq_true in Ha. split; [done|by left]. }
    assert (rest :
      (if has_property o key && negb (in_Object_prototype key)
       then js_set fuel r key val ;; ret val
       else
         ob <- get_ob r ;;
         o <- the_obj r ;;
         refused <- (if _isVue o then ret true
                     else match ob with
                          | VObs i => this <- the_observer i ;;
                                      ret (negb (bool_decide (vmCount this = 0)))
                          | VRef _ => stuck
                          | _ => ret false
                          end) ;;
         if refused : bool then
           when (negb production) (warn set_warning_root) ;;
           ret val
         else
           match ob with
           | VObs i =>
               this <- the_observer i ;;
               defineReactive fuel (ob_value this) key (WithVal val None false) ;;
               this <- the_observer i ;;
               dep_notify (ob_dep this) ;;
               ret val
           | VRef _ => stuck
           | _ =>
               if truthy ob then
                 new_Dep ;;
                 throw (TypeError "Cannot convert undefined or null to object")
               else js_set fuel r key val ;; ret val
           end) s
      = Ok val s1).
    { rewrite Hnew. simpl.
      erewrite bind_Ok by by apply (get_ob_absent r o).
      erewrite bind_Ok by by apply the_obj_Ok.
      erewrite bind_Ok by (by apply (set_not_refused o VUndef)).
      simpl. unfold js_set.
      rewrite bind_bind. erewrite bind_Ok by by apply the_obj_Ok.
      rewrite (bool_decide_eq_false_2 (key = _)) by done. rewrite Hlen. simpl.
      rewrite Hown, Hext.
      erewrite bind_Ok by by apply store_new_data. done. }
    destruct (isArray o) eqn:Ha; [|exact rest].
    rewrite (Harr eq_refl). exact rest. }
  erewrite bind_Ok by exact Hset.
  assert (alookup key (props o) = None) as Hal by (by rewrite <- own_property_alookup).
  assert (¬ (cls o1 = CArray ∧ (key = length_key ∨ ∃ n, key = KIndex n))) as Hk1 by done.
  assert (own_property o1 key = Some (PData val true true true)) as Hown1.
  { rewrite own_property_alookup by done. subst o1. simpl.
    rewrite alookup_app_absent by done. rewrite decide_True by done. by rewrite Hal. }
  assert (own_property o1 ob_key = None) as Hob1.
  { rewrite own_property_ob_key in Hob |- *. subst o1. simpl.
    rewrite alookup_app_absent by done. by rewrite decide_False by done. }
  rewrite (del_not_root r o1 key VUndef s1); try done.
  2:{ apply set_heap_lookup. }
  2:{ by apply (get_ob_absent r o1); [apply set_heap_lookup| |]. }
  unfold hasOwn. rewrite Hown1. rewrite bool_decide_eq_true_2 by eauto. simpl.
  erewrite bind_Ok.
  2:{ rewrite (js_delete_run r o1 key (PData val true true true));
        [reflexivity|apply set_heap_lookup|done|naive_solver]. }
  unfold ret. f_equal. subst s1. rewrite set_heap_insert_twice.
  subst o1. simpl. rewrite filter_app, filter_absent by done.
  rewrite filter_cons. simpl. rewrite decide_False by (by intros ?).
  rewrite filter_nil, app_nil_r.
  replace (with_props (props o) (with_props (props o ++ [(key, PData val true true true)]) o))
    with o by (by destruct o).
  by apply set_heap_id.
Qed.

End DelMore.

Section HookProofs.

Lemma alloc_obj_run o s :
  alloc_obj o s = Ok (fresh (dom (heap s))) (set_heap <[fresh (dom (heap s)) := o]> s).
Proof. done. Qed.

Lemma fresh_heap_None s : heap s !! fresh (dom (heap s)) = None.
Proof. apply not_elem_of_dom. apply is_fresh. Qed.

Lemma extends_heap_refl s : extends_heap s s.
Proof.
  split; [done|]. unfold set_heap. by destruct s.
Qed.

Lemma extends_heap_trans s1 s2 s3 :
  extends_heap s1 s2 → extends_heap s2 s3 → extends_heap s1 s3.
Proof.
  intros [H1 E1] [H2 E2]. split; [by eauto|].
  rewrite E2 at 1. rewrite E1 at 1. done.
Qed.

Lemma extends_heap_alloc o s :
  extends_heap s (set_heap <[fresh (dom (heap s)) := o]> s).
Proof.
  split; [|done]. intros r o0 Hr. simpl.
  rewrite lookup_insert_ne; [done|]. intros <-. by rewrite fresh_heap_None in Hr.
Qed.

Lemma get_elem_run r o i s :
  heap s !! r = Some o → i < length (elems o) →
  ∃ x, array_values o !! i = Some x ∧ get_elem r i s = Ok x s.
Proof.
  intros Ho Hi. unfold get_elem. erewrite bind_Ok by by apply the_obj_Ok.
  destruct (lookup_lt_is_Some_2 (elems o) i Hi) as [e He].
  unfold array_values. rewrite list_lookup_fmap, He. simpl.
  exists (default VUndef e). split; [done|]. by destruct e.
Qed.

(** The loop of [dedupeHooks]. *)
Lemma dedupe_loop_run hooks res o n : ∀ a acc s,
  hooks ≠ res →
  heap s !! hooks = Some o →
  heap s !! res = Some (array_of acc) →
  a + n ≤ length (elems o) →
  for_each (seq a n) (fun i =>
    x <- get_elem hooks i ;;
    ro <- the_obj res ;;
    when (indexOf_is_minus_1 x (elems ro))
      (update_obj res (fun ro => with_elems (elems ro ++ [Some x]) ro))) s
  = Ok tt (set_heap
             <[res := array_of (dedupe_from acc (take n (drop a (array_values o))))]> s).
Proof.
  induction n as [|n IH]; intros a acc s Hne Ho Hres Hn; simpl.
  - unfold ret. by rewrite set_heap_id.
  - destruct (get_elem_run hooks o a s Ho) as (x & Hx & Hget); [lia|].
    rewrite bind_bind. erewrite bind_Ok by exact Hget.
    rewrite bind_bind. erewrite bind_Ok by by apply the_obj_Ok.
    cbn [elems array_of].
    erewrite (drop_S _ x a) by done. simpl. fold (dedupe_from (dedupe_step acc x)).
    unfold dedupe_step.
    destruct (indexOf_is_minus_1 x acc) eqn:Hidx; simpl.
    + erewrite bind_Ok
        by (by apply (update_obj_run res (fun ro => with_elems (elems ro ++ [Some x]) ro)
                        (array_of acc))).
      erewrite (IH (S a) (acc ++ [Some x]));
        [ | done | by simpl; rewrite lookup_insert_ne | apply set_heap_lookup | lia ].
      by rewrite set_heap_insert_twice.
    + unfold bind at 1, ret at 1.
      erewrite (IH (S a) acc); [done|done|done|done|lia].
Qed.

Lemma dedupeHooks_run hooks o s :
  heap s !! hooks = Some o → isArray o = true →
  dedupeHooks hooks s
  = Ok (fresh (dom (heap s)))
       (set_heap <[fresh (dom (heap s)) := array_of (dedupe_from [] (array_values o))]> s).
Proof.
  intros Ho Harr. unfold dedupeHooks.
  erewrite bind_Ok by apply alloc_obj_run.
  set (res := fresh (dom (heap s))).
  assert (hooks ≠ res) as Hne.
  { intros ->. subst res. by rewrite fresh_heap_None in Ho. }
  erewrite bind_Ok by (apply the_obj_Ok; simpl; by rewrite lookup_insert_ne).
  rewrite Harr.
  erewrite bind_Ok.
  2:{ apply (dedupe_loop_run hooks res o _ 0 []);
        [done|by simpl; rewrite lookup_insert_ne|apply set_heap_lookup|simpl; lia]. }
  rewrite set_heap_insert_twice. rewrite drop_0.
  unfold array_values at 1. rewrite <- (length_fmap (default VUndef)), firstn_all. done.
Qed.

Lemma indexOf_absent_spec x res :
  indexOf_is_minus_1 x res = true ↔ ∀ y, Some y ∈ res → strict_eq y x = false.
Proof.
  unfold indexOf_is_minus_1. induction res as [|e res IH]; simpl.
  - split; [|done]. intros _ y Hy. by apply elem_of_nil in Hy.
  - rewrite andb_true_iff, IH. split.
    + intros [He Hall] y [<-|Hy]%elem_of_cons; [by apply negb_true_iff|by apply Hall].
    + intros Hall. split.
      * destruct e as [y|]; [|done]. apply negb_true_iff, Hall. by left.
      * intros y Hy. apply Hall. by right.
Qed.

Lemma indexOf_found_spec x res :
  indexOf_is_minus_1 x res = false → ∃ y, Some y ∈ res ∧ strict_eq y x = true.
Proof.
  unfold indexOf_is_minus_1. induction res as [|e res IH]; simpl; [done|].
  rewrite andb_false_iff. intros [He|Hr].
  - destruct e as [y|]; [|done]. exists y. split; [by left|]. by apply negb_false_iff.
  - destruct (IH Hr) as (y & Hy & Heq). exists y. split; [by right|done].
Qed.

(** What the loop keeps true of the array it builds. *)
Lemma dedupe_from_props l : ∀ res,
  (∀ e, e ∈ res → is_Some e) →
  (∀ i j x y, i < j → res !! i = Some (Some x) → res !! j = Some (Some y) →
     strict_eq x y = false) →
  let out := dedupe_from res l in
  (∀ e, e ∈ out → is_Some e) ∧
  (∀ i j x y, i < j → out !! i = Some (Some x) → out !! j = Some (Some y) →
     strict_eq x y = false) ∧
  (∃ rest, out = res ++ (Some <$> rest) ∧ rest `sublist_of` l) ∧
  (∀ x, x ∈ l → ∃ y, Some y ∈ out ∧ (y = x ∨ strict_eq y x = true)).
Proof.
  induction l as [|x l IH]; intros res Hsome Hdist; simpl.
  - split_and!; try done.
    + exists []. by rewrite app_nil_r.
    + intros x Hx. by apply elem_of_nil in Hx.
  - fold (dedupe_from (dedupe_step res x) l).
    remember (dedupe_step res x) as res' eqn:Hres'. unfold dedupe_step in Hres'.
    destruct (indexOf_is_minus_1 x res) eqn:Hidx; subst res'.
    + destruct (IH (res ++ [Some x])) as (H1 & H2 & (rest & Hout & Hsub) & H4).
      { intros e [He|He]%elem_of_app; [by apply Hsome|].
        apply list_elem_of_singleton in He. subst e. eauto. }
      { intros i j a b Hij Ha Hb.
        destruct (decide (j < length res)) as [Hj|Hj].
        - rewrite lookup_app_l in Ha, Hb by lia. by apply (Hdist i j a b).
        - rewrite lookup_app_r in Hb by lia.
          destruct (j - length res) as [|k] eqn:Hk; [|by destruct k].
          simpl in Hb. injection Hb as <-.
          rewrite lookup_app_l in Ha by lia.
          apply (proj1 (indexOf_absent_spec _ _) Hidx).
          by eapply list_elem_of_lookup_2. }
      split_and!; try done.
      * exists (x :: rest). rewrite Hout, <- app_assoc. split; [done|].
        by apply sublist_skip.
      * intros x' [->|Hx']%elem_of_cons; [|by apply H4].
        exists x. split; [|by left]. rewrite Hout.
        apply elem_of_app. left. apply elem_of_app. right. by left.
    + destruct (IH res Hsome Hdist) as (H1 & H2 & (rest & Hout & Hsub) & H4).
      split_and!; try done.
      * exists rest. split; [done|]. by apply sublist_cons.
      * intros x' [->|Hx']%elem_of_cons; [|by apply H4].
        destruct (indexOf_found_spec _ _ Hidx) as (y & Hy & Heq).
        exists y. split; [|by right]. rewrite Hout. apply elem_of_app. by left.
Qed.

End HookProofs.

Section HookTheorems.

Lemma dedupe_from_nil_props l :
  let out := dedupe_from [] l in
  (∀ e, e ∈ out → is_Some e) ∧
  (∀ i j x y, i < j → out !! i = Some (Some x) → out !! j = Some (Some y) →
     strict_eq x y = false) ∧
  (∃ rest, out = Some <$> rest ∧ rest `sublist_of` l) ∧
  (∀ x, x ∈ l → ∃ y, Some y ∈ out ∧ (y = x ∨ strict_eq y x = true)).
Proof.
  destruct (dedupe_from_props l []) as (H1 & H2 & H3 & H4).
  - intros e He. by apply elem_of_nil in He.
  - intros i j x y _ Hi. by rewrite lookup_nil in Hi.
  - done.
Qed.

Lemma dedupe_from_app res l1 l2 :
  dedupe_from res (l1 ++ l2) = dedupe_from (dedupe_from res l1) l2.
Proof. unfold dedupe_from. apply foldl_app. Qed.

Lemma strict_eq_fun f : strict_eq (VFun f) (VFun f) = true.
Proof. simpl. by apply bool_decide_eq_true_2. Qed.

(** X20.  [dedupeHooks] returns a new array and leaves the array it was
    given, and every other object, as it was.  The new array holds the
    elements of the old one in their order, each kept at its first
    occurrence: no two of its elements are [===], and every element of the
    old array is in it or is [===] to one that is.  For an array of
    functions that is: the same functions, each once. *)
Theorem dedupeHooks_keeps_first_occurrences (hooks : loc) (o : Obj) (s : State) :
  heap s !! hooks = Some o →
  isArray o = true →
  ∃ r res s',
    dedupeHooks hooks s = Ok r s' ∧
    heap s !! r = None ∧
    heap s' !! r = Some (array_of (Some <$> res)) ∧
    extends_heap s s' ∧
    (∀ i j x y, i < j → res !! i = Some x → res !! j = Some y → strict_eq x y = false) ∧
    res `sublist_of` array_values o ∧
    (∀ x, x ∈ array_values o → ∃ y, y ∈ res ∧ (y = x ∨ strict_eq y x = true)) ∧
    ((∀ x, x ∈ array_values o → ∃ f, x = VFun f) →
       NoDup res ∧ ∀ x, x ∈ res ↔ x ∈ array_values o).
Proof.
  intros Ho Harr.
  destruct (dedupe_from_nil_props (array_values o)) as (_ & Hdist & (res & Hout & Hsub) & Hall).
  exists (fresh (dom (heap s))), res,
    (set_heap <[fresh (dom (heap s)) := array_of (Some <$> res)]> s).
  split; [rewrite <- Hout; by apply dedupeHooks_run|].
  rewrite Hout in Hdist, Hall.
  assert (∀ i j x y, i < j → res !! i = Some x → res !! j = Some y →
            strict_eq x y = false) as Hdist'.
  { intros i j x y Hij Hi Hj. apply (Hdist i j x y Hij);
      rewrite list_lookup_fmap; [by rewrite Hi|by rewrite Hj]. }
  assert (∀ x, x ∈ array_values o → ∃ y, y ∈ res ∧ (y = x ∨ strict_eq y x = true)) as Hall'.
  { intros x Hx. destruct (Hall x Hx) as (y & Hy & Hor). exists y. split; [|done].
    apply list_elem_of_fmap in Hy as (y' & [= ->] & Hy'). done. }
  split_and!; try done.
  - apply fresh_heap_None.
  - apply set_heap_lookup.
  - apply extends_heap_alloc.
  - intros Hfun.
    assert (∀ x, x ∈ res → x ∈ array_values o) as Hin.
    { intros x Hx. by eapply elem_of_sublist. }
    split.
    + apply NoDup_alt. intros i j x Hi Hj.
      destruct (Hfun x (Hin x (list_elem_of_lookup_2 _ _ _ Hi))) as [f ->].
      destruct (decide (i = j)) as [|Hne]; [done|]. exfalso.
      destruct (decide (i < j)).
      * pose proof (Hdist' i j _ _ ltac:(lia) Hi Hj) as Hd.
        by rewrite strict_eq_fun in Hd.
      * pose proof (Hdist' j i _ _ ltac:(lia) Hj Hi) as Hd.
        by rewrite strict_eq_fun in Hd.
    + intros x. split; [apply Hin|]. intros Hx.
      destruct (Hall' x Hx) as (y & Hy & [->|Heq]); [done|].
      destruct (Hfun x Hx) as [f ->].
      destruct (Hfun y (Hin y Hy)) as [g ->].
      simpl in Heq. apply bool_decide_eq_true in Heq. by subst g.
Qed.

Lemma hooks_of_falsy s v : truthy v = false → hooks_of s v = [].
Proof. intros Hv. destruct v; simpl in *; try done; by rewrite Hv. Qed.

Lemma hooks_of_array s r o :
  heap s !! r = Some o → isArray o = true → hooks_of s (VRef r) = array_values o.
Proof. intros Ho Ha. unfold hooks_of. by rewrite Ho, Ha. Qed.

Lemma array_concat_run p po childVal s :
  heap s !! p = Some po →
  (∀ c, childVal = VRef c → is_Some (heap s !! c)) →
  truthy childVal = true →
  ∃ tl,
    array_concat p childVal s
    = Ok (fresh (dom (heap s)))
         (set_heap <[fresh (dom (heap s)) := array_of (elems po ++ tl)]> s) ∧
    default VUndef <$> tl = hooks_of s childVal.
Proof.
  intros Hp Hc Ht. unfold array_concat.
  erewrite bind_Ok by by apply the_obj_Ok.
  destruct childVal as [| | | | | |c|] eqn:Hv;
    try (exists [Some childVal]; subst childVal; split; [done|];
         simpl in Ht |- *; by rewrite ?Ht).
  destruct (Hc c eq_refl) as [co Hco].
  exists (if isArray co then elems co else [Some (VRef c)]). split.
  - rewrite bind_bind. erewrite bind_Ok by by apply the_obj_Ok. done.
  - unfold hooks_of. rewrite Hco. by destruct (isArray co).
Qed.

Lemma array_values_app l1 l2 :
  array_values (array_of (l1 ++ l2)) = (default VUndef <$> l1) ++ (default VUndef <$> l2).
Proof. unfold array_values. simpl. apply fmap_app. Qed.

Lemma is_array_value_run v s :
  (∀ c, v = VRef c → is_Some (heap s !! c)) →
  truthy v = true →
  ∃ a, is_array_value v s = Ok a s ∧
    (a = true → ∃ c co, v = VRef c ∧ heap s !! c = Some co ∧ isArray co = true) ∧
    (a = false → hooks_of s v = [v]).
Proof.
  intros Hc Ht. destruct v as [| | | | | |c|] eqn:Hv;
    try (exists false; subst v; split; [done|]; split; [done|];
         intros _; simpl in Ht |- *; by rewrite ?Ht).
  destruct (Hc c eq_refl) as [co Hco]. exists (isArray co). split_and!.
  - unfold is_array_value. erewrite bind_Ok by by apply the_obj_Ok. done.
  - intros Ha. by exists c, co.
  - intros Ha. unfold hooks_of. by rewrite Hco, Ha.
Qed.

(** X21.  [mergeHook] with neither a parent nor a child value returns the
    parent value and does nothing.  Otherwise it returns a new array, and
    leaves the arrays it was given as they were: the hooks of the parent
    followed by those of the child (a child that is not an array counts as
    one hook), run through [dedupeHooks]; so the parent's hooks come first,
    in their order, and the child adds those the parent did not have. *)
Theorem mergeHook_parent_first (parentVal childVal : value) (s : State) :
  (truthy parentVal = false ∨
   ∃ p po, parentVal = VRef p ∧ heap s !! p = Some po ∧ isArray po = true) →
  (∀ c, childVal = VRef c → is_Some (heap s !! c)) →
  (truthy parentVal = false → truthy childVal = false →
     mergeHook parentVal childVal s = Ok parentVal s) ∧
  (truthy parentVal = true ∨ truthy childVal = true →
     ∃ r res s',
       mergeHook parentVal childVal s = Ok (VRef r) s' ∧
       heap s !! r = None ∧
       heap s' !! r = Some (array_of res) ∧
       extends_heap s s' ∧
       res = dedupe_from [] (hooks_of s parentVal ++ hooks_of s childVal) ∧
       ∃ rest, res = dedupe_from [] (hooks_of s parentVal) ++ (Some <$> rest) ∧
               rest `sublist_of` hooks_of s childVal).
Proof.
  intros Hparent Hchild. split.
  - intros Hp Hc. unfold mergeHook. rewrite Hc. unfold bind, ret. by rewrite Hp.
  - intros Hsome.
    assert (∀ l1 l2, ∃ rest,
              dedupe_from [] (l1 ++ l2) = dedupe_from [] l1 ++ (Some <$> rest) ∧
              rest `sublist_of` l2) as Hsplit.
    { intros l1 l2. rewrite dedupe_from_app.
      destruct (dedupe_from_nil_props l1) as (H1 & H2 & _ & _).
      destruct (dedupe_from_props l2 (dedupe_from [] l1) H1 H2) as (_ & _ & H3 & _).
      exact H3. }
    set (r1 := fresh (dom (heap s))).
    assert (∀ o1 s1, s1 = set_heap <[r1 := o1]> s → isArray o1 = true →
              array_values o1 = hooks_of s parentVal ++ hooks_of s childVal →
              ∃ r res s',
                (r' <- dedupeHooks r1 ;; ret (VRef r')) s1 = Ok (VRef r) s' ∧
                heap s !! r = None ∧ heap s' !! r = Some (array_of res) ∧
                extends_heap s s' ∧
                res = dedupe_from [] (hooks_of s parentVal ++ hooks_of s childVal) ∧
                ∃ rest, res = dedupe_from [] (hooks_of s parentVal) ++ (Some <$> rest) ∧
                        rest `sublist_of` hooks_of s childVal) as Hvia.
    { intros o1 s1 -> Ha Hvals.
      eexists _, _, _. erewrite bind_Ok.
      2:{ apply (dedupeHooks_run r1 o1); [apply set_heap_lookup|done]. }
      split; [reflexivity|]. rewrite Hvals. split_and!.
      - destruct (heap s !! fresh _) as [o2|] eqn:Ho2; [|done]. exfalso.
        apply (extends_heap_alloc o1 s) in Ho2. fold r1 in Ho2.
        by rewrite fresh_heap_None in Ho2.
      - apply set_heap_lookup.
      - eapply extends_heap_trans; apply extends_heap_alloc.
      - done.
      - apply Hsplit. }
    assert (∀ p po, heap s !! p = Some po → isArray po = true →
              array_values po = hooks_of s parentVal ++ hooks_of s childVal →
              ∃ r res s',
                (r' <- dedupeHooks p ;; ret (VRef r')) s = Ok (VRef r) s' ∧
                heap s !! r = None ∧ heap s' !! r = Some (array_of res) ∧
                extends_heap s s' ∧
                res = dedupe_from [] (hooks_of s parentVal ++ hooks_of s childVal) ∧
                ∃ rest, res = dedupe_from [] (hooks_of s parentVal) ++ (Some <$> rest) ∧
                        rest `sublist_of` hooks_of s childVal) as Hdirect.
    { intros p po Hp Ha Hvals.
      eexists _, _, _. erewrite bind_Ok by by apply (dedupeHooks_run p po).
      split; [reflexivity|]. rewrite Hvals. split_and!.
      - apply fresh_heap_None.
      - apply set_heap_lookup.
      - apply extends_heap_alloc.
      - done.
      - apply Hsplit. }
    assert (∃ q oq s1,
              (if truthy childVal then
                 if truthy parentVal then
                   match parentVal with
                   | VRef p =>
                       po <- the_obj p ;;
                       if isArray po then r <- array_concat p childVal ;; ret (VRef r)
                       else throw (TypeError "parentVal.concat is not a function")
                   | VStr _ | VObs _ => stuck
                   | _ => throw (TypeError "parentVal.concat is not a function")
                   end
                 else
                   a <- is_array_value childVal ;;
                   if a : bool then ret childVal
                   else r <- alloc_obj (array_of [Some childVal]) ;; ret (VRef r)
               else ret parentVal) s = Ok (VRef q) s1 ∧
              ((s1 = s ∧ heap s !! q = Some oq) ∨
               (q = r1 ∧ s1 = set_heap <[r1 := oq]> s)) ∧
              isArray oq = true ∧
              array_values oq = hooks_of s parentVal ++ hooks_of s childVal)
      as (q & oq & s1 & Hfirst & Hwhere & Hqa & Hvals).
    { destruct (truthy childVal) eqn:Hc.
      - destruct Hparent as [Hp|(p & po & -> & Hpo & Hpa)].
        + rewrite Hp.
          destruct (is_array_value_run childVal s Hchild Hc) as (a & Ha & Hyes & Hno).
          erewrite bind_Ok by exact Ha.
          rewrite (hooks_of_falsy s parentVal Hp). simpl.
          destruct a.
          * destruct (Hyes eq_refl) as (c & co & -> & Hco & Hca).
            exists c, co, s. split; [done|]. split; [by left|]. split; [done|].
            by rewrite (hooks_of_array s c co).
          * exists r1, (array_of [Some childVal]), (set_heap <[r1 := array_of [Some childVal]]> s).
            split; [by erewrite bind_Ok by apply alloc_obj_run|].
            split; [by right|]. split; [done|]. by rewrite (Hno eq_refl).
        + simpl.
          destruct (array_concat_run p po childVal s Hpo Hchild Hc) as (tl & Hcat & Htl).
          erewrite bind_Ok by by apply the_obj_Ok.
          rewrite Hpa. erewrite bind_Ok by exact Hcat.
          exists r1, (array_of (elems po ++ tl)), (set_heap <[r1 := array_of (elems po ++ tl)]> s).
          split; [done|]. split; [by right|]. split; [done|].
          rewrite array_values_app, Htl. f_equal. symmetry.
          exact (hooks_of_array s p po Hpo Hpa).
      - destruct Hsome as [Hp|?]; [|done].
        destruct Hparent as [Hp'|(p & po & -> & Hpo & Hpa)]; [congruence|].
        exists p, po, s. split; [done|]. split; [by left|]. split; [done|].
        rewrite (hooks_of_falsy s childVal Hc), app_nil_r. symmetry.
        exact (hooks_of_array s p po Hpo Hpa). }
    unfold mergeHook. erewrite bind_Ok by exact Hfirst. simpl.
    destruct Hwhere as [[-> Hq]|[-> ->]].
    + by apply (Hdirect q oq).
    + by apply (Hvia oq).
Qed.

End HookTheorems.

Section MergeDataProofs.
Context `{Host}.
Variable hasSymbol : bool.

Lemma mergeData_eq fuel to from :
  mergeData hasSymbol fuel to from =
  if negb (truthy from) then ret (VRef to)
  else
    match from with
    | VRef f =>
        fo <- the_obj f ;;
        keys <- (if isArray fo then stuck
                 else ret (if hasSymbol then Reflect_ownKeys fo else Object_keys fo)) ;;
        for_each keys (fun key =>
          if bool_decide (key = ob_key) then ret tt
          else
            toVal <- js_get fuel to key ;;
            fromVal <- js_get fuel f key ;;
            t <- the_obj to ;;
            if negb (hasOwn t key) then
              set fuel (VRef to) key fromVal ;; ret tt
            else
              pt <- isPlainObject_value toVal ;;
              pf <- isPlainObject_value fromVal ;;
              if negb (strict_eq toVal fromVal) && pt && pf then
                match toVal, fuel with
                | VRef to', S fuel' => mergeData hasSymbol fuel' to' fromVal ;; ret tt
                | _, _ => stuck
                end
              else ret tt) ;;
        ret (VRef to)
    | _ => stuck
    end.
Proof. by destruct fuel. Qed.

Lemma final_bind_inv {A B} (m : M A) (k : A → M B) s s' :
  final_state (bind m k s) = Some s' →
  (∃ a s1, m s = Ok a s1 ∧ final_state (k a s1) = Some s') ∨
  (∃ e, m s = Throw e s').
Proof.
  unfold bind. destruct (m s) as [a s1|e s1|]; simpl; [|intros [= <-]|done]; eauto.
Qed.

Lemma for_each_final_inv {A} (P : State → Prop) (l : list A) (body : A → M unit) :
  (∀ x s s', x ∈ l → P s → final_state (body x s) = Some s' → P s') →
  ∀ s s', P s → final_state (for_each l body s) = Some s' → P s'.
Proof.
  induction l as [|x l IH]; intros Hb s s' HP Hf; simpl in Hf.
  - by injection Hf as <-.
  - apply final_bind_inv in Hf as [(a & s1 & Hm & Hf)|(e & Hm)].
    + eapply (IH (fun y t t' Hy => Hb y t t' (list_elem_of_further _ _ _ Hy))); [|done].
      eapply Hb; [by left|done|]. by rewrite Hm.
    + eapply Hb; [by left|done|]. by rewrite Hm.
Qed.

Lemma keeps_props_refl s : keeps_props s s.
Proof. intros r o Ho. by exists o. Qed.

Lemma keeps_props_trans s1 s2 s3 :
  keeps_props s1 s2 → keeps_props s2 s3 → keeps_props s1 s3.
Proof.
  intros H1 H2 r o Ho.
  destruct (H1 r o Ho) as (o2 & Ho2 & Hc2 & He2 & Hp2).
  destruct (H2 r o2 Ho2) as (o3 & Ho3 & Hc3 & He3 & Hp3).
  exists o3. split_and!; [done|congruence|congruence|eauto].
Qed.

Lemma same_but_heap_refl s : same_but_heap s s.
Proof. unfold same_but_heap, set_heap. by destruct s. Qed.

Lemma same_but_heap_trans s1 s2 s3 :
  same_but_heap s1 s2 → same_but_heap s2 s3 → same_but_heap s1 s3.
Proof. unfold same_but_heap. intros E1 E2. rewrite E2 at 1. rewrite E1 at 1. done. Qed.

Lemma alookup_Some_elem {A} (k : pkey) (a : A) l : alookup k l = Some a → (k, a) ∈ l.
Proof.
  induction l as [|[k0 a0] l IH]; simpl; [done|].
  destruct (decide (k = k0)) as [->|]; [intros [= ->]; by left|].
  intros Hl. right. by apply IH.
Qed.

Lemma alookup_is_Some {A} (k : pkey) (l : list (pkey * A)) :
  is_Some (alookup k l) ↔ k ∈ l.*1.
Proof.
  induction l as [|[k0 a0] l IH]; simpl.
  - split; [by intros [? ?]|]. intros Hk. by apply elem_of_nil in Hk.
  - destruct (decide (k = k0)) as [->|Hne].
    + split; [intros _; by left|eauto].
    + rewrite IH. split; [by right|]. by intros [?|?]%elem_of_cons.
Qed.

(** Reading a key of plain data. *)
Lemma own_property_plain s r o k d :
  plain_data s → heap s !! r = Some o → own_property o k = Some d →
  ∃ v wr en cf, d = PData v wr en cf.
Proof.
  intros Hpl Ho Hp. destruct (Hpl r o Ho) as (_ & _ & Hprops).
  unfold own_property in Hp.
  assert (alookup k (props o) = Some d → ∃ v wr en cf, d = PData v wr en cf) as Hal.
  { intros Hl. apply alookup_Some_elem in Hl.
    destruct (Hprops k d Hl) as (_ & v & ->). eauto. }
  destruct (cls o), k as [kn|n]; try by apply Hal.
  - destruct (decide (KName kn = length_key)); [|by apply Hal].
    injection Hp as <-. eauto.
  - destruct (elems o !! n) as [[v|]|]; try done. injection Hp as <-. eauto.
Qed.

Lemma js_get_plain fuel s r o k :
  plain_data s → heap s !! r = Some o →
  js_get fuel r k s = Ok (read_of o k) s.
Proof.
  intros Hpl Ho. unfold js_get, read_of.
  erewrite bind_Ok by by apply the_obj_Ok.
  destruct (own_property o k) as [d|] eqn:Hp.
  - destruct (own_property_plain s r o k d Hpl Ho Hp) as (v & wr & en & cf & ->). done.
  - destruct (Hpl r o Ho) as (_ & -> & _). by rewrite bool_decide_eq_false_2 by set_solver.
Qed.

End MergeDataProofs.

Section MergeDataMain.
Context `{Host}.
Variable hasSymbol : bool.

Lemma get_ob_plain s r o :
  plain_data s → heap s !! r = Some o → get_ob r s = Ok VUndef s.
Proof.
  intros Hpl Ho. destruct (Hpl r o Ho) as (_ & Hinh & Hprops).
  apply (get_ob_absent r o); [done| |rewrite Hinh; set_solver].
  rewrite own_property_ob_key.
  destruct (alookup ob_key (props o)) as [d|] eqn:Hl; [|done].
  apply alookup_Some_elem in Hl. by destruct (Hprops _ _ Hl) as [? _].
Qed.

(** [set] of a key that plain data does not have. *)
Lemma set_plain_new fuel s r o key val :
  plain_data s → heap s !! r = Some o → isArray o = false →
  own_property o key = None →
  set fuel (VRef r) key val s =
  if bool_decide (key = KName "__proto__") then Stuck
  else if extensible o
  then Ok val (set_heap <[r := with_props (props o ++ [(key, PData val true true true)]) o]> s)
  else Throw (TypeError "Cannot add property, object is not extensible") s.
Proof.
  intros Hpl Ho Ha Hown. destruct (Hpl r o Ho) as (Hvue & Hinh & _).
  unfold set. unfold when at 1. rewrite andb_false_r.
  unfold bind at 1, ret at 1.
  erewrite bind_Ok by by apply the_obj_Ok.
  rewrite Ha. cbv iota.
  assert (has_property o key = false) as ->.
  { unfold has_property, hasOwn. rewrite Hown, Hinh.
    rewrite bool_decide_eq_false_2 by (by intros [? ?]).
    by rewrite bool_decide_eq_false_2 by set_solver. }
  simpl.
  erewrite bind_Ok by by apply (get_ob_plain s r o).
  erewrite bind_Ok by by apply the_obj_Ok.
  rewrite Hvue. erewrite bind_Ok by reflexivity. simpl.
  unfold js_set. rewrite bind_bind. erewrite bind_Ok by by apply the_obj_Ok.
  rewrite Ha. simpl. rewrite orb_false_r.
  destruct (bool_decide (key = KName "__proto__")); [done|].
  rewrite Hown. destruct (extensible o); [|done].
  erewrite bind_Ok; [done|].
  apply store_new_data; [done|done|]. by rewrite Ha.
Qed.

Lemma plain_not_special o key :
  isArray o = false → ¬ (cls o = CArray ∧ (key = length_key ∨ ∃ n, key = KIndex n)).
Proof.
  unfold isArray. intros Ha [Hc _]. rewrite bool_decide_eq_true_2 in Ha by done. done.
Qed.

Lemma store_new_keeps s r o key val :
  plain_data s → heap s !! r = Some o → isArray o = false →
  own_property o key = None → key ≠ ob_key →
  let o' := with_props (props o ++ [(key, PData val true true true)]) o in
  let s' := set_heap <[r := o']> s in
  plain_data s' ∧ keeps_props s s' ∧ same_but_heap s s' ∧
  own_property o' key = Some (PData val true true true).
Proof.
  intros Hpl Ho Ha Hown Hkey o' s'.
  pose proof (plain_not_special o key Ha) as Hk.
  assert (alookup key (props o) = None) as Hal by (by rewrite <- own_property_alookup).
  assert (∀ k d, own_property o k = Some d → own_property o' k = Some d) as Hkeep.
  { intros k d Hp.
    rewrite own_property_alookup in Hp by (by apply plain_not_special).
    rewrite own_property_alookup by (by apply plain_not_special).
    subst o'. simpl. rewrite alookup_app_absent by done.
    rewrite Hp. by destruct (decide (k = key)). }
  split_and!.
  - intros r0 o0. subst s'. simpl.
    destruct (decide (r0 = r)) as [->|Hne].
    + rewrite lookup_insert_eq. intros [= <-].
      destruct (Hpl r o Ho) as (Hvue & Hinh & Hprops).
      split; [done|]. split; [done|].
      intros k d [Hin|Hin]%elem_of_app; [by apply Hprops|].
      apply list_elem_of_singleton in Hin. injection Hin as -> ->. eauto.
    + rewrite lookup_insert_ne by done. apply Hpl.
  - intros r0 o0 Ho0. subst s'. simpl.
    destruct (decide (r0 = r)) as [->|Hne].
    + rewrite lookup_insert_eq. assert (o0 = o) as -> by congruence.
      exists o'. done.
    + rewrite lookup_insert_ne by done. exists o0. done.
  - done.
  - rewrite own_property_alookup by (by apply plain_not_special).
    subst o'. simpl. rewrite alookup_app_absent by done.
    rewrite decide_True by done. by rewrite Hal.
Qed.

Lemma merge_inv_trans s0 s1 s2 :
  merge_inv s0 s1 → merge_inv s1 s2 → merge_inv s0 s2.
Proof.
  intros (_ & K1 & F1) (P2 & K2 & F2). split_and!; [done| |].
  - by eapply keeps_props_trans.
  - by eapply same_but_heap_trans.
Qed.

Lemma merge_inv_refl s : plain_data s → merge_inv s s.
Proof. intros Hp. split_and!; [done|apply keeps_props_refl|apply same_but_heap_refl]. Qed.

Lemma isPlainObject_value_inv v s a s' :
  isPlainObject_value v s = Ok a s' →
  s' = s ∧ (a = true → ∃ r o, v = VRef r ∧ heap s !! r = Some o ∧ isPlainObject o = true).
Proof.
  destruct v as [| | | | | |r|]; simpl; try (intros [= <- <-]; by split).
  intros (o & s1 & [-> Ho]%the_obj_inv & [= <- <-])%bind_Ok_inv.
  split; [done|]. intros Ha. by exists r, o.
Qed.

Lemma plain_object_not_array o : isPlainObject o = true → isArray o = false.
Proof.
  unfold isPlainObject, isArray. destruct (cls o); try done; by intros _.
Qed.

Lemma final_ret_inv {A B} (m : M B) (a : A) s s' :
  final_state ((m ;; ret a) s) = Some s' → final_state (m s) = Some s'.
Proof. unfold bind, ret. by destruct (m s). Qed.

Lemma keeps_props_to s s1 to t :
  keeps_props s s1 → heap s !! to = Some t → isArray t = false →
  ∃ t1, heap s1 !! to = Some t1 ∧ isArray t1 = false.
Proof.
  intros Hk Ht Ha. destruct (Hk to t Ht) as (t1 & Ht1 & Hc & _).
  exists t1. split; [done|]. unfold isArray in *. by rewrite Hc.
Qed.

(** One turn of the loop of [mergeData], given what the nested calls keep. *)
Lemma merge_step fuel to f key s1 s2 t1 fo1 :
  (∀ fuel', fuel' < fuel → ∀ to from s s',
     plain_data s → (∃ t, heap s !! to = Some t ∧ isArray t = false) →
     final_state (mergeData hasSymbol fuel' to from s) = Some s' → merge_inv s s') →
  plain_data s1 →
  heap s1 !! to = Some t1 → isArray t1 = false →
  heap s1 !! f = Some fo1 →
  key ≠ ob_key →
  final_state
    ((toVal <- js_get fuel to key ;;
      fromVal <- js_get fuel f key ;;
      t <- the_obj to ;;
      if negb (hasOwn t key) then
        set fuel (VRef to) key fromVal ;; ret tt
      else
        pt <- isPlainObject_value toVal ;;
        pf <- isPlainObject_value fromVal ;;
        if negb (strict_eq toVal fromVal) && pt && pf then
          match toVal, fuel with
          | VRef to', S fuel' => mergeData hasSymbol fuel' to' fromVal ;; ret tt
          | _, _ => stuck
          end
        else ret tt) s1) = Some s2 →
  merge_inv s1 s2 ∧
  (own_property t1 key = None →
   s2 = s1 ∨
   s2 = set_heap <[to := with_props (props t1 ++ [(key, PData (read_of fo1 key) true true true)]) t1]> s1).
Proof.
  intros IH Hpl Ht Hta Hfo Hkey Hf.
  erewrite bind_Ok in Hf by by apply (js_get_plain fuel s1 to t1).
  erewrite bind_Ok in Hf by by apply (js_get_plain fuel s1 f fo1).
  erewrite bind_Ok in Hf by by apply the_obj_Ok.
  unfold hasOwn in Hf.
  destruct (own_property t1 key) as [d|] eqn:Hown.
  - rewrite bool_decide_eq_true_2 in Hf by eauto. simpl in Hf.
    split; [|done].
    apply final_bind_inv in Hf as [(pt & s1' & [-> Hpt]%isPlainObject_value_inv & Hf)|(e & Hm)].
    2:{ destruct (read_of t1 key) as [| | | | | |r'|]; try done.
        simpl in Hm. unfold bind, the_obj in Hm. by destruct (heap s1 !! r'). }
    apply final_bind_inv in Hf as [(pf & s1' & [-> Hpf]%isPlainObject_value_inv & Hf)|(e & Hm)].
    2:{ destruct (read_of fo1 key) as [| | | | | |r'|]; try done.
        simpl in Hm. unfold bind, the_obj in Hm. by destruct (heap s1 !! r'). }
    destruct (negb (strict_eq (read_of t1 key) (read_of fo1 key)) && pt && pf) eqn:Hcond.
    + apply andb_true_iff in Hcond as [[_ ->]%andb_true_iff ->].
      destruct (Hpt eq_refl) as (to' & o' & Hto' & Ho' & Hplain').
      rewrite Hto' in Hf.
      destruct fuel as [|fuel']; [done|].
      apply final_ret_inv in Hf.
      apply (IH fuel' ltac:(lia) to' (read_of fo1 key) s1 s2); [done| |done].
      exists o'. split; [done|]. by apply plain_object_not_array.
    + injection Hf as <-. by apply merge_inv_refl.
  - rewrite bool_decide_eq_false_2 in Hf by (by intros [? ?]). simpl in Hf.
    apply final_ret_inv in Hf.
    rewrite (set_plain_new fuel s1 to t1 key _ Hpl Ht Hta Hown) in Hf.
    destruct (bool_decide (key = KName "__proto__")); [done|].
    destruct (extensible t1).
    + injection Hf as <-.
      destruct (store_new_keeps s1 to t1 key (read_of fo1 key) Hpl Ht Hta Hown Hkey)
        as (H1 & H2 & H3 & _).
      split; [by split_and!|]. intros _. by right.
    + injection Hf as <-. split; [by apply merge_inv_refl|]. intros _. by left.
Qed.

Lemma mergeData_inv fuel : ∀ to from s s',
  plain_data s →
  (∃ t, heap s !! to = Some t ∧ isArray t = false) →
  final_state (mergeData hasSymbol fuel to from s) = Some s' →
  merge_inv s s'.
Proof.
  induction fuel as [fuel IH] using lt_wf_ind.
  intros to from s s' Hpl (t & Ht & Hta) Hf.
  rewrite mergeData_eq in Hf.
  destruct (negb (truthy from)).
  { injection Hf as <-. by apply merge_inv_refl. }
  destruct from as [| | | | | |f|]; try done.
  apply final_bind_inv in Hf as [(fo & s1 & [-> Hfo]%the_obj_inv & Hf)|(e & Hm)].
  2:{ unfold the_obj in Hm. by destruct (heap s !! f). }
  apply final_bind_inv in Hf as [(keys & s1 & Hkeys & Hf)|(e & Hm)].
  2:{ by destruct (isArray fo). }
  assert (s1 = s) as ->.
  { destruct (isArray fo); [done|]. by injection Hkeys as _ <-. }
  clear Hkeys.
  apply final_ret_inv in Hf.
  revert Hf. apply (for_each_final_inv (merge_inv s)); [|by apply merge_inv_refl].
  intros key s1 s2 _ Hinv Hstep.
  eapply merge_inv_trans; [exact Hinv|].
  destruct Hinv as (Hpl1 & Hk1 & _).
  destruct (bool_decide (key = ob_key)) eqn:Hkey.
  { injection Hstep as <-. by apply merge_inv_refl. }
  apply bool_decide_eq_false in Hkey.
  destruct (keeps_props_to s s1 to t Hk1 Ht Hta) as (t1 & Ht1 & Hta1).
  destruct (Hk1 f fo Hfo) as (fo1 & Hfo1 & _).
  by apply (merge_step fuel to f key s1 s2 t1 fo1 IH).
Qed.


(** One turn of the loop that returns, on a key [to] does not have: the key
    has been stored. *)
Lemma merge_step_stores fuel to f key s1 t1 fo1 :
  plain_data s1 →
  heap s1 !! to = Some t1 → isArray t1 = false →
  heap s1 !! f = Some fo1 →
  own_property t1 key = None →
  (toVal <- js_get fuel to key ;;
   fromVal <- js_get fuel f key ;;
   t <- the_obj to ;;
   if negb (hasOwn t key) then
     set fuel (VRef to) key fromVal ;; ret tt
   else
     pt <- isPlainObject_value toVal ;;
     pf <- isPlainObject_value fromVal ;;
     if negb (strict_eq toVal fromVal) && pt && pf then
       match toVal, fuel with
       | VRef to', S fuel' => mergeData hasSymbol fuel' to' fromVal ;; ret tt
       | _, _ => stuck
       end
     else ret tt) s1 =
  if bool_decide (key = KName "__proto__") then Stuck
  else if extensible t1
  then Ok tt (set_heap
                <[to := with_props (props t1 ++ [(key, PData (read_of fo1 key) true true true)]) t1]>
                s1)
  else Throw (TypeError "Cannot add property, object is not extensible") s1.
Proof.
  intros Hpl Ht Hta Hfo Hown.
  erewrite bind_Ok by by apply (js_get_plain fuel s1 to t1).
  erewrite bind_Ok by by apply (js_get_plain fuel s1 f fo1).
  erewrite bind_Ok by by apply the_obj_Ok.
  unfold hasOwn. rewrite Hown.
  rewrite bool_decide_eq_false_2 by (by intros [? ?]). simpl.
  unfold bind. rewrite (set_plain_new fuel s1 to t1 key _ Hpl Ht Hta Hown).
  destruct (bool_decide (key = KName "__proto__")); [done|].
  by destruct (extensible t1).
Qed.

Lemma for_each_Ok_inv {A} (P : list A → State → Prop) (body : A → M unit) l2 :
  ∀ l1 s s',
  (∀ pre x s s', P pre s → body x s = Ok tt s' → P (pre ++ [x]) s') →
  P l1 s → for_each l2 body s = Ok tt s' → P (l1 ++ l2) s'.
Proof.
  induction l2 as [|x l2 IH]; intros l1 s s' Hb HP Hrun; simpl in Hrun.
  - injection Hrun as <-. by rewrite app_nil_r.
  - apply bind_Ok_inv in Hrun as ([] & s1 & Hx & Hrun).
    replace (l1 ++ x :: l2) with ((l1 ++ [x]) ++ l2) by (by rewrite <- app_assoc).
    eapply IH; [done| |done]. by eapply Hb.
Qed.

Lemma sorted_index_keys (l : list nat) n : n ∈ merge_sort le l ↔ n ∈ l.
Proof. by rewrite merge_sort_Permutation. Qed.

(** On plain data, the keys the loop goes through are all the own keys. *)
Lemma keys_complete s f fo k :
  plain_data s → heap s !! f = Some fo → isArray fo = false →
  is_Some (own_property fo k) →
  k ∈ (if hasSymbol then Reflect_ownKeys fo else Object_keys fo).
Proof.
  intros Hpl Hfo Ha [d Hp].
  rewrite own_property_alookup in Hp by (by apply plain_not_special).
  pose proof (alookup_Some_elem _ _ _ Hp) as Hin.
  destruct (Hpl f fo Hfo) as (_ & _ & Hprops).
  destruct (Hprops k d Hin) as (_ & v & ->).
  assert (enumerable_own (props fo) k = true) as Hen
    by (unfold enumerable_own; by rewrite Hp).
  destruct hasSymbol.
  - unfold Reflect_ownKeys. apply elem_of_app. destruct k as [kn|n].
    + right. unfold all_name_keys. apply list_elem_of_omap.
      by exists (KName kn, PData v true true true).
    + left. apply list_elem_of_fmap. exists n. split; [done|].
      apply sorted_index_keys. unfold all_index_keys. apply list_elem_of_omap.
      by exists (KIndex n, PData v true true true).
  - unfold Object_keys. apply elem_of_app. destruct k as [kn|n].
    + right. unfold name_keys. apply list_elem_of_omap.
      exists (KName kn, PData v true true true). split; [done|]. simpl. by rewrite Hen.
    + left. apply list_elem_of_fmap. exists n. split; [done|].
      apply sorted_index_keys. unfold index_keys. apply list_elem_of_omap.
      exists (KIndex n, PData v true true true). split; [done|]. simpl. by rewrite Hen.
Qed.

(** X22.  On plain data, however [mergeData (to, from)] ends (by return
    or by a TypeError on an object that is not extensible), every object of
    the heap still has each of its own properties with the descriptor and the
    value it had: no key of [to], of [from] or of an object nested in them is
    overwritten or removed.  The heap is still plain data and nothing but
    the heap has changed: no Dep is created and nothing is notified.  With no
    [from], [to] is returned at once. *)
Theorem mergeData_keeps_what_is_there (fuel : nat) (to : loc) (t : Obj)
    (from : value) (s s' : State) :
  plain_data s →
  heap s !! to = Some t →
  isArray t = false →
  final_state (mergeData hasSymbol fuel to from s) = Some s' →
  keeps_props s s' ∧ plain_data s' ∧ same_but_heap s s' ∧
  (truthy from = false → mergeData hasSymbol fuel to from s = Ok (VRef to) s).
Proof.
  intros Hpl Ht Hta Hf.
  destruct (mergeData_inv fuel to from s s' Hpl) as (H1 & H2 & H3); [by exists t|done|].
  split_and!; try done.
  intros Hfalsy. rewrite mergeData_eq. by rewrite Hfalsy.
Qed.


End MergeDataMain.

Section MergeDataFlat.
Context `{Host}.
Variable hasSymbol : bool.

Lemma fill_props fo keys : ∀ acc,
  let out := foldl (fill_step fo) acc keys in
  (∀ k d, alookup k acc = Some d → alookup k out = Some d) ∧
  (∀ k, alookup k acc = None → k ∈ keys → k ≠ ob_key →
     alookup k out = Some (PData (read_of fo k) true true true)) ∧
  (∀ k, alookup k acc = None → k ∉ keys → alookup k out = None).
Proof.
  induction keys as [|key keys IH]; intros acc; simpl.
  - split_and!; try done. intros k _ Hk. by apply elem_of_nil in Hk.
  - destruct (IH (fill_step fo acc key)) as (I1 & I2 & I3).
    assert (∀ k d, alookup k acc = Some d → alookup k (fill_step fo acc key) = Some d) as Hkeep.
    { intros k d Hk. unfold fill_step. destruct (bool_decide (key = ob_key)); [done|].
      destruct (alookup key acc) eqn:Hkey; [done|].
      rewrite alookup_app_absent by done. rewrite Hk. by destruct (decide (k = key)). }
    assert (∀ k, k ≠ key → alookup k acc = None →
                 alookup k (fill_step fo acc key) = None) as Hother.
    { intros k Hne Hk. unfold fill_step. destruct (bool_decide (key = ob_key)); [done|].
      destruct (alookup key acc) eqn:Hkey; [done|].
      rewrite alookup_app_absent by done. by rewrite decide_False by done. }
    split_and!.
    + intros k d Hk. by apply I1, Hkeep.
    + intros k Hk Hin Hne. destruct (decide (k = key)) as [->|Hkk].
      * apply I1. unfold fill_step. rewrite bool_decide_eq_false_2 by done.
        rewrite Hk. rewrite alookup_app_absent by done.
        rewrite decide_True by done. by rewrite Hk.
      * apply I2; [by apply Hother| |done].
        apply elem_of_cons in Hin as [?|?]; done.
    + intros k Hk Hin. apply I3; [|set_solver].
      apply Hother; [set_solver|done].
Qed.

Lemma keys_sound fo k :
  isArray fo = false →
  k ∈ (if hasSymbol then Reflect_ownKeys fo else Object_keys fo) →
  is_Some (own_property fo k).
Proof.
  intros Ha Hk. rewrite own_property_alookup by (by apply plain_not_special).
  destruct hasSymbol.
  - apply alookup_is_Some. unfold Reflect_ownKeys in Hk.
    apply elem_of_app in Hk as [Hk|Hk].
    + apply list_elem_of_fmap in Hk as (n & -> & Hn).
      rewrite sorted_index_keys in Hn. unfold all_index_keys in Hn.
      apply list_elem_of_omap in Hn as ([k0 p] & Hin & Hf). simpl in Hf.
      destruct k0; [done|]. injection Hf as ->.
      apply list_elem_of_fmap. by exists (KIndex n, p).
    + unfold all_name_keys in Hk.
      apply list_elem_of_omap in Hk as ([k0 p] & Hin & Hf). simpl in Hf.
      destruct k0; [|done]. injection Hf as <-.
      apply list_elem_of_fmap. by exists (KName s, p).
  - apply Object_keys_enumerable in Hk. unfold enumerable_own in Hk.
    destruct (alookup k (props fo)); [eauto|done].
Qed.

Lemma isPlainObject_value_total v s :
  (∀ r, v = VRef r → is_Some (heap s !! r)) →
  ∃ b, isPlainObject_value v s = Ok b s ∧ (isObject v = false → b = false).
Proof.
  intros Hv. destruct v as [| | | | | |r|]; try (by exists false).
  destruct (Hv r eq_refl) as [o Ho]. exists (isPlainObject o). split; [|done].
  simpl. by erewrite bind_Ok by by apply the_obj_Ok.
Qed.

Lemma strict_eq_ref_refl v : isObject v = true → strict_eq v v = true.
Proof. destruct v; try done; intros _; simpl; by apply bool_decide_eq_true_2. Qed.


Lemma with_props_twice a b o : with_props a (with_props b o) = with_props a o.
Proof. done. Qed.

Lemma plain_data_with_props s to t acc :
  plain_data s → heap s !! to = Some t →
  (∀ k d, (k, d) ∈ acc → k ≠ ob_key ∧ ∃ v, d = PData v true true true) →
  plain_data (set_heap <[to := with_props acc t]> s).
Proof.
  intros Hpl Ht Hacc r o. simpl.
  destruct (decide (r = to)) as [->|Hne].
  - rewrite lookup_insert_eq. intros [= <-].
    destruct (Hpl to t Ht) as (? & ? & _). done.
  - rewrite lookup_insert_ne by done. apply Hpl.
Qed.

Section FlatLoop.
Variables (fuel : nat) (to f : loc) (t fo : Obj) (s : State).
Hypothesis Hpl : plain_data s.
Hypothesis Ht : heap s !! to = Some t.
Hypothesis Hta : isArray t = false.
Hypothesis Hext : extensible t = true.
Hypothesis Hfo : heap s !! f = Some fo.
Hypothesis Hfa : isArray fo = false.
Hypothesis Hne : f ≠ to.
Hypothesis Hproto : own_property fo (KName "__proto__") = None.
Hypothesis Hflat : ∀ key, isObject (read_of t key) = false.
Hypothesis Hvalid : ∀ key r, read_of fo key = VRef r → is_Some (heap s !! r).

Lemma flat_loop keys : ∀ acc,
  (∀ k, k ∈ keys → is_Some (own_property fo k)) →
  (∀ k d, (k, d) ∈ acc → k ≠ ob_key ∧ ∃ v, d = PData v true true true) →
  (∀ k d, alookup k acc = Some d →
     alookup k (props t) = Some d ∨ d = PData (read_of fo k) true true true) →
  for_each keys (fun key =>
    if bool_decide (key = ob_key) then ret tt
    else
      toVal <- js_get fuel to key ;;
      fromVal <- js_get fuel f key ;;
      t <- the_obj to ;;
      if negb (hasOwn t key) then
        set fuel (VRef to) key fromVal ;; ret tt
      else
        pt <- isPlainObject_value toVal ;;
        pf <- isPlainObject_value fromVal ;;
        if negb (strict_eq toVal fromVal) && pt && pf then
          match toVal, fuel with
          | VRef to', S fuel' => mergeData hasSymbol fuel' to' fromVal ;; ret tt
          | _, _ => stuck
          end
        else ret tt) (set_heap <[to := with_props acc t]> s)
  = Ok tt (set_heap <[to := with_props (foldl (fill_step fo) acc keys) t]> s).
Proof.
  induction keys as [|key keys IH]; intros acc Hkeys Hacc Hsrc; [done|].
  cbn [for_each foldl].
  set (s1 := set_heap <[to := with_props acc t]> s).
  set (t1 := with_props acc t).
  assert (plain_data s1) as Hpl1 by (by apply plain_data_with_props).
  assert (heap s1 !! to = Some t1) as Ht1 by apply set_heap_lookup.
  assert (heap s1 !! f = Some fo) as Hfo1 by (simpl; by rewrite lookup_insert_ne).
  assert (isArray t1 = false) as Hta1 by done.
  assert (∀ k, own_property t1 k = alookup k acc) as Hown1.
  { intros k. by rewrite own_property_alookup by (by apply plain_not_special). }
  assert (∀ acc', (∀ k d, (k, d) ∈ acc' → k ≠ ob_key ∧ ∃ v, d = PData v true true true) →
            (∀ k d, alookup k acc' = Some d →
               alookup k (props t) = Some d ∨ d = PData (read_of fo k) true true true) →
            for_each keys (fun key =>
              if bool_decide (key = ob_key) then ret tt
              else
                toVal <- js_get fuel to key ;;
                fromVal <- js_get fuel f key ;;
                t <- the_obj to ;;
                if negb (hasOwn t key) then
                  set fuel (VRef to) key fromVal ;; ret tt
                else
                  pt <- isPlainObject_value toVal ;;
                  pf <- isPlainObject_value fromVal ;;
                  if negb (strict_eq toVal fromVal) && pt && pf then
                    match toVal, fuel with
                    | VRef to', S fuel' => mergeData hasSymbol fuel' to' fromVal ;; ret tt
                    | _, _ => stuck
                    end
                  else ret tt) (set_heap <[to := with_props acc' t]> s)
            = Ok tt (set_heap <[to := with_props (foldl (fill_step fo) acc' keys) t]> s))
    as IH'.
  { intros acc' H1 H2. apply IH; [|done|done]. intros k Hk. apply Hkeys. by right. }
  unfold fill_step at 2.
  destruct (bool_decide (key = ob_key)) eqn:Hkey.
  { unfold bind at 1, ret at 1. by apply IH'. }
  apply bool_decide_eq_false in Hkey.
  destruct (alookup key acc) as [d|] eqn:Hal.
  - (* [to] has the key *)
    erewrite bind_Ok; [by apply IH'|].
    erewrite bind_Ok by by apply (js_get_plain fuel s1 to t1).
    erewrite bind_Ok by by apply (js_get_plain fuel s1 f fo).
    erewrite bind_Ok by by apply the_obj_Ok.
    unfold hasOwn. rewrite Hown1, Hal.
    rewrite bool_decide_eq_true_2 by eauto. simpl.
    assert (isObject (read_of t1 key) = false ∨ read_of t1 key = read_of fo key) as Hcase.
    { unfold read_of at 1 2. rewrite Hown1, Hal.
      destruct (Hsrc key d Hal) as [Hd| ->]; [|by right].
      left. specialize (Hflat key). unfold read_of in Hflat.
      rewrite own_property_alookup in Hflat by (by apply plain_not_special).
      by rewrite Hd in Hflat. }
    assert (∀ v r, v = read_of fo key → v = VRef r → is_Some (heap s1 !! r)) as Hv1.
    { intros v r -> Hr. destruct (Hvalid key r Hr) as [o Ho]. simpl.
      destruct (decide (r = to)) as [->|?];
        [rewrite lookup_insert_eq|rewrite lookup_insert_ne by done]; eauto. }
    destruct (isPlainObject_value_total (read_of t1 key) s1) as (pt & Hpt & Hptf).
    { intros r Hr. destruct Hcase as [Hobj|Heq]; [by rewrite Hr in Hobj|].
      by apply (Hv1 (read_of t1 key)). }
    destruct (isPlainObject_value_total (read_of fo key) s1) as (pf & Hpf & _).
    { intros r Hr. by apply (Hv1 (read_of fo key)). }
    erewrite bind_Ok by exact Hpt.
    erewrite bind_Ok by exact Hpf.
    replace (negb (strict_eq (read_of t1 key) (read_of fo key)) && pt && pf) with false; [done|].
    symmetry. destruct (isObject (read_of t1 key)) eqn:Hobj.
    + destruct Hcase as [?|Heq]; [done|]. rewrite <- Heq.
      by rewrite strict_eq_ref_refl.
    + rewrite (Hptf eq_refl). by rewrite andb_false_r.
  - (* the key is new *)
    assert (bool_decide (key = KName "__proto__") = false) as Hnp.
    { apply bool_decide_eq_false_2. intros ->.
      destruct (Hkeys (KName "__proto__")) as [d Hd]; [by left|]. by rewrite Hproto in Hd. }
    erewrite bind_Ok.
    2:{ rewrite (merge_step_stores hasSymbol fuel to f key s1 t1 fo);
          [|done|done|done|done|by rewrite Hown1].
        rewrite Hnp. unfold t1 at 1. cbn [extensible with_props]. rewrite Hext. reflexivity. }
    subst s1. rewrite set_heap_insert_twice. subst t1. cbn [props with_props].
    apply IH'.
    + intros k d0 [Hin|Hin]%elem_of_app; [by apply Hacc|].
      apply list_elem_of_singleton in Hin. injection Hin as -> ->. eauto.
    + intros k d0. rewrite alookup_app_absent by done.
      destruct (decide (k = key)) as [->|Hk].
      * rewrite Hal. intros [= <-]. by right.
      * apply Hsrc.
Qed.

End FlatLoop.

(** X24.  On flat plain data ([to] is extensible and holds no objects, and
    [from] is another object), [mergeData (to, from)] returns [to] whatever
    the fuel, and [to] has then its own properties as they were, followed
    by the keys of [from] it did not have, in the order [from] lists them,
    each with the value [from] has for it; [to] has no other key, and
    nothing but [to] has changed. *)
Theorem mergeData_flat (fuel : nat) (to f : loc) (t fo : Obj) (s : State) :
  plain_data s →
  heap s !! to = Some t → isArray t = false → extensible t = true →
  heap s !! f = Some fo → isArray fo = false → f ≠ to →
  own_property fo (KName "__proto__") = None →
  (∀ key, isObject (read_of t key) = false) →
  (∀ key r, read_of fo key = VRef r → is_Some (heap s !! r)) →
  let keys := if hasSymbol then Reflect_ownKeys fo else Object_keys fo in
  let t' := with_props (filled t fo keys) t in
  mergeData hasSymbol fuel to (VRef f) s = Ok (VRef to) (set_heap <[to := t']> s) ∧
  (∀ key d, own_property t key = Some d → own_property t' key = Some d) ∧
  (∀ key d, own_property t key = None → own_property fo key = Some d →
     own_property t' key = Some d) ∧
  (∀ key, own_property t key = None → own_property fo key = None →
     own_property t' key = None).
Proof.
  intros Hpl Ht Hta Hext Hfo Hfa Hne Hproto Hflat Hvalid keys t'.
  destruct (fill_props fo keys (props t)) as (F1 & F2 & F3).
  assert (∀ o k, isArray o = false → own_property o k = alookup k (props o)) as Hown.
  { intros o k Ha. by rewrite own_property_alookup by (by apply plain_not_special). }
  assert (isArray t' = false) as Hta' by done.
  split_and!.
  - rewrite mergeData_eq. simpl.
    erewrite bind_Ok by by apply the_obj_Ok.
    rewrite Hfa. erewrite bind_Ok by reflexivity. fold keys.
    erewrite bind_Ok; [reflexivity|].
    rewrite <- (set_heap_id to t s) at 1 by done.
    rewrite <- (with_props_id t) at 1.
    apply (flat_loop fuel to f t fo s); try done.
    + intros k Hk. by apply keys_sound.
    + intros k d Hin. destruct (Hpl to t Ht) as (_ & _ & Hprops). by apply Hprops.
    + intros k d Hd. by left.
  - intros key d. rewrite !Hown by done. apply F1.
  - intros key d Hnone Hd. rewrite !Hown in * by done.
    pose proof (alookup_Some_elem _ _ _ Hd) as Hin.
    destruct (Hpl f fo Hfo) as (_ & _ & Hprops).
    destruct (Hprops key d Hin) as (Hkey & v & ->).
    unfold t', filled. cbn [props with_props]. rewrite F2; [|done| |done].
    + unfold read_of. rewrite Hown by done. by rewrite Hd.
    + apply (keys_complete hasSymbol s f fo); [done|done|done|].
      rewrite Hown by done. eauto.
  - intros key Hnone Hd. rewrite !Hown in * by done.
    apply F3; [done|]. intros Hin.
    apply (keys_sound fo key Hfa) in Hin as [d' Hd']. rewrite Hown in Hd' by done.
    by rewrite Hd in Hd'.
Qed.

End MergeDataFlat.

Section Quiet.
Context `{Host}.

Lemma quiet_ret {A} (a : A) : quiet (ret a).
Proof. by intros s a' s' [= _ <-]. Qed.
Lemma quiet_stuck {A} : quiet (@stuck A).
Proof. by intros s a s'. Qed.
Lemma quiet_throw {A} e : quiet (@throw A e).
Proof. by intros s a s'. Qed.
Lemma quiet_gets {A} (f : State → A) : quiet (gets f).
Proof. by intros s a' s' [= _ <-]. Qed.
Lemma quiet_modify f :
  (∀ s, heap (f s) = heap s ∧ closures (f s) = closures s) → quiet (modify f).
Proof. intros Hf s a s' Hm. injection Hm as Hm. subst s'. apply Hf. Qed.
Lemma quiet_bind {A B} (m : M A) (k : A → M B) :
  quiet m → (∀ a, quiet (k a)) → quiet (bind m k).
Proof.
  intros Hm Hk s b s2 (a & s1 & H1 & H2)%bind_Ok_inv.
  destruct (Hm _ _ _ H1) as [E1 E2]. destruct (Hk _ _ _ _ H2) as [E3 E4].
  split; congruence.
Qed.
Lemma quiet_for_each {A} (l : list A) (body : A → M unit) :
  (∀ x, quiet (body x)) → quiet (for_each l body).
Proof.
  intros Hb. induction l as [|x l IH]; simpl.
  - apply quiet_ret.
  - apply quiet_bind; [apply Hb | by intros _].
Qed.
Lemma quiet_when b m : quiet m → quiet (when b m).
Proof. destruct b; [done | intros _; apply quiet_ret]. Qed.
Lemma quiet_this_watcher w : quiet (this_watcher w).
Proof. intros s a s'. unfold this_watcher. destruct (_ !! _); [|done]. by intros [= _ <-]. Qed.
Lemma quiet_the_obj r : quiet (the_obj r).
Proof. intros s a s'. unfold the_obj. destruct (_ !! _); [|done]. by intros [= _ <-]. Qed.
Lemma quiet_the_closure c : quiet (the_closure c).
Proof. intros s a s'. unfold the_closure. destruct (_ !! _); [|done]. by intros [= _ <-]. Qed.
Lemma quiet_the_observer i : quiet (the_observer i).
Proof. intros s a s'. unfold the_observer. destruct (_ !! _); [|done]. by intros [= _ <-]. Qed.
Lemma quiet_new_Dep : quiet new_Dep.
Proof. by intros s a s' [= _ <-]. Qed.
Lemma quiet_alloc_observer o : quiet (alloc_observer o).
Proof. by intros s a s' [= _ <-]. Qed.

Create HintDb quiet discriminated.
#[local] Hint Resolve quiet_ret quiet_stuck quiet_throw quiet_gets
  quiet_this_watcher quiet_the_obj quiet_the_closure
  quiet_the_observer quiet_new_Dep quiet_alloc_observer : quiet.

(** Break a run into its steps and settle each one. *)
Ltac quiet_steps :=
  repeat first
    [ progress eauto with quiet
    | apply quiet_bind; [|intros ?]
    | apply quiet_for_each; intros ?
    | apply quiet_when
    | apply quiet_modify; intros ?; by split
    | match goal with
      | |- quiet (match ?x with _ => _ end) => destruct x
      end ].

Section QuietGetters.
Hypothesis getters_quiet :
  ∀ g r s v s', call_getter g r s = Ok v s' → heap s' = heap s ∧ closures s' = closures s.

Lemma quiet_call_getter g r : quiet (call_getter g r).
Proof. intros s a s'. apply getters_quiet. Qed.
#[local] Hint Resolve quiet_call_getter : quiet.

Lemma quiet_addDep w d : quiet (addDep w d).
Proof. unfold addDep, update_watcher, addSub. quiet_steps. Qed.
#[local] Hint Resolve quiet_addDep : quiet.

Lemma quiet_dep_depend d : quiet (dep_depend d).
Proof. unfold dep_depend. quiet_steps. Qed.
#[local] Hint Resolve quiet_dep_depend : quiet.

Lemma quiet_get_ob r : quiet (get_ob r).
Proof. unfold get_ob. quiet_steps. Qed.
#[local] Hint Resolve quiet_get_ob : quiet.

Lemma quiet_get_elem r i : quiet (get_elem r i).
Proof. unfold get_elem. quiet_steps. Qed.
#[local] Hint Resolve quiet_get_elem : quiet.

Lemma quiet_is_array_value v : quiet (is_array_value v).
Proof. unfold is_array_value. quiet_steps. Qed.
#[local] Hint Resolve quiet_is_array_value : quiet.

Lemma quiet_ob_dep_depend v : quiet (ob_dep_depend v).
Proof. unfold ob_dep_depend. quiet_steps. Qed.
#[local] Hint Resolve quiet_ob_dep_depend : quiet.

Lemma quiet_dependArray fuel : ∀ r, quiet (dependArray fuel r).
Proof.
  induction fuel as [|fuel IH]; intros r; simpl; quiet_steps.
Qed.
#[local] Hint Resolve quiet_dependArray : quiet.

Lemma quiet_closure_value cl : quiet (closure_value cl).
Proof. unfold closure_value. quiet_steps. Qed.
#[local] Hint Resolve quiet_closure_value : quiet.

Lemma quiet_reactiveGetter fuel c : quiet (reactiveGetter fuel c).
Proof. unfold reactiveGetter. quiet_steps. Qed.
#[local] Hint Resolve quiet_reactiveGetter : quiet.

Lemma quiet_js_get fuel r k : quiet (js_get fuel r k).
Proof. unfold js_get. quiet_steps. Qed.

End QuietGetters.
End Quiet.

Section Apart.
Context `{Host}.
Hypothesis getters_quiet :
  ∀ g r s v s', call_getter g r s = Ok v s' → heap s' = heap s ∧ closures s' = closures s.

Lemma stays_refl s : stays s s.
Proof. by split. Qed.

Lemma carries_same_obj s s' r ob :
  heap s' !! r = heap s !! r → carries s r ob → carries s' r ob.
Proof. unfold carries. by intros ->. Qed.

Lemma stays_trans s0 s1 s2 : stays s0 s1 → stays s1 s2 → stays s0 s2.
Proof.
  intros [H1 C1] [H2 C2]. split.
  - intros r ob Hc. rewrite <- (H1 r ob Hc). apply (H2 r ob).
    apply (carries_same_obj s0); [by apply (H1 r ob)|done].
  - intros c cl Hc. by apply C2, C1.
Qed.

Lemma quiet_keeps {A} (m : M A) s0 : quiet m → keeps_from s0 m.
Proof.
  intros Hq s a s' Hr [Hh Hc]. destruct (Hq s a s' Hr) as [E1 E2]. split.
  - intros r ob Hcar. rewrite E1. by apply (Hh r ob).
  - intros c cl Hcl. rewrite E2. by apply Hc.
Qed.

Lemma apart_keeps {A} (m : M A) s0 : wraps_apart m → keeps_from s0 m.
Proof. intros Hm s a s' Hr Hst. eapply stays_trans; [done|by eapply Hm]. Qed.

Lemma keeps_from_bind {A B} s0 (m : M A) (k : A → M B) :
  keeps_from s0 m → (∀ a, keeps_from s0 (k a)) → keeps_from s0 (bind m k).
Proof.
  intros Hm Hk s b s2 (a & s1 & H1 & H2)%bind_Ok_inv Hst.
  eapply Hk; [done|]. by eapply Hm.
Qed.

Lemma keeps_from_for_each {A} s0 (l : list A) (body : A → M unit) :
  (∀ x, x ∈ l → keeps_from s0 (body x)) → keeps_from s0 (for_each l body).
Proof.
  induction l as [|x l IH]; intros Hb; simpl.
  - apply quiet_keeps, quiet_ret.
  - apply keeps_from_bind; [apply Hb; left | intros _; apply IH; intros y Hy; apply Hb; by right].
Qed.

Lemma alloc_closure_keeps s0 cl : keeps_from s0 (alloc_closure cl).
Proof.
  intros s a s' [= <- <-] [Hh Hc]. split; [done|].
  intros c cl0 Hcl0. simpl. rewrite lookup_insert_ne; [by apply Hc|].
  intros <-. apply Hc in Hcl0.
  pose proof (is_fresh (dom (closures s))) as Hf. apply Hf. by apply elem_of_dom.
Qed.

Section Fresh.
Variables (s0 : State) (r0 : loc).
Hypothesis Hfresh : ∀ ob, ¬ carries s0 r0 ob.

Lemma update_obj_keeps f : keeps_from s0 (update_obj r0 f).
Proof.
  intros s a s' Hu [Hh Hc]. unfold update_obj, modify in Hu.
  injection Hu as Hu. subst s'. split; [|exact Hc].
  intros r ob Hcar. simpl. rewrite lookup_alter_ne; [by apply (Hh r ob)|].
  intros <-. by apply (Hfresh ob).
Qed.

Lemma store_property_keeps_from k d : keeps_from s0 (store_property r0 k d).
Proof.
  unfold store_property. apply keeps_from_bind; [apply quiet_keeps, quiet_the_obj|].
  intros o. destruct (cls o), k, d as [v [] [] []|]; try apply update_obj_keeps;
    try (apply quiet_keeps, quiet_stuck);
    (case_decide; [apply quiet_keeps, quiet_stuck|apply update_obj_keeps]).
Qed.

Lemma defineProperty_keeps_from k d : keeps_from s0 (defineProperty r0 k d).
Proof.
  unfold defineProperty. apply keeps_from_bind; [apply quiet_keeps, quiet_the_obj|].
  intros o. destruct (own_property o k) as [p|].
  - destruct (pd_configurable p); [apply store_property_keeps_from|].
    apply quiet_keeps, quiet_throw.
  - destruct (extensible o); [apply store_property_keeps_from|].
    apply quiet_keeps, quiet_throw.
Qed.

Lemma copyAugment_keeps_from keys : keeps_from s0 (copyAugment r0 keys).
Proof.
  unfold copyAugment. apply keeps_from_for_each. intros k _.
  apply defineProperty_keeps_from.
Qed.

Section Rec.
Variable fuel : nat.
Variable observe_rec : value → bool → M (option obid).
Hypothesis rec_apart : ∀ v a, wraps_apart (observe_rec v a).

Lemma defineReactive_with_keeps_from key args :
  keeps_from s0 (defineReactive_with fuel observe_rec r0 key args).
Proof.
  unfold defineReactive_with.
  apply keeps_from_bind; [apply quiet_keeps, quiet_new_Dep|intros dep].
  apply keeps_from_bind; [apply quiet_keeps, quiet_the_obj|intros o].
  destruct (bool_decide _); [apply quiet_keeps, quiet_ret|].
  apply keeps_from_bind.
  { destruct (_ && _); apply quiet_keeps; [by apply quiet_js_get|apply quiet_ret]. }
  intros val. apply keeps_from_bind.
  { destruct (arg_shallow args); [apply quiet_keeps, quiet_ret|apply apart_keeps, rec_apart]. }
  intros childOb. apply keeps_from_bind; [apply alloc_closure_keeps|intros c].
  apply defineProperty_keeps_from.
Qed.

Lemma walk_with_keeps_from : keeps_from s0 (walk_with fuel observe_rec r0).
Proof.
  unfold walk_with. apply keeps_from_bind; [apply quiet_keeps, quiet_the_obj|intros o].
  apply keeps_from_for_each. intros k _. apply defineReactive_with_keeps_from.
Qed.

Lemma observeArray_with_keeps_from : keeps_from s0 (observeArray_with observe_rec r0).
Proof.
  unfold observeArray_with.
  apply keeps_from_bind; [apply quiet_keeps, quiet_the_obj|intros o].
  apply keeps_from_for_each. intros i _.
  apply keeps_from_bind; [apply quiet_keeps; by apply quiet_get_elem|intros v].
  apply keeps_from_bind; [apply apart_keeps, rec_apart|intros _; apply quiet_keeps, quiet_ret].
Qed.

Lemma new_Observer_with_keeps_from :
  keeps_from s0 (new_Observer_with fuel observe_rec r0).
Proof.
  unfold new_Observer_with.
  apply keeps_from_bind; [apply quiet_keeps, quiet_new_Dep|intros dep].
  apply keeps_from_bind; [apply quiet_keeps, quiet_alloc_observer|intros this].
  apply keeps_from_bind; [apply defineProperty_keeps_from|intros _].
  apply keeps_from_bind; [apply quiet_keeps, quiet_the_obj|intros o].
  apply keeps_from_bind; [|intros _; apply quiet_keeps, quiet_ret].
  destruct (isArray o); [|apply walk_with_keeps_from].
  apply keeps_from_bind; [|intros _; apply observeArray_with_keeps_from].
  destruct hasProto; [apply update_obj_keeps|apply copyAugment_keeps_from].
Qed.

End Rec.
End Fresh.

Lemma observe_with_apart fuel observe_rec v a :
  (∀ v a, wraps_apart (observe_rec v a)) →
  wraps_apart (observe_with fuel observe_rec v a).
Proof.
  intros Hrec s res s' Hrun. unfold observe_with in Hrun.
  apply bind_Ok_inv in Hrun as (vnode & t & Hvn & Hrun).
  destruct v as [| | | | | |r|]; simpl in Hvn, Hrun;
    try (injection Hvn as <- <-; injection Hrun as <- <-; apply stays_refl).
  2:{ injection Hvn as <- <-. done. }
  apply bind_Ok_inv in Hvn as (o & t' & [-> Ho]%the_obj_inv & Hvn).
  injection Hvn as <- <-.
  destruct (bool_decide (cls o = CVNode)) eqn:Hcls; simpl in Hrun.
  { injection Hrun as <- <-. apply stays_refl. }
  apply bind_Ok_inv in Hrun as (o1 & t' & [-> Ho1]%the_obj_inv & Hrun).
  assert (o1 = o) as -> by congruence.
  apply bind_Ok_inv in Hrun as (existing & s1 & Hex & Hrun).
  apply bind_Ok_inv in Hrun as (ob & s2 & Hob & Hrun).
  apply bind_Ok_inv in Hrun as ([] & s3 & Hcount & Hret).
  injection Hret as <- <-.
  assert (heap s3 = heap s2 ∧ closures s3 = closures s2) as [Hh3 Hc3].
  { destruct ob as [i|]; [|by injection Hcount as <-].
    destruct a; [|by injection Hcount as <-].
    unfold when, update_observer, modify in Hcount. by injection Hcount as <-. }
  assert ((heap s1 = heap s ∧ closures s1 = closures s) ∧
          (existing = None → ∀ i, ¬ carries s r i)) as ([Hh1 Hc1] & Hnone).
  { unfold hasOwn in Hex. destruct (own_property o ob_key) as [p|] eqn:Hp.
    - rewrite bool_decide_eq_true_2 in Hex by eauto.
      apply bind_Ok_inv in Hex as (v1 & s1' & Hget & Hex). injection Hex as <- <-.
      split; [by apply (quiet_get_ob getters_quiet _ _ _ _ Hget)|].
      unfold get_ob in Hget.
      apply bind_Ok_inv in Hget as (o1 & t' & [-> Ho1']%the_obj_inv & Hget).
      assert (o1 = o) as -> by congruence. rewrite Hp in Hget.
      intros Hi i (o2 & wr & en & cf & Ho2 & _ & Hp2).
      assert (o2 = o) as -> by congruence. rewrite Hp in Hp2. injection Hp2 as ->.
      injection Hget as <- <-. done.
    - rewrite bool_decide_eq_false_2 in Hex by (by intros [? ?]).
      injection Hex as <- <-. split; [done|].
      intros _ i (o2 & wr & en & cf & Ho2 & _ & Hp2).
      assert (o2 = o) as -> by congruence. by rewrite Hp in Hp2. }
  assert (stays s s1) as Hst1.
  { split; [intros ? ? _; by rewrite Hh1|intros ? ? ?; by rewrite Hc1]. }
  assert (stays s s2 → stays s s3) as Hst3.
  { intros [Ha Hb]. split; [intros ? ? ?; rewrite Hh3; by eapply Ha|
                             intros ? ? ?; rewrite Hc3; by apply Hb]. }
  apply Hst3. destruct existing as [i|].
  - by injection Hob as <- <-.
  - apply bind_Ok_inv in Hob as (so & t' & Hso & Hob). injection Hso as <- <-.
    apply bind_Ok_inv in Hob as (o1 & t' & [-> Ho1']%the_obj_inv & Hob).
    destruct (_ && _).
    + apply bind_Ok_inv in Hob as (this & t' & Hnew & Hob). injection Hob as <- ->.
      by apply (new_Observer_with_keeps_from s r (Hnone eq_refl) fuel observe_rec Hrec
                  s1 this s2 Hnew).
    + by injection Hob as <- <-.
Qed.

Lemma observe_apart fuel : ∀ v a, wraps_apart (observe fuel v a).
Proof.
  induction fuel as [|fuel IH]; intros v a; rewrite observe_unfold.
  - apply observe_with_apart. intros ? ? ? ? ?. done.
  - by apply observe_with_apart.
Qed.

End Apart.

Section WalkProofs.
Context `{Host}.
Hypothesis getters_quiet :
  ∀ g r s v s', call_getter g r s = Ok v s' → heap s' = heap s ∧ closures s' = closures s.

Lemma NoDup_omap_keys {A B} (g : pkey * A → option B) (key_of : B → pkey) (l : list (pkey * A)) :
  (∀ kp b, g kp = Some b → key_of b = kp.1) →
  NoDup l.*1 → NoDup (omap g l).
Proof.
  intros Hg. induction l as [|kp l IH]; simpl; [intros _; apply NoDup_nil_2|].
  intros [Hnotin Hnd]%NoDup_cons. destruct (g kp) as [b|] eqn:Hb; [|by apply IH].
  apply NoDup_cons. split; [|by apply IH].
  intros Hin. apply list_elem_of_omap in Hin as (kp' & Hin' & Hb').
  apply Hnotin. apply list_elem_of_fmap. exists kp'. split; [|done].
  rewrite <- (Hg kp b Hb). by rewrite (Hg kp' b Hb').
Qed.

Lemma NoDup_Object_keys o : NoDup (props o).*1 → NoDup (Object_keys o).
Proof.
  intros Hnd. unfold Object_keys. apply NoDup_app. split_and!.
  - apply (NoDup_fmap_2_strong KIndex); [by intros x y _ _ [= ->]|].
    rewrite merge_sort_Permutation.
    unfold index_keys. apply (NoDup_omap_keys _ KIndex); [|done].
    intros [k p] n. simpl. destruct k; [done|].
    destruct (enumerable_own (props o) (KIndex n0)); [|done]. by intros [= ->].
  - intros k Hk1 Hk2. apply list_elem_of_fmap in Hk1 as (n & -> & _).
    unfold name_keys in Hk2. apply list_elem_of_omap in Hk2 as ([k p] & _ & Hf).
    simpl in Hf. destruct k; [|done].
    by destruct (enumerable_own (props o) (KName s)).
  - unfold name_keys. apply (NoDup_omap_keys _ id); [|done].
    intros [k p] b. simpl. destruct k; [|done].
    destruct (enumerable_own (props o) (KName s)); [|done]. by intros [= <-].
Qed.

Lemma Object_keys_complete o k d :
  alookup k (props o) = Some d → pd_enumerable d = true → k ∈ Object_keys o.
Proof.
  intros Hl He.
  assert (enumerable_own (props o) k = true) as Hen
    by (unfold enumerable_own; by rewrite Hl).
  pose proof (alookup_Some_elem _ _ _ Hl) as Hin.
  unfold Object_keys. apply elem_of_app. destruct k as [kn|n].
  - right. unfold name_keys. apply list_elem_of_omap.
    exists (KName kn, d). split; [done|]. simpl. by rewrite Hen.
  - left. apply list_elem_of_fmap. exists n. split; [done|].
    apply sorted_index_keys. unfold index_keys. apply list_elem_of_omap.
    exists (KIndex n, d). split; [done|]. simpl. by rewrite Hen.
Qed.

(** One [defineReactive(obj, key)] of [walk], on an object that carries its
    Observer already. *)
Lemma defineReactive_walk_step fuel (observe_rec : value → bool → M (option obid))
    r k o ob s s' :
  (∀ v a, wraps_apart (observe_rec v a)) →
  heap s !! r = Some o → isArray o = false → carries s r ob →
  defineReactive_with fuel observe_rec r k TwoArgs s = Ok tt s' →
  (∀ c cl, closures s !! c = Some cl → closures s' !! c = Some cl) ∧
  ∃ o', heap s' !! r = Some o' ∧ cls o' = cls o ∧ elems o' = elems o ∧
    extensible o' = extensible o ∧
    (∀ k', k' ≠ k → alookup k' (props o') = alookup k' (props o)) ∧
    (∀ d, alookup k (props o) = Some d → pd_configurable d = false →
       alookup k (props o') = Some d) ∧
    (∀ v wr en, alookup k (props o) = Some (PData v wr en true) →
       ∃ c cl, alookup k (props o') = Some (reactive_accessor c) ∧
         closures s' !! c = Some cl ∧ c_val cl = v ∧ c_getter cl = None ∧
         c_setter cl = None ∧ c_obj cl = r ∧ c_key cl = k).
Proof.
  intros Hrec Ho Ha Hcar Hrun.
  assert (∀ k0, own_property o k0 = alookup k0 (props o)) as Hown.
  { intros k0. apply own_property_alookup. by apply plain_not_special. }
  unfold defineReactive_with in Hrun.
  apply bind_Ok_inv in Hrun as (dep & s1 & [-> ->]%new_Dep_inv & Hrun).
  apply bind_Ok_inv in Hrun as (o1 & s1 & [-> Ho1]%the_obj_inv & Hrun).
  assert (o1 = o) as -> by (simpl in Ho1; congruence).
  rewrite Hown in Hrun.
  destruct (bool_decide (pd_configurable <$> alookup k (props o) = Some false)) eqn:Hcf.
  { injection Hrun as <-. split; [done|]. exists o.
    apply bool_decide_eq_true in Hcf.
    split_and!; try done.
    intros v wr en Hl. by rewrite Hl in Hcf. }
  apply bool_decide_eq_false in Hcf.
  apply bind_Ok_inv in Hrun as (val & s1 & Hval & Hrun).
  assert (stays (with_new_Dep s) s1 ∧
          (∀ v wr en, alookup k (props o) = Some (PData v wr en true) → val = v)) as [Hst1 Hv].
  { destruct (negb _ || _) eqn:Hcond; simpl in Hval.
    - split.
      + apply (quiet_keeps _ (with_new_Dep s) (quiet_js_get getters_quiet fuel r k)
                 _ _ _ Hval). apply stays_refl.
      + intros v wr en Hl. unfold js_get in Hval.
        apply bind_Ok_inv in Hval as (o1 & s1' & [-> Ho1']%the_obj_inv & Hval).
        assert (o1 = o) as -> by (simpl in Ho1'; congruence).
        rewrite Hown, Hl in Hval. by injection Hval as <- <-.
    - injection Hval as <- <-. split; [apply stays_refl|].
      intros v wr en Hl. rewrite Hl in Hcond. done. }
  apply bind_Ok_inv in Hrun as (childOb & s2 & Hch & Hrun).
  assert (stays (with_new_Dep s) s2) as Hst2.
  { simpl in Hch. eapply stays_trans; [exact Hst1|]. by eapply Hrec. }
  apply bind_Ok_inv in Hrun as (c & s3 & Hal & Hrun).
  assert (stays (with_new_Dep s) s3) as Hst3.
  { by eapply alloc_closure_keeps. }
  injection Hal as <- <-.
  set (c := fresh (dom (closures s2))) in *.
  apply defineProperty_accessor_inv in Hrun
    as (o3 & Ho3 & Hh & _ & Hcl & _).
  assert (o3 = o) as ->.
  { destruct Hst3 as [Hh3 _]. rewrite (Hh3 r ob) in Ho3; [simpl in Ho3; congruence|].
    by apply (carries_same_obj s). }
  split.
  { intros c0 cl0 Hc0. rewrite Hcl. by apply (proj2 Hst3). }
  eexists. split; [rewrite Hh; apply lookup_insert_eq|]. simpl.
  split_and!; try done.
  - intros k' Hne. by apply alookup_ainsert_ne.
  - intros d Hl Hd. destruct Hcf. rewrite Hl. simpl. by rewrite Hd.
  - intros v wr en Hl. eexists c, _. split; [apply alookup_ainsert_eq|].
    split; [rewrite Hcl; apply lookup_insert_eq|]. simpl.
    rewrite Hl. simpl. split_and!; try done. by apply (Hv v wr en).
Qed.


Lemma walk_loop fuel (observe_rec : value → bool → M (option obid)) r ob o_d keys :
  (∀ v a, wraps_apart (observe_rec v a)) →
  isArray o_d = false → cls o_d ≠ CVNode →
  alookup ob_key (props o_d) = Some (PData (VObs ob) true false true) →
  NoDup keys → ob_key ∉ keys →
  ∀ pre s_k s_w o_k,
    heap s_k !! r = Some o_k → cls o_k = cls o_d →
    ob_key ∉ pre →
    (∀ k, k ∈ keys → k ∉ pre) →
    (∀ k, k ∉ pre → alookup k (props o_k) = alookup k (props o_d)) →
    walked r o_d pre s_k o_k →
    for_each keys (fun k => defineReactive_with fuel observe_rec r k TwoArgs) s_k
      = Ok tt s_w →
    ∃ o_w, heap s_w !! r = Some o_w ∧ cls o_w = cls o_d ∧
      (∀ k, k ∉ pre ++ keys → alookup k (props o_w) = alookup k (props o_d)) ∧
      walked r o_d (pre ++ keys) s_w o_w.
Proof.
  intros Hrec Ha Hcls Hob.
  induction keys as [|k keys IH]; intros Hnd Hobk pre s_k s_w o_k Ho Hc Hobp Hnew Hrest Hw Hrun.
  - injection Hrun as <-. rewrite app_nil_r. by exists o_k.
  - simpl in Hrun. apply bind_Ok_inv in Hrun as ([] & s1 & Hstep & Hrun).
    apply NoDup_cons in Hnd as [Hk Hnd].
    assert (k ≠ ob_key) as Hkob by (intros ->; apply Hobk; by left).
    assert (k ∉ pre) as Hkpre by (apply Hnew; by left).
    assert (isArray o_k = false) as Hak by (unfold isArray in *; by rewrite Hc).
    assert (carries s_k r ob) as Hcar.
    { exists o_k, true, false, true. split; [done|]. split; [by rewrite Hc|].
      rewrite own_property_ob_key. by rewrite Hrest. }
    destruct (defineReactive_walk_step fuel observe_rec r k o_k ob s_k s1 Hrec Ho Hak Hcar Hstep)
      as (Hmono & o1 & Ho1 & Hc1 & _ & _ & Hother & Hfixed & Hdata).
    replace (pre ++ k :: keys) with ((pre ++ [k]) ++ keys) by (by rewrite <- app_assoc).
    apply (IH Hnd ltac:(set_solver) (pre ++ [k]) s1 s_w o1); try done.
    + congruence.
    + set_solver.
    + intros k' Hk' [?|?%list_elem_of_singleton]%elem_of_app; [by apply (Hnew k'); [right|]|].
      by subst k'.
    + intros k' Hk'. rewrite Hother by set_solver. apply Hrest. set_solver.
    + destruct Hw as [W1 W2]. split.
      * intros k' d [Hin|Hin%list_elem_of_singleton]%elem_of_app Hd Hcf.
        -- rewrite Hother by (by intros ->). by apply (W1 k' d).
        -- subst k'. apply Hfixed; [|done]. by rewrite Hrest.
      * intros k' v wr en [Hin|Hin%list_elem_of_singleton]%elem_of_app Hd.
        -- destruct (W2 k' v wr en Hin Hd) as (c & cl & Hacc & Hcl & Hrestc).
           exists c, cl. rewrite Hother by (by intros ->). split; [done|].
           split; [by apply Hmono|done].
        -- subst k'. apply (Hdata v wr en). by rewrite Hrest.
Qed.

Lemma def_ob_run r o v s s' :
  heap s !! r = Some o → own_property o ob_key = None →
  def r ob_key v s = Ok tt s' →
  s' = set_heap <[r := with_props (props o ++ [(ob_key, PData v true false true)]) o]> s.
Proof.
  intros Ho Hp Hd. unfold def, defineProperty in Hd.
  erewrite bind_Ok in Hd by by apply the_obj_Ok.
  rewrite Hp in Hd. destruct (extensible o); [|done].
  rewrite (store_property_props r o) in Hd; [|done|].
  - injection Hd as <-. rewrite ainsert_absent; [done|].
    by rewrite <- own_property_ob_key.
  - intros [_ [Hk|[n Hk]]]; discriminate.
Qed.


End WalkProofs.

Section ArrayProofs.
Context `{Host}.
Hypothesis getters_quiet :
  ∀ g r s v s', call_getter g r s = Ok v s' → heap s' = heap s ∧ closures s' = closures s.

Lemma quiet_apart {A} (m : M A) : quiet m → wraps_apart m.
Proof.
  intros Hq s a s' Hm. destruct (Hq s a s' Hm) as [Hh Hc].
  split; [intros r ob _; by rewrite Hh|intros c cl; by rewrite Hc].
Qed.

Lemma wraps_apart_bind {A B} (m : M A) (k : A → M B) :
  wraps_apart m → (∀ a, wraps_apart (k a)) → wraps_apart (bind m k).
Proof.
  intros Hm Hk s b s' Hrun. apply bind_Ok_inv in Hrun as (a & s1 & H1 & H2).
  eapply stays_trans; [by eapply Hm|by eapply Hk].
Qed.

Lemma wraps_apart_for_each {A} (l : list A) (body : A → M unit) :
  (∀ x, wraps_apart (body x)) → wraps_apart (for_each l body).
Proof.
  intros Hb. induction l as [|x l IH]; simpl.
  - apply quiet_apart, quiet_ret.
  - apply wraps_apart_bind; [apply Hb|by intros _].
Qed.

Lemma observeArray_with_apart (observe_rec : value → bool → M (option obid)) r :
  (∀ v a, wraps_apart (observe_rec v a)) →
  wraps_apart (observeArray_with observe_rec r).
Proof.
  intros Hrec. unfold observeArray_with.
  apply wraps_apart_bind; [apply quiet_apart, quiet_the_obj|intros o].
  apply wraps_apart_for_each. intros i.
  apply wraps_apart_bind; [apply quiet_apart; by apply quiet_get_elem|intros v].
  apply wraps_apart_bind; [apply Hrec|intros _; apply quiet_apart, quiet_ret].
Qed.

Lemma own_property_ext o o' k :
  cls o' = cls o → elems o' = elems o →
  alookup k (props o') = alookup k (props o) →
  own_property o' k = own_property o k.
Proof. intros Hc He Hp. unfold own_property. by rewrite Hc, He, Hp. Qed.

Lemma def_method_run r o m v s s' :
  heap s !! r = Some o → KName m ≠ length_key →
  def r (KName m) v s = Ok tt s' →
  s' = set_heap <[r := with_props (ainsert (KName m) (PData v true false true) (props o)) o]> s.
Proof.
  intros Ho Hm Hd. unfold def, defineProperty in Hd.
  erewrite bind_Ok in Hd by by apply the_obj_Ok.
  assert (¬ (cls o = CArray ∧ (KName m = length_key ∨ ∃ n, KName m = KIndex n))) as Hk.
  { intros [_ [?|[n ?]]]; [done|discriminate]. }
  destruct (own_property o (KName m)) as [p|].
  - destruct (pd_configurable p); [|done].
    rewrite (store_property_props r o _ _ s Ho Hk) in Hd. by injection Hd as <-.
  - destruct (extensible o); [|done].
    rewrite (store_property_props r o _ _ s Ho Hk) in Hd. by injection Hd as <-.
Qed.

Lemma copyAugment_run keys : ∀ r o s s',
  heap s !! r = Some o →
  (∀ m, m ∈ keys → KName m ≠ length_key) →
  copyAugment r keys s = Ok tt s' →
  ∃ o', s' = set_heap <[r := o']> s ∧ cls o' = cls o ∧ elems o' = elems o ∧
    protoArrayMethods o' = protoArrayMethods o ∧
    (∀ m, m ∈ keys →
       alookup (KName m) (props o') = Some (PData (VFun (FArrayMethod m)) true false true)) ∧
    (∀ k, (∀ m, m ∈ keys → k ≠ KName m) → alookup k (props o') = alookup k (props o)).
Proof.
  unfold copyAugment.
  induction keys as [|key keys IH]; intros r o s s' Ho Hkeys Hrun; simpl in Hrun.
  - injection Hrun as <-. exists o. rewrite set_heap_id by done.
    repeat split; try done. intros m Hm. by apply elem_of_nil in Hm.
  - apply bind_Ok_inv in Hrun as ([] & s1 & Hdef & Hrun).
    apply (def_method_run r o) in Hdef; [|done|apply Hkeys; by left].
    set (o1 := with_props _ o) in Hdef.
    destruct (IH r o1 s1 s') as (o' & -> & Hc & He & Hp & Hin & Hout).
    { subst s1. apply set_heap_lookup. }
    { intros m Hm. apply Hkeys. by right. }
    { done. }
    exists o'. subst s1. rewrite set_heap_insert_twice.
    repeat split; try done.
    + intros m Hm. destruct (decide (m ∈ keys)) as [Hmk|Hmk]; [by apply Hin|].
      apply elem_of_cons in Hm as [->|Hm]; [|done].
      rewrite Hout by (intros m' Hm' [= ->]; done).
      subst o1. simpl. apply alookup_ainsert_eq.
    + intros k Hk. rewrite Hout by (intros m Hm; apply Hk; by right).
      subst o1. simpl. apply alookup_ainsert_ne. intros <-. by apply (Hk key); [left|].
Qed.


End ArrayProofs.

Section WriteThenRead.
Context `{Host}.
Hypothesis getters_quiet :
  ∀ g r s v s', call_getter g r s = Ok v s' → heap s' = heap s ∧ closures s' = closures s.
Hypothesis cb_keeps : ∀ w v old, keeps_closures (cb w v old).
Hypothesis queueWatcher_keeps : ∀ w, keeps_closures (queueWatcher w).
Hypothesis customSetter_keeps : ∀ f, keeps_closures (call_customSetter f).

Lemma keeps_closures_bind {A B} (m : M A) (k : A → M B) :
  keeps_closures m → (∀ a, keeps_closures (k a)) → keeps_closures (bind m k).
Proof.
  intros Hm Hk s s' Hf. apply final_bind_inv in Hf as [(a & s1 & H1 & H2)|(e & H1)].
  - rewrite (Hk a s1 s' H2). apply Hm. by rewrite H1.
  - apply Hm. by rewrite H1.
Qed.

Lemma keeps_closures_ret {A} (a : A) : keeps_closures (ret a).
Proof. by intros s s' [= <-]. Qed.

Lemma keeps_closures_this_watcher w : keeps_closures (this_watcher w).
Proof.
  intros s s'. unfold this_watcher. destruct (watchers s !! w); [|done]. by intros [= <-].
Qed.

Lemma keeps_closures_update_watcher w f : keeps_closures (update_watcher w f).
Proof. by intros s s' [= <-]. Qed.

Lemma keeps_closures_get w : keeps_closures (get w).
Proof.
  intros s s' Hf. destruct (watchers s !! w) as [x|] eqn:Hx.
  - rewrite (get_run w x s Hx) in Hf.
    destruct (evaluator w (set_targetStack (cons w) s)).2; [|destruct (w_user x)];
      simpl in Hf; by injection Hf as <-.
  - unfold get, bind, pushTarget, modify, this_watcher in Hf. simpl in Hf.
    by rewrite Hx in Hf.
Qed.

Lemma keeps_closures_run w : keeps_closures (run w).
Proof.
  unfold run. apply keeps_closures_bind; [apply keeps_closures_this_watcher|intros this].
  destruct (w_active this); [|apply keeps_closures_ret].
  apply keeps_closures_bind; [apply keeps_closures_get|intros value].
  apply keeps_closures_bind; [apply keeps_closures_this_watcher|intros this1].
  destruct (_ || _); [|apply keeps_closures_ret].
  apply keeps_closures_bind; [apply keeps_closures_update_watcher|intros _].
  apply keeps_closures_bind; [apply keeps_closures_this_watcher|intros this2].
  destruct (w_user this2); [|apply cb_keeps].
  intros s s' Hf. unfold try_catch in Hf.
  destruct (cb w value (w_value this1) s) as [a s1|e s1|] eqn:Hcb.
  - apply (cb_keeps w value (w_value this1)). by rewrite Hcb.
  - assert (closures s1 = closures s) as <-
      by (apply (cb_keeps w value (w_value this1)); by rewrite Hcb).
    revert Hf. apply keeps_closures_bind; [apply keeps_closures_this_watcher|intros this3].
    by intros t t' [= <-].
  - done.
Qed.

Lemma keeps_closures_update w : keeps_closures (update w).
Proof.
  unfold update. apply keeps_closures_bind; [apply keeps_closures_this_watcher|intros this].
  destruct (w_lazy this); [apply keeps_closures_update_watcher|].
  destruct (w_sync this); [apply keeps_closures_run|apply queueWatcher_keeps].
Qed.

Lemma keeps_closures_dep_notify d : keeps_closures (dep_notify d).
Proof.
  unfold dep_notify. apply keeps_closures_bind; [by intros s s' [= <-]|intros l].
  intros s s' Hf.
  apply (for_each_final_inv (fun t => closures t = closures s) l update) with (s := s);
    [|done|done].
  intros w t t' _ Ht Hw. rewrite <- Ht. by apply (keeps_closures_update w).
Qed.


End WriteThenRead.

(** * The statements at work on the small program *)

Lemma get_confirms_exactly_the_reads_witness :
  ∃ s' x',
    final_state (get (H := demo_host) 1 demo_state) = Some s' ∧
    watchers s' !! 1 = Some x' ∧
    w_depIds x' = list_to_set (reads_of_run (H := demo_host) 1 demo_state) ∧
    NoDup (w_deps x') ∧
    (∀ d, d ∈ w_deps x' ↔ d ∈ reads_of_run (H := demo_host) 1 demo_state) ∧
    (∀ d, d ∈ reads_of_run (H := demo_host) 1 demo_state →
          (d ∈ w_depIds (demo_watcher false false true) → 1 ∈ dep_subs d demo_state) →
          1 ∈ dep_subs d s') ∧
    (∀ d, d ∈ w_deps (demo_watcher false false true) →
          d ∉ reads_of_run (H := demo_host) 1 demo_state → 1 ∉ dep_subs d s') ∧
    between_runs x'.
Proof.
  apply (get_confirms_exactly_the_reads (H := demo_host) 1
           (demo_watcher false false true) demo_state).
  - reflexivity.
  - split; reflexivity.
Defined.

Example demo_get_deps :
  (final_state (get (H := demo_host) 1 demo_state)
     ≫= fun s' => w_deps <$> (watchers s' !! 1)) = Some [5; 7].
Proof. vm_compute. reflexivity. Qed.

Lemma run_skips_or_fires_witness :
  ∃ x1, watchers demo_after_get !! 1 = Some x1 ∧
    w_value x1 = w_value (demo_watcher false false true) ∧
    (strict_eq (VStr "shown") (w_value (demo_watcher false false true))
       && negb (isObject (VStr "shown"))
       && negb (w_deep (demo_watcher false false true)) = true →
       run (H := demo_host) 1 demo_state = Ok tt demo_after_get) ∧
    (strict_eq (VStr "shown") (w_value (demo_watcher false false true))
       && negb (isObject (VStr "shown"))
       && negb (w_deep (demo_watcher false false true)) = false →
       let s2 := set_watchers <[1 := with_value (VStr "shown") x1]> demo_after_get in
       watchers s2 !! 1 = Some (with_value (VStr "shown") x1) ∧
       w_value (with_value (VStr "shown") x1) = VStr "shown" ∧
       run (H := demo_host) 1 demo_state
       = fire (H := demo_host) 1 (demo_watcher false false true) (VStr "shown")
           (w_value (demo_watcher false false true)) s2).
Proof.
  apply (run_skips_or_fires (H := demo_host) 1 (demo_watcher false false true)
           demo_state demo_after_get (VStr "shown")).
  - reflexivity.
  - reflexivity.
  - vm_compute. reflexivity.
Defined.

Lemma update_dispatch_witness :
  update (H := demo_host) 4 demo_state
  = Ok tt (set_watchers <[4 := with_dirty true (demo_watcher false true false)]> demo_state).
Proof.
  apply (update_dispatch (H := demo_host) 4 (demo_watcher false true false) demo_state).
  reflexivity.
Defined.

Lemma get_evaluator_throws_witness :
  ∃ s',
    (get (H := demo_host) 2 demo_state = Ok VUndef s' ∧
     log s' = [HandleError (Thrown (VStr "boom")) 0 (getter_label "a.b")]) ∧
    targetStack s' = [].
Proof.
  destruct (get_evaluator_throws (H := demo_host) 2 (demo_watcher true false false)
              demo_state (Thrown (VStr "boom")))
    as (s' & x' & Hget & Hstack & _).
  - reflexivity.
  - reflexivity.
  - exists s'. split; [exact Hget | exact Hstack].
Defined.

Lemma teardown_unsubscribes_and_deactivates_witness :
  ∃ s',
    teardown (H := demo_host) 1 demo_state = Ok tt s' ∧
    (∀ d, d ∈ [3; 5] → 1 ∉ dep_subs d s') ∧
    (∃ x', watchers s' !! 1 = Some x' ∧ w_active x' = false ∧ w_deps x' = [3; 5]) ∧
    teardown (H := demo_host) 1 s' = Ok tt s' ∧
    run (H := demo_host) 1 s' = Ok tt s'.
Proof.
  apply (teardown_unsubscribes_and_deactivates (H := demo_host) 1
           (demo_watcher false false true) demo_state).
  - reflexivity.
  - exists (mkVM None [1; 2; 4] false). reflexivity.
  - reflexivity.
Defined.

Lemma demo_carries : carries demo_state 1 0.
Proof.
  exists (mkObj CObject
            [(KName "a", PData (VStr "one") true true true);
             (ob_key, PData (VObs 0) true false true)]
            [] true [] false false), true, false, true.
  split; [reflexivity|]. split; [discriminate|reflexivity].
Defined.

Lemma observe_returns_existing_witness :
  (∃ s', observe (H := demo_host) 0 (VRef 1) true demo_state = Ok (Some 0) s' ∧
         heap s' = heap demo_state ∧
         dom (observers s') = dom (observers demo_state) ∧
         observe (H := demo_host) 0 (VRef 1) false s' = Ok (Some 0) s') ∧
  observe (H := demo_host) 2 (VRef 5) false demo_state = Ok (Some 3) demo_wrapped ∧
  carries demo_wrapped 5 3 ∧
  observe (H := demo_host) 0 (VRef 5) false demo_wrapped = Ok (Some 3) demo_wrapped.
Proof.
  destruct (observe_returns_existing (H := demo_host) 0 (VRef 1) true demo_state)
    as (_ & _ & Hex & _).
  destruct (observe_returns_existing (H := demo_host) 2 (VRef 5) false demo_state)
    as (_ & _ & _ & Hfresh).
  assert (Hrun : observe (H := demo_host) 2 (VRef 5) false demo_state
                 = Ok (Some 3) demo_wrapped) by (vm_compute; reflexivity).
  split; [|split; [exact Hrun|]].
  - destruct (Hex 1 0 eq_refl demo_carries)
      as (s' & Hob & Hheap & _ & _ & _ & Hdom & _ & _ & Hagain).
    exists s'. split; [exact Hob|]. split; [exact Hheap|]. split; [exact Hdom|].
    exact (Hagain 0).
  - destruct (Hfresh (fun g r s v s' Hg => f_equal (fun o => match o with
                                                      | Ok _ t => heap t
                                                      | _ => heap s
                                                      end) (eq_sym Hg))
                5 demo_fresh_obj 3 demo_wrapped eq_refl eq_refl)
      as [Hcar Hagain].
    + intros g st e c. discriminate.
    + exact Hrun.
    + split; [exact Hcar | exact (Hagain 0)].
Defined.

Lemma reactiveSetter_getter_only_witness :
  reactiveSetter (H := demo_host) 0 0 (VStr "other") demo_state = Ok tt demo_state.
Proof.
  destruct (reactiveSetter_getter_only (H := demo_host) 0 0 demo_closure (FUser 0)
              (VStr "other") (VStr "computed") demo_state demo_state)
    as [_ Hr].
  - reflexivity.
  - reflexivity.
  - reflexivity.
  - reflexivity.
  - apply Hr. left. reflexivity.
Defined.

Lemma reactiveSetter_noop_or_write_witness :
  reactiveSetter (H := demo_host) 0 0 (VStr "one") plain_state = Ok tt plain_state ∧
  reactiveSetter (H := demo_host) 0 0 (VStr "two") plain_state
  = write_through (H := demo_host) 0 0 plain_closure (VStr "two") plain_state.
Proof.
  split.
  - destruct (reactiveSetter_noop_or_write (H := demo_host) 0 0 plain_closure
                (VStr "one") (VStr "one") plain_state plain_state) as (Hn & _).
    + reflexivity.
    + reflexivity.
    + apply Hn. reflexivity.
  - destruct (reactiveSetter_noop_or_write (H := demo_host) 0 0 plain_closure
                (VStr "two") (VStr "one") plain_state plain_state) as (_ & Hw & _).
    + reflexivity.
    + reflexivity.
    + apply Hw; reflexivity.
Defined.

(** C1 fails as stated: a write of a new value to a property that had a
    getter and no setter is no no-op write, and yet nothing is stored and
    [dep.notify()] is not called: the store is as before, where the write the
    claim describes would have marked the lazy subscriber 4 of Dep 5 dirty. *)
Lemma reactiveSetter_getter_only_no_write :
  unchanged (VStr "other") (VStr "computed") = false ∧
  reactiveSetter (H := demo_host) 0 0 (VStr "other") demo_state = Ok tt demo_state ∧
  reactiveSetter (H := demo_host) 0 0 (VStr "other") demo_state
  ≠ write_through (H := demo_host) 0 0 demo_closure (VStr "other") demo_state ∧
  (final_state (write_through (H := demo_host) 0 0 demo_closure (VStr "other") demo_state)
     ≫= fun s' => w_dirty <$> (watchers s' !! 4)) = Some true ∧
  (final_state (reactiveSetter (H := demo_host) 0 0 (VStr "other") demo_state)
     ≫= fun s' => w_dirty <$> (watchers s' !! 4)) = Some false.
Proof.
  assert (Hw : (final_state (write_through (H := demo_host) 0 0 demo_closure (VStr "other") demo_state)
     ≫= fun s' => w_dirty <$> (watchers s' !! 4)) = Some true)
    by (vm_compute; reflexivity).
  assert (Hr : reactiveSetter (H := demo_host) 0 0 (VStr "other") demo_state = Ok tt demo_state)
    by (vm_compute; reflexivity).
  split; [reflexivity|]. split; [exact Hr|]. split; [|split; [exact Hw|]].
  - intros Heq. rewrite <- Heq, Hr in Hw. vm_compute in Hw. discriminate.
  - rewrite Hr. vm_compute. reflexivity.
Qed.

Lemma set_on_root_refused_witness :
  set (H := demo_host) 0 (VRef 1) (KName "b") (VStr "new") demo_state
  = Ok (VStr "new") (set_log (fun l => l ++ [Warn set_warning_root]) demo_state).
Proof.
  destruct (set_on_root_refused (H := demo_host) 0 1 demo_root_obj (KName "b")
              (VStr "new") (VObs 0) demo_state) as (s' & Hs & -> & _).
  - reflexivity.
  - reflexivity.
  - reflexivity.
  - reflexivity.
  - right. exists 0, (mkObserver 1 0 1).
    split; [reflexivity|]. split; [reflexivity|]. discriminate.
  - exact Hs.
Defined.

(** C7 fails as stated: [set] with a new key on an object whose Observer has
    root count 1 returns the value and stores it nowhere: the target has no
    such key afterwards and the heap is as before.  And on an array whose
    Observer has root count 1, [set] with an index beyond the length is not
    refused: nothing is warned and the element is stored. *)
Lemma set_on_root_stores_nothing :
  (∃ s',
     set (H := demo_host) 0 (VRef 1) (KName "b") (VStr "new") demo_state
     = Ok (VStr "new") s' ∧
     heap s' = heap demo_state ∧
     ¬ stored_on s' 1 (KName "b") (VStr "new")) ∧
  (∃ s',
     set (H := demo_host) 0 (VRef 8) (KIndex 3) (VStr "new") demo_state
     = Ok (VStr "new") s' ∧
     log s' = [] ∧
     stored_on s' 8 (KIndex 3) (VStr "new")).
Proof.
  split.
  - eexists. split; [vm_compute; reflexivity|]. split; [reflexivity|].
    intros (o & wr & en & cf & Ho & Hp).
    vm_compute in Ho. injection Ho as <-. vm_compute in Hp. discriminate.
  - eexists. split; [vm_compute; reflexivity|]. split; [reflexivity|].
    eexists _, true, true, true. split; vm_compute; reflexivity.
Qed.

Lemma defineReactive_not_configurable_witness :
  defineReactive (H := demo_host) 0 2 (KName "a") TwoArgs demo_state
  = Ok tt (with_new_Dep demo_state) ∧
  heap (with_new_Dep demo_state) = heap demo_state.
Proof.
  destruct (defineReactive_not_configurable (H := demo_host) 0
              (observe (H := demo_host) 0) 2 (KName "a") TwoArgs demo_frozen_obj
              (PData (VStr "one") false true false) demo_state)
    as (Hd & Hh & _).
  - reflexivity.
  - reflexivity.
  - reflexivity.
  - split; [exact Hd | exact Hh].
Defined.

(** C10 fails as stated: on a property that is not configurable
    [defineReactive] has created a Dep before it returns: the Dep id counter
    has moved from 8 to 9 and Dep 8 exists, with no subscribers.  And when the
    property that is not configurable is a reactive accessor already (the
    object was sealed after it was wrapped), a write to it after the call
    notifies its Subject as before: the lazy subscriber 4 of Dep 3 is marked
    dirty. *)
Lemma defineReactive_not_configurable_creates_Dep :
  (∃ s',
     defineReactive (H := demo_host) 0 2 (KName "a") TwoArgs demo_state = Ok tt s' ∧
     dep_uid demo_state = 8 ∧ dep_uid s' = 9 ∧
     subs demo_state !! 8 = None ∧ subs s' !! 8 = Some []) ∧
  (∃ s' s'',
     defineReactive (H := demo_host) 0 7 (KName "p") TwoArgs demo_state = Ok tt s' ∧
     heap s' = heap demo_state ∧
     js_set (H := demo_host) 0 7 (KName "p") (VStr "new") s' = Ok tt s'' ∧
     w_dirty <$> (watchers s' !! 4) = Some false ∧
     w_dirty <$> (watchers s'' !! 4) = Some true).
Proof.
  split.
  - eexists. split; [vm_compute; reflexivity|].
    repeat split; vm_compute; reflexivity.
  - eexists _, _. split; [vm_compute; reflexivity|]. split; [reflexivity|].
    split; [vm_compute; reflexivity|]. split; vm_compute; reflexivity.
Qed.

(** * The code at work *)

Example strict_eq_NaN : strict_eq (VNum S754_nan) (VNum S754_nan) = false.
Proof. reflexivity. Qed.

Example strict_eq_zeros :
  strict_eq (VNum (S754_zero false)) (VNum (S754_zero true)) = true.
Proof. reflexivity. Qed.

Example unchanged_NaN : unchanged (VNum S754_nan) (VNum S754_nan) = true.
Proof. reflexivity. Qed.

Example Object_keys_order :
  Object_keys
    (mkObj CObject
       [(KName "b", PData VNull true true true);
        (KIndex 2, PData VNull true true true);
        (ob_key, PData (VObs 0) true false true);
        (KIndex 0, PData VNull true true true)]
       [] true [] false false)
  = [KIndex 0; KIndex 2; KName "b"].
Proof. reflexivity. Qed.

(** Watcher 1 runs: it drops Dep 3, keeps Dep 5 and gains Dep 7, and caches
    the value. *)
Example demo_run :
  (final_state (run (H := demo_host) 1 demo_state) ≫= fun s' =>
     x ← watchers s' !! 1;
     Some (w_deps x, w_value x, dep_subs 3 s', dep_subs 5 s', dep_subs 7 s'))
  = Some ([5; 7], VStr "shown", [2; 4], [1; 2; 4], [1]).
Proof. vm_compute. reflexivity. Qed.

(** A write to the reactive property [p] of object 7 through [set]: the
    closure holds the new value, and of the subscribers of Dep 3 the sync
    watcher 1 has run and the lazy watcher 4 is dirty. *)
Example demo_set_existing :
  (final_state (set (H := demo_host) 1 (VRef 7) (KName "p") (VStr "new") demo_state)
     ≫= fun s' =>
     cl ← closures s' !! 1;
     x1 ← watchers s' !! 1;
     x4 ← watchers s' !! 4;
     Some (c_val cl, w_value x1, w_dirty x4))
  = Some (VStr "new", VStr "shown", true).
Proof. vm_compute. reflexivity. Qed.

(** Wrapping object 5 wraps the array 6 it holds, and stops at the cycle
    back to 5. *)
Example demo_observe_nested :
  (heap demo_wrapped !! 5 ≫= fun o => own_property o ob_key) = Some (PData (VObs 3) true false true) ∧
  (heap demo_wrapped !! 6 ≫= fun o => own_property o ob_key) = Some (PData (VObs 4) true false true) ∧
  (heap demo_wrapped !! 5 ≫= fun o => pd_get <$> own_property o (KName "child"))
  = Some (Some (FReactiveGetter 3)) ∧
  (heap demo_wrapped !! 6 ≫= fun o => Some (protoArrayMethods o)) = Some true.
Proof. vm_compute. repeat split; reflexivity. Qed.

(** The run of watcher 1 reads Dep 5 twice and Dep 7 once; the user watcher 2
    reads Dep 7 and throws, and is left with Dep 7 alone. *)
Example demo_reads :
  reads_of_run (H := demo_host) 1 demo_state = [5; 7; 5] ∧
  (final_state (get (H := demo_host) 2 demo_state) ≫= fun s' =>
     x ← watchers s' !! 2;
     Some (w_deps x, dep_subs 3 s', dep_subs 5 s', dep_subs 7 s', targetStack s'))
  = Some ([7], [1; 4], [1; 4], [2], []).
Proof. vm_compute. split; reflexivity. Qed.

(** * The further statements at work on the small program *)

Lemma evaluate_caches_or_stays_dirty_witness :
  (∃ s' x', evaluate (H := demo_host) 1 demo_state = Ok tt s' ∧
     watchers s' !! 1 = Some x' ∧ w_value x' = VStr "shown" ∧ w_dirty x' = false) ∧
  (∃ s' x', evaluate (H := demo_host) 2 demo_state = Ok tt s' ∧
     watchers s' !! 2 = Some x' ∧ w_value x' = VUndef ∧ w_dirty x' = false) ∧
  (∃ s' x', evaluate (H := demo_host) 4 demo_state = Throw (Thrown (VStr "boom")) s' ∧
     watchers s' !! 4 = Some x' ∧ w_value x' = VUndef ∧ w_dirty x' = false).
Proof.
  destruct (evaluate_caches_or_stays_dirty (H := demo_host) 1
              (demo_watcher false false true) demo_state eq_refl) as (H1 & _ & _).
  destruct (evaluate_caches_or_stays_dirty (H := demo_host) 2
              (demo_watcher true false false) demo_state eq_refl) as (_ & H2 & _).
  destruct (evaluate_caches_or_stays_dirty (H := demo_host) 4
              (demo_watcher false true false) demo_state eq_refl) as (_ & _ & H3).
  split; [exact (H1 (VStr "shown") eq_refl)|].
  split; [exact (H2 (Thrown (VStr "boom")) eq_refl eq_refl)|].
  exact (H3 (Thrown (VStr "boom")) eq_refl eq_refl).
Defined.

Lemma depend_hands_deps_to_target_witness :
  depend 2 demo_state = Ok tt demo_state ∧
  ∃ s' xt',
    depend 2 demo_evaluating = Ok tt s' ∧
    watchers s' !! 1 = Some xt' ∧
    w_newDepIds xt' = ∅ ∪ list_to_set [3; 5] ∧
    w_deps xt' = [3; 5].
Proof.
  destruct (depend_hands_deps_to_target 2
              (demo_watcher true false false) demo_state eq_refl) as [H1 _].
  destruct (depend_hands_deps_to_target 2
              (demo_watcher true false false) demo_evaluating eq_refl) as [_ H2].
  split; [exact (H1 eq_refl)|].
  destruct (H2 1 (demo_watcher false false true) eq_refl eq_refl)
    as (s' & xt' & x' & Hrun & Hxt & Hnew & _ & Hdeps & _).
  exists s', xt'. split; [exact Hrun|]. split; [exact Hxt|].
  split; [exact Hnew | exact Hdeps].
Defined.

Lemma run_contains_user_callback_errors_witness :
  (∃ s', run (H := loud_host) 2 demo_state = Ok tt s' ∧
     log s' = [HandleError (Thrown (VStr "cb")) 0 (callback_label "a.b")]) ∧
  (∃ s', run (H := loud_host) 1 demo_state = Throw (Thrown (VStr "cb")) s').
Proof.
  split.
  - eexists. split.
    + eapply (run_contains_user_callback_errors (H := loud_host) 2
                (demo_watcher true false false)); vm_compute; reflexivity.
    + reflexivity.
  - eexists.
    eapply (run_contains_user_callback_errors (H := loud_host) 1
              (demo_watcher false false true)); vm_compute; reflexivity.
Defined.

Lemma new_Watcher_lazy_is_not_evaluated_witness :
  ∃ s' x,
    new_Watcher (H := demo_host) demo_toString demo_parsePath 0 (ExpPath "a.b")
      lazy_options false demo_state = Ok 5 s' ∧
    watchers s' !! 5 = Some x ∧ w_dirty x = true ∧ w_value x = VUndef ∧ w_deps x = [] ∧
    subs s' = subs demo_state ∧
    vms s' !! 0 = Some (mkVM None [1; 2; 4; 5] false).
Proof.
  destruct (new_Watcher_lazy_is_not_evaluated (H := demo_host) demo_toString demo_parsePath
              0 (mkVM None [1; 2; 4] false) (ExpPath "a.b") lazy_options false demo_state
              eq_refl eq_refl)
    as (s' & x & Hrun & _ & Hx & _ & Hdirty & _ & Hval & Hdeps & _ & Hsubs & _ & _ & Hvm).
  exists s', x. repeat split; assumption.
Defined.

Lemma new_Watcher_evaluates_once_witness :
  ∃ s' x,
    new_Watcher (H := loud_host) demo_toString demo_parsePath 0 (ExpFn (FUser 0))
      None true demo_state = Ok 5 s' ∧
    watchers s' !! 5 = Some x ∧ w_value x = VStr "shown" ∧
    (∀ d, d ∈ w_deps x ↔ d ∈ [5; 7]) ∧
    (∀ d, d ∈ [5; 7] → 5 ∈ dep_subs d s') ∧
    targetStack s' = [].
Proof.
  destruct (new_Watcher_evaluates_once (H := loud_host) demo_toString demo_parsePath
              0 (mkVM None [1; 2; 4] false) (ExpFn (FUser 0)) None true demo_state
              (VStr "shown") eq_refl eq_refl eq_refl)
    as (s' & x & Hrun & Hx & Hval & _ & _ & Hdeps & Hsubs & Hstack & _).
  exists s', x. repeat split; try assumption; apply Hdeps.
Defined.

Lemma new_Watcher_getter_throws_witness :
  ∃ s' x,
    new_Watcher (H := demo_host) demo_toString demo_parsePath 0 (ExpFn (FUser 0))
      None false demo_state = Throw (Thrown (VStr "boom")) s' ∧
    watchers s' !! 5 = Some x ∧ w_active x = true ∧
    (∀ d, d ∈ [7] → 5 ∈ dep_subs d s') ∧
    (∃ v', vms s' !! 0 = Some v' ∧ 5 ∈ _watchers v').
Proof.
  destruct (new_Watcher_getter_throws (H := demo_host) demo_toString demo_parsePath
              0 (mkVM None [1; 2; 4] false) (ExpFn (FUser 0)) None false demo_state
              (Thrown (VStr "boom")) eq_refl eq_refl eq_refl eq_refl)
    as (s' & x & Hrun & Hx & _ & Hact & _ & Hsubs & _ & Hvm).
  exists s', x. repeat split; assumption.
Defined.

Lemma reactiveGetter_collects_witness :
  reactiveGetter (H := demo_host) 1 1 demo_state = Ok (VStr "old") demo_state ∧
  reactiveGetter (H := demo_host) 1 1 demo_evaluating
  = Ok (VStr "old")
      (put_watcher_subs 1
         (collect 1 [3] (demo_watcher false false true, subs demo_evaluating))
         demo_evaluating).
Proof.
  destruct (reactiveGetter_collects (H := demo_host) 1 1
              (mkClosure 7 (KName "p") (VStr "old") None None None None false 3)
              (mkClosure 7 (KName "p") (VStr "old") None None None None false 3)
              (VStr "old") demo_state demo_state eq_refl eq_refl eq_refl) as [H1 _].
  destruct (reactiveGetter_collects (H := demo_host) 1 1
              (mkClosure 7 (KName "p") (VStr "old") None None None None false 3)
              (mkClosure 7 (KName "p") (VStr "old") None None None None false 3)
              (VStr "old") demo_evaluating demo_evaluating eq_refl eq_refl eq_refl)
    as [_ H2].
  split; [exact (H1 eq_refl)|].
  exact (H2 1 (demo_watcher false false true) eq_refl eq_refl).
Defined.

Lemma observe_refuses_witness :
  observe (H := demo_host) 3 (VRef 2) true demo_state = Ok None demo_state.
Proof.
  apply (observe_refuses (H := demo_host) 3 2 demo_frozen_obj true demo_state).
  - reflexivity.
  - discriminate.
  - reflexivity.
  - right. right. right. left. reflexivity.
Defined.

Lemma toggleObserving_off_wraps_nothing_new_witness :
  (toggleObserving false ;; observe (H := demo_host) 2 (VRef 5) false) demo_state
  = Ok None (set_shouldObserve false demo_state) ∧
  (toggleObserving false ;; observe (H := demo_host) 2 (VRef 1) false) demo_state
  = Ok (Some 0) (set_shouldObserve false demo_state) ∧
  (toggleObserving false ;; toggleObserving true) demo_state = Ok tt demo_state.
Proof.
  destruct (toggleObserving_off_wraps_nothing_new (H := demo_host) 2 5 demo_state)
    as (H1 & _ & H3).
  destruct (toggleObserving_off_wraps_nothing_new (H := demo_host) 2 1 demo_state)
    as (_ & H2 & _).
  split; [|split].
  - apply (H1 demo_fresh_obj false); [reflexivity|discriminate|reflexivity].
  - apply (H2 0). exists demo_root_obj, true, false, true.
    split; [reflexivity|]. split; [discriminate|reflexivity].
  - apply H3. reflexivity.
Defined.



Lemma set_on_unobserved_is_assignment_witness :
  ∃ s',
    set (H := demo_host) 1 (VRef 5) (KName "y") (VStr "w") demo_state = Ok (VStr "w") s' ∧
    stored_on s' 5 (KName "y") (VStr "w") ∧
    subs s' = subs demo_state ∧ dep_uid s' = dep_uid demo_state.
Proof.
  destruct (set_on_unobserved_is_assignment (H := demo_host) 1 5 demo_fresh_obj (KName "y")
              (VStr "w") demo_state)
    as (s' & Hrun & Hs & Hst & _).
  - reflexivity.
  - discriminate.
  - reflexivity.
  - reflexivity.
  - apply not_elem_of_nil.
  - reflexivity.
  - reflexivity.
  - discriminate.
  - exists s'. split; [exact Hrun|]. split; [exact Hst|]. rewrite Hs. split; reflexivity.
Defined.



Lemma del_on_root_refused_witness :
  ∃ s',
    del (H := demo_host) (VRef 1) (KName "a") demo_state = Ok tt s' ∧
    log s' = [Warn del_warning_root] ∧
    heap s' = heap demo_state ∧ subs s' = subs demo_state.
Proof.
  destruct (del_on_root_refused (H := demo_host) 1 demo_root_obj (KName "a") (VObs 0)
              demo_state)
    as (s' & Hrun & Hs & Hheap & Hsubs & _).
  - reflexivity.
  - discriminate.
  - reflexivity.
  - right. exists 0, (mkObserver 1 0 1). split; [reflexivity|]. split; [reflexivity|].
    discriminate.
  - exists s'. split; [exact Hrun|]. split; [by rewrite Hs|]. split; assumption.
Defined.

Lemma del_missing_or_fixed_key_witness :
  del (H := demo_host) (VRef 2) (KName "b") demo_state = Ok tt demo_state ∧
  ∃ msg, del (H := demo_host) (VRef 2) (KName "a") demo_state
         = Throw (TypeError msg) demo_state.
Proof.
  destruct (del_missing_or_fixed_key (H := demo_host) 2 demo_frozen_obj (KName "b") VUndef
              demo_state) as [H1 _];
    [reflexivity|discriminate|reflexivity|reflexivity|discriminate|discriminate|].
  destruct (del_missing_or_fixed_key (H := demo_host) 2 demo_frozen_obj (KName "a") VUndef
              demo_state) as [_ H2];
    [reflexivity|discriminate|reflexivity|reflexivity|discriminate|discriminate|].
  split; [exact (H1 eq_refl)|].
  exact (H2 (PData (VStr "one") false true false) eq_refl eq_refl).
Defined.

Lemma del_removes_and_notifies_witness :
  del (H := demo_host) (VRef 5) (KName "x") demo_state
  = Ok tt
      (set_heap <[5 := with_props [(KName "child", PData (VRef 6) true true true)]
                         demo_fresh_obj]> demo_state).
Proof.
  destruct (del_removes_and_notifies (H := demo_host) 5 demo_fresh_obj (KName "x")
              (PData (VStr "v") true true true) VUndef demo_state)
    as (_ & _ & H1 & _);
    [reflexivity|discriminate|reflexivity|reflexivity|discriminate|discriminate
    |reflexivity|reflexivity|].
  exact (H1 eq_refl).
Defined.


Lemma set_then_del_restores_witness :
  (set (H := demo_host) 1 (VRef 5) (KName "y") (VStr "w") ;;
   del (H := demo_host) (VRef 5) (KName "y")) demo_state = Ok tt demo_state.
Proof.
  apply (set_then_del_restores (H := demo_host) 1 5 demo_fresh_obj (KName "y") (VStr "w")
           demo_state).
  - reflexivity.
  - discriminate.
  - reflexivity.
  - reflexivity.
  - apply not_elem_of_nil.
  - reflexivity.
  - reflexivity.
  - discriminate.
  - discriminate.
Defined.

Lemma dedupeHooks_keeps_first_occurrences_witness :
  ∃ r s',
    dedupeHooks 10 hooks_state = Ok r s' ∧
    heap hooks_state !! r = None ∧
    heap s' !! r = Some (array_of [Some (VFun (FUser 1)); Some (VFun (FUser 2))]) ∧
    heap s' !! 10 = Some demo_hooks_obj.
Proof.
  destruct (dedupeHooks_keeps_first_occurrences 10 demo_hooks_obj hooks_state
              eq_refl eq_refl)
    as (r & res & s' & Hrun & Hnew & Hr & [Hext _] & _).
  exists r, s'. split; [exact Hrun|]. split; [exact Hnew|].
  split; [|apply Hext; reflexivity].
  vm_compute in Hrun. injection Hrun as <- <-. reflexivity.
Defined.

Lemma mergeHook_parent_first_witness :
  mergeHook VUndef VUndef hooks_state = Ok VUndef hooks_state ∧
  ∃ r s',
    mergeHook (VRef 10) (VRef 11) hooks_state = Ok (VRef r) s' ∧
    heap s' !! r
    = Some (array_of [Some (VFun (FUser 1)); Some (VFun (FUser 2)); Some (VFun (FUser 3))]).
Proof.
  destruct (mergeHook_parent_first VUndef VUndef hooks_state) as [H1 _].
  { left. reflexivity. } { discriminate. }
  destruct (mergeHook_parent_first (VRef 10) (VRef 11) hooks_state) as [_ H2].
  { right. exists 10, demo_hooks_obj. repeat split; reflexivity. }
  { intros c [= <-]. eexists. reflexivity. }
  split; [exact (H1 eq_refl eq_refl)|].
  destruct (H2 (or_introl eq_refl)) as (r & res & s' & Hrun & _ & Hr & _ & Hres & _).
  exists r, s'. split; [exact Hrun|]. rewrite Hr, Hres. reflexivity.
Defined.

Lemma data_state_plain : plain_data data_state.
Proof.
  intros r o Hr. unfold data_state in Hr. simpl in Hr.
  apply lookup_insert_Some in Hr as [[<- <-]|[_ Hr]].
  2: apply lookup_singleton_Some in Hr as [<- <-].
  all: split; [reflexivity|]; split; [reflexivity|]; intros k d Hin.
  all: repeat (apply elem_of_cons in Hin as [[= -> ->]|Hin];
               [split; [discriminate|eexists; reflexivity]|]).
  all: by apply elem_of_nil in Hin.
Defined.

Lemma mergeData_keeps_what_is_there_witness :
  keeps_props data_state data_merged ∧ plain_data data_merged ∧
  same_but_heap data_state data_merged.
Proof.
  destruct (mergeData_keeps_what_is_there (H := demo_host) true 1 1 data_to (VRef 2)
              data_state data_merged data_state_plain eq_refl eq_refl)
    as (H1 & H2 & H3 & _).
  - vm_compute. reflexivity.
  - split; [exact H1|]. split; [exact H2|exact H3].
Defined.


Lemma mergeData_flat_witness :
  mergeData (H := demo_host) true 0 1 (VRef 2) data_state
  = Ok (VRef 1)
      (set_heap <[1 := with_props [(KName "a", PData (VStr "mine") true true true);
                                   (KName "b", PData (VStr "new") true true true)]
                         data_to]> data_state).
Proof.
  destruct (mergeData_flat (H := demo_host) true 0 1 2 data_to data_from data_state
              data_state_plain eq_refl eq_refl eq_refl eq_refl eq_refl)
    as [H1 _].
  - discriminate.
  - reflexivity.
  - intros key. unfold read_of, own_property. simpl.
    destruct (decide (key = KName "a")); reflexivity.
  - intros key r. unfold read_of, own_property. simpl.
    destruct (decide (key = KName "a")); [discriminate|].
    destruct (decide (key = KName "b")); discriminate.
  - exact H1.
Defined.

Lemma demo_getters_quiet g r s v s' :
  @call_getter demo_host g r s = Ok v s' → heap s' = heap s ∧ closures s' = closures s.
Proof. intros Hg. injection Hg as _ <-. split; reflexivity. Defined.



Lemma demo_cb_keeps w v old : keeps_closures (@cb demo_host w v old).
Proof. intros s s' Hf. injection Hf as <-. reflexivity. Defined.

Lemma demo_queueWatcher_keeps w : keeps_closures (@queueWatcher demo_host w).
Proof. intros s s' Hf. injection Hf as <-. reflexivity. Defined.

Lemma demo_customSetter_keeps f : keeps_closures (@call_customSetter demo_host f).
Proof. intros s s' Hf. injection Hf as <-. reflexivity. Defined.

